(** * juju state layer: lease clock skew and the network-space life cycle

    A shallow embedding of [state/lease/skew.go] and [state/spaces.go], and
    of the argument handling of three commands around them.

    - Module [Lease] embeds [Skew], [Earliest], [Latest] and [isZero] over a
      model of Go's [time.Time] / [time.Duration] (64-bit seconds, 32-bit
      nanoseconds, saturating [Sub], wrapping [Add]).
    - Module [Spaces] embeds [AddSpace], [Space], [EnsureDead], [Remove] and
      [Refresh] as programs over a transactional document store, and the
      queries [Subnets] and [AllSpaces].
    - Module [Deploy] embeds [DeployResources] of
      [resource/resourceadapters/deploy.go] over a model of [strconv.Atoi].
    - Module [Offer] embeds [parseEndpoints], [Init] and [Run] of
      [cmd/juju/crossmodel/offer.go].
    - Module [Filesystem] embeds [createFilesystemInfo],
      [convertToFilesystemInfo] and [generateListFilesystemsOutput] of the
      storage command.

    The modules [LeaseSpec], [SpacesSpec], [LeaseExtra], [SpacesExtra],
    [SpacesAbort] (the abort path of [AddSpace]), [DeployExtra],
    [OfferExtra] and [FilesystemExtra] hold the theorems. *)

From Stdlib Require Import ZArith Lia Ascii String.
From stdpp Require Import gmap strings list fin_maps.

(* ===================================================================== *)
(** * Package lease                                                      *)
(* ===================================================================== *)

Module Lease.

Local Open Scope Z_scope.

(** ** Machine integers *)

(** Two's complement wrap-around of Go's [int64] and [int32]. *)
Definition wrap64 (x : Z) : Z := (x + 2 ^ 63) mod 2 ^ 64 - 2 ^ 63.
Definition wrap32 (x : Z) : Z := (x + 2 ^ 31) mod 2 ^ 32 - 2 ^ 31.

Definition int64 (x : Z) : Prop := - 2 ^ 63 <= x < 2 ^ 63.

(** ** Package time

    [time.Duration] is an [int64] count of nanoseconds. *)
Definition Duration : Type := Z.

Definition Second : Duration := 1000000000.
Definition minDuration : Duration := - 2 ^ 63.
Definition maxDuration : Duration := 2 ^ 63 - 1.

(** [*time.Location]: [None] is the nil pointer (UTC). *)
Definition Location : Type := option string.

(** [time.Time] without a monotonic clock reading, as stored and read back
    from the database, in the representation of the Go releases this code was
    written for: [sec] counts seconds since January 1, year 1 ([int64]),
    [nsec] is the nanosecond offset within the second ([int32], kept in
    [0, 999999999] by every constructor of the package), [loc] is the
    location pointer, which no comparison or subtraction looks at. *)
Record Time : Type := mkTime { sec : Z; nsec : Z; loc : Location }.

(** The zero value of [time.Time]. *)
Definition zeroTime : Time := {| sec := 0; nsec := 0; loc := None |}.

(** [func (t Time) IsZero() bool] *)
Definition IsZero (t : Time) : bool := (sec t =? 0) && (nsec t =? 0).

(** [func (t Time) After(u Time) bool] *)
Definition After (t u : Time) : bool :=
  (sec u <? sec t) || ((sec t =? sec u) && (nsec u <? nsec t)).

(** [func (t Time) Before(u Time) bool] *)
Definition Before (t u : Time) : bool :=
  (sec t <? sec u) || ((sec t =? sec u) && (nsec t <? nsec u)).

(** [func (t Time) Equal(u Time) bool] *)
Definition Equal (t u : Time) : bool :=
  (sec t =? sec u) && (nsec t =? nsec u).

(** [func (t Time) Add(d Duration) Time]:
<<
    t.sec += int64(d / 1e9)
    nsec := t.nsec + int32(d%1e9)
    if nsec >= 1e9 { t.sec++; nsec -= 1e9 }
    else if nsec < 0 { t.sec--; nsec += 1e9 }
    t.nsec = nsec
>>
    Go's [/] and [%] truncate towards zero ([Z.quot], [Z.rem]). *)
Definition Add (t : Time) (d : Duration) : Time :=
  let s := wrap64 (sec t + wrap64 (d `quot` 1000000000)) in
  let n := wrap32 (nsec t + wrap32 (d `rem` 1000000000)) in
  if 1000000000 <=? n then
    {| sec := wrap64 (s + 1); nsec := wrap32 (n - 1000000000); loc := loc t |}
  else if n <? 0 then
    {| sec := wrap64 (s - 1); nsec := wrap32 (n + 1000000000); loc := loc t |}
  else
    {| sec := s; nsec := n; loc := loc t |}.

(** [func (t Time) Sub(u Time) Duration]:
<<
    d := Duration(t.sec-u.sec)*Second + Duration(t.nsec-u.nsec)
    switch {
    case u.Add(d).Equal(t): return d
    case t.Before(u):       return minDuration
    default:                return maxDuration
    }
>>
    The difference saturates when it does not fit a [Duration]. *)
Definition Sub (t u : Time) : Duration :=
  let d := wrap64 (wrap64 (wrap64 (sec t - sec u) * Second)
                   + wrap32 (nsec t - nsec u)) in
  if Equal (Add u d) t then d
  else if Before t u then minDuration
  else maxDuration.

(** ** skew.go *)

(** [type Skew struct { LastWrite, ReadAfter, ReadBefore time.Time }] *)
Record Skew : Type := mkSkew {
  LastWrite : Time;
  ReadAfter : Time;
  ReadBefore : Time
}.

(** [func (skew Skew) isZero() bool] *)
Definition isZero (skew : Skew) : bool :=
  IsZero (LastWrite skew) && IsZero (ReadAfter skew) && IsZero (ReadBefore skew).

(** [func (skew Skew) Earliest(remote time.Time) (local time.Time)] *)
Definition Earliest (skew : Skew) (remote : Time) : Time :=
  if isZero skew then remote
  else
    let delta := Sub remote (LastWrite skew) in
    Add (ReadAfter skew) delta.

(** [func (skew Skew) Latest(remote time.Time) (local time.Time)] *)
Definition Latest (skew : Skew) (remote : Time) : Time :=
  if isZero skew then remote
  else
    let delta := Sub remote (LastWrite skew) in
    Add (ReadBefore skew) delta.

(** ** Specification vocabulary *)

(** A [Time] as the package builds it. *)
Definition wfTime (t : Time) : Prop :=
  int64 (sec t) /\ 0 <= nsec t < 1000000000.

Definition wfSkew (skew : Skew) : Prop :=
  wfTime (LastWrite skew) /\ wfTime (ReadAfter skew) /\ wfTime (ReadBefore skew).

(** The instant denoted by a [Time]: nanoseconds since January 1, year 1,
    as an unbounded integer. *)
Definition nanos (t : Time) : Z := sec t * 1000000000 + nsec t.

(** An instant that a [Time] can hold. *)
Definition representable (n : Z) : Prop :=
  - 2 ^ 63 * 1000000000 <= n < 2 ^ 63 * 1000000000.

(** The difference [remote - LastWrite] fits a [Duration], and moving the two
    local reads by it stays within the range of [Time]. *)
Definition fits (skew : Skew) (remote : Time) : Prop :=
  minDuration <= nanos remote - nanos (LastWrite skew) <= maxDuration /\
  representable (nanos (ReadAfter skew) + (nanos remote - nanos (LastWrite skew))) /\
  representable (nanos (ReadBefore skew) + (nanos remote - nanos (LastWrite skew))).

(** The skew record of the spec's worked example, around an instant [T0]. *)
Definition exampleSkew (T0 : Time) : Skew :=
  {| LastWrite := T0;
     ReadAfter := Add T0 (- Second);
     ReadBefore := Add T0 Second |}.

(** The all-zero record: a writer assumed unskewed. *)
Definition zeroSkew : Skew :=
  {| LastWrite := zeroTime; ReadAfter := zeroTime; ReadBefore := zeroTime |}.

(** Sample instants: midnight UTC on 2015-01-01 (62135596800 seconds separate
    year 1 from the Unix epoch), and two instants about 300 years later, one
    second apart; 300 years exceed the 2^63 - 1 nanoseconds (about 292 years)
    of a [Duration]. *)
Definition t2015 : Time := {| sec := 63555667200; nsec := 0; loc := None |}.
Definition t2315 : Time := {| sec := 73022752800; nsec := 0; loc := None |}.
Definition t2315' : Time := {| sec := 73022752801; nsec := 0; loc := None |}.

(** A difference brought back into the range of a [Duration]. *)
Definition clamp (d : Z) : Z := Z.max minDuration (Z.min maxDuration d).

(** An instant whose seconds stay clear of the limits of [int64] (within
    about 146 thousand million years of year 1). *)
Definition inEra (t : Time) : Prop := - 2 ^ 62 <= sec t <= 2 ^ 62.

Definition skewInEra (skew : Skew) : Prop :=
  inEra (LastWrite skew) /\ inEra (ReadAfter skew) /\ inEra (ReadBefore skew).

(** A record sampled around 2015-01-01 with a second and a half of latency,
    and an instant with a location. *)
Definition skew2015 : Skew :=
  {| LastWrite := {| sec := 63555667200; nsec := 250000000; loc := None |};
     ReadAfter := {| sec := 63555667199; nsec := 500000000; loc := None |};
     ReadBefore := {| sec := 63555667201; nsec := 0; loc := None |} |}.

Definition t2016 : Time :=
  {| sec := 63587203200; nsec := 7; loc := Some "Europe/Paris"%string |}.

End Lease.

(* ===================================================================== *)
(** * Package state: spaces                                              *)
(* ===================================================================== *)

Module Spaces.

Local Open Scope string_scope.

(** ** Errors (github.com/juju/errors, mgo and mgo/txn)

    An error value keeps the constructor that built it. [Annotatef] and
    [Trace] wrap an error and keep its cause. *)
Inductive error : Type :=
  | New (msg : string)                            (* errors.New *)
  | Errorf (format : string) (args : list string) (* errors.Errorf *)
  | NewNotValid (msg : string)                    (* errors.NewNotValid(nil, msg) *)
  | AlreadyExistsf (format : string) (args : list string)
  | NotFoundf (format : string) (args : list string)
  | ErrAborted                                    (* txn.ErrAborted *)
  | ErrNotFound                                   (* mgo.ErrNotFound *)
  | ErrStore (msg : string)                       (* any other error of the driver *)
  | Annotatef (other : error) (format : string) (args : list string)
  | Trace (other : error).

(** [errors.Cause] *)
Fixpoint Cause (err : error) : error :=
  match err with
  | Annotatef other _ _ => Cause other
  | Trace other => Cause other
  | _ => err
  end.

(** [errors.IsNotFound], [errors.IsAlreadyExists], [errors.IsNotValid] *)
Definition IsNotFound (err : error) : bool :=
  match Cause err with NotFoundf _ _ => true | _ => false end.

Definition IsAlreadyExists (err : error) : bool :=
  match Cause err with AlreadyExistsf _ _ => true | _ => false end.

Definition IsNotValid (err : error) : bool :=
  match Cause err with NewNotValid _ => true | _ => false end.

(** The verbs [%q], [%v] and [%s] of [fmt.Sprintf] on string arguments.
    [%q] is [strconv.Quote]: the text between double quotes, with the
    double quote and the backslash preceded by a backslash, the control
    characters 7 to 13 written [\a \b \t \n \v \f \r], the other bytes
    below 32 and DEL written [\x] and two lower-case hexadecimal digits,
    and every other byte kept. Strings are taken byte by byte: this is
    [strconv.Quote] on ASCII text and on the UTF-8 encoding of printable
    characters; the escapes Go writes for unprintable characters beyond
    ASCII and for invalid UTF-8 are not modelled. *)
Definition lowerhex (n : nat) : ascii :=
  match String.get n "0123456789abcdef" with
  | Some c => c
  | None => "0"%char
  end.

Definition appendEscapedRune (c : ascii) : string :=
  let r := Ascii.nat_of_ascii c in
  let backslash := Ascii.ascii_of_nat 92 in
  if Nat.eqb r 34 || Nat.eqb r 92 then String backslash (String c EmptyString)
  else if Nat.eqb r 7 then String backslash "a"
  else if Nat.eqb r 8 then String backslash "b"
  else if Nat.eqb r 12 then String backslash "f"
  else if Nat.eqb r 10 then String backslash "n"
  else if Nat.eqb r 13 then String backslash "r"
  else if Nat.eqb r 9 then String backslash "t"
  else if Nat.eqb r 11 then String backslash "v"
  else if Nat.ltb r 32 || Nat.eqb r 127
       then String backslash
              (String "x" (String (lowerhex (Nat.div r 16))
                             (String (lowerhex (Nat.modulo r 16)) EmptyString)))
  else String c EmptyString.

Fixpoint quoteWith (s : string) : string :=
  match s with
  | EmptyString => EmptyString
  | String c rest => appendEscapedRune c ++ quoteWith rest
  end.

Definition quote (s : string) : string :=
  String (Ascii.ascii_of_nat 34)
    (quoteWith s ++ String (Ascii.ascii_of_nat 34) EmptyString).

Fixpoint Sprintf (format : string) (args : list string) : string :=
  match format with
  | EmptyString => EmptyString
  | String "%" (String verb rest) =>
      match args with
      | a :: args' =>
          (if Ascii.eqb verb "q" then quote a else a) ++ Sprintf rest args'
      | [] => "%!" ++ String verb ("(MISSING)" ++ Sprintf rest [])
      end
  | String c rest => String c (Sprintf rest args)
  end.

(** [func (e error) Error() string] *)
Fixpoint Error (err : error) : string :=
  match err with
  | New msg => msg
  | Errorf format args => Sprintf format args
  | NewNotValid msg => msg
  | AlreadyExistsf format args => Sprintf format args ++ " already exists"
  | NotFoundf format args => Sprintf format args ++ " not found"
  | ErrAborted => "transaction aborted"
  | ErrNotFound => "not found"
  | ErrStore msg => msg
  | Annotatef other format args => Sprintf format args ++ ": " ++ Error other
  | Trace other => Error other
  end.

(** A Go result pair [(value, err)]: either the value or a non-nil error. *)
Inductive result (A : Type) : Type :=
  | Ok (a : A)
  | Err (err : error).
Arguments Ok {A} a.
Arguments Err {A} err.

(** [defer errors.DeferredAnnotatef(&err, format, args...)]: a non-nil error
    leaves the function annotated; a nil error is left alone. *)
Definition DeferredAnnotatef (err : option error) (format : string)
    (args : list string) : option error :=
  match err with
  | Some e => Some (Annotatef e format args)
  | None => None
  end.

Definition DeferredAnnotatefR {A : Type} (r : result A) (format : string)
    (args : list string) : result A :=
  match r with
  | Ok a => Ok a
  | Err e => Err (Annotatef e format args)
  end.

(** ** Documents *)

(** Modelled from the spec: the declaration of [Life] ([type Life int8] with
    its three constants) is not part of these sources; the spec gives
    life ∈ {Alive, Dying, Dead}, Alive being the initial and zero value. *)
Inductive Life : Type := Alive | Dying | Dead.

#[global] Instance Life_eq_dec : EqDecision Life.
Proof. solve_decision. Defined.

(** BSON values of the fields these documents use. *)
Inductive bval : Type :=
  | BString (s : string)
  | BBool (b : bool)
  | BLife (l : Life).

#[global] Instance bval_eq_dec : EqDecision bval.
Proof. solve_decision. Defined.

(** [bson.D]: an ordered list of named fields; also the stored form of a
    document. *)
Definition bsonD : Type := list (string * bval).

Fixpoint getField (d : bsonD) (name : string) : option bval :=
  match d with
  | [] => None
  | (n, v) :: rest => if String.eqb n name then Some v else getField rest name
  end.

Fixpoint setField (d : bsonD) (name : string) (v : bval) : bsonD :=
  match d with
  | [] => [(name, v)]
  | (n, w) :: rest =>
      if String.eqb n name then (n, v) :: rest else (n, w) :: setField rest name v
  end.

(** A selector such as [bson.D{{"life", Alive}}] matches a document when every
    listed field is present with the listed value. *)
Definition matches (query : bsonD) (d : bsonD) : bool :=
  forallb (fun '(n, v) => bool_decide (getField d n = Some v)) query.

(** The effect of [{"$set": fields}] on a document. *)
Definition applySet (fields : bsonD) (d : bsonD) : bsonD :=
  foldl (fun acc '(n, v) => setField acc n v) d fields.

(** [type spaceDoc struct] (the field [Life] is [DocLife] here, as the type
    already has that name). *)
Record spaceDoc : Type := mkSpaceDoc {
  DocID : string;       (* bson:"_id" *)
  ModelUUID : string;   (* bson:"model-uuid" *)
  DocLife : Life;       (* bson:"life" *)
  Name : string;        (* bson:"name" *)
  IsPublic : bool;      (* bson:"is-public" *)
  ProviderId : string   (* bson:"providerid,omitempty" *)
}.

(** Marshalling of a [spaceDoc] following its [bson] tags. *)
Definition marshalSpace (doc : spaceDoc) : bsonD :=
  ([ ("_id", BString (DocID doc));
     ("model-uuid", BString (ModelUUID doc));
     ("life", BLife (DocLife doc));
     ("name", BString (Name doc));
     ("is-public", BBool (IsPublic doc)) ]
   ++ (if String.eqb (ProviderId doc) EmptyString then []
       else [ ("providerid", BString (ProviderId doc)) ]))%list.

Definition stringField (d : bsonD) (name : string) : string :=
  match getField d name with Some (BString s) => s | _ => EmptyString end.

Definition boolField (d : bsonD) (name : string) : bool :=
  match getField d name with Some (BBool b) => b | _ => false end.

Definition lifeField (d : bsonD) (name : string) : Life :=
  match getField d name with Some (BLife l) => l | _ => Alive end.

(** Unmarshalling into a zero [spaceDoc]: absent fields keep the zero value. *)
Definition unmarshalSpace (d : bsonD) : spaceDoc :=
  {| DocID := stringField d "_id";
     ModelUUID := stringField d "model-uuid";
     DocLife := lifeField d "life";
     Name := stringField d "name";
     IsPublic := boolField d "is-public";
     ProviderId := stringField d "providerid" |}.

(** ** The document store and mgo/txn *)

(** Modelled from the spec: the collection-name constants [spacesC],
    [subnetsC] and [providerIDsC] are declared outside these sources; they
    name three distinct collections. *)
Definition spacesC : string := "spaces".

(** Modelled from the spec: see [spacesC]. *)
Definition subnetsC : string := "subnets".

(** Modelled from the spec: see [spacesC]. *)
Definition providerIDsC : string := "providerids".

(** The store: documents by collection and id. *)
Abbreviation DB := (gmap (string * string) bsonD).

(** An update document: [{"$set": fields}]. *)
Inductive update : Type :=
  | DollarSet (fields : bsonD).

Module txn.

(** The [Assert] field of an operation: absent, [txn.DocExists],
    [txn.DocMissing], or a selector. *)
Inductive assertion : Type :=
  | NoAssert
  | DocExists
  | DocMissing
  | Selector (query : bsonD).

(** [txn.Op] *)
Record Op : Type := mkOp {
  C : string;
  Id : string;
  Assert : assertion;
  Insert : option bsonD;
  Update : option update;
  Remove : bool
}.

End txn.

(** Whether the assertion of an operation holds in a store. *)
Definition holds (db : DB) (op : txn.Op) : bool :=
  match txn.Assert op, db !! (txn.C op, txn.Id op) with
  | txn.NoAssert, _ => true
  | txn.DocExists, Some _ => true
  | txn.DocExists, None => false
  | txn.DocMissing, Some _ => false
  | txn.DocMissing, None => true
  | txn.Selector query, Some d => matches query d
  | txn.Selector _, None => false
  end.

(** The change of one operation. As in mgo/txn, an insert of a present
    document, and an update or removal of an absent one, change nothing. *)
Definition applyChange (db : DB) (op : txn.Op) : DB :=
  match txn.Insert op, txn.Update op, txn.Remove op with
  | Some d, _, _ =>
      match db !! (txn.C op, txn.Id op) with
      | Some _ => db
      | None => <[(txn.C op, txn.Id op) := setField d "_id" (BString (txn.Id op))]> db
      end
  | None, Some (DollarSet fields), _ =>
      match db !! (txn.C op, txn.Id op) with
      | Some d => <[(txn.C op, txn.Id op) := applySet fields d]> db
      | None => db
      end
  | None, None, true => delete (txn.C op, txn.Id op) db
  | None, None, false => db
  end.

(** Modelled from the spec: the store's conditional multi-operation apply
    (section 4.1: all mutations of a successful apply become visible together;
    on abort, none apply). Every assertion is evaluated on the store as the
    transaction finds it; [None] is an abort. *)
Definition applyOps (db : DB) (ops : list txn.Op) : option DB :=
  if forallb (holds db) ops then Some (foldl applyChange db ops) else None.

(** ** Programs over the store

    Each call on the store is one step. Between two steps of a caller, other
    actors may change the store, and a call may fail in the driver. *)
Inductive Prog (A : Type) : Type :=
  | Ret (a : A)
  | RunTransaction (ops : list txn.Op) (k : option error -> Prog A)
  | FindId (c : string) (id : string) (k : result bsonD -> Prog A).
Arguments Ret {A} a.
Arguments RunTransaction {A} ops k.
Arguments FindId {A} c id k.

Fixpoint bind {A B : Type} (p : Prog A) (f : A -> Prog B) : Prog B :=
  match p with
  | Ret a => f a
  | RunTransaction ops k => RunTransaction ops (fun r => bind (k r) f)
  | FindId c id k => FindId c id (fun r => bind (k r) f)
  end.

Notation "x <- p ;; q" := (bind p (fun x => q))
  (at level 100, p at next level, right associativity).

(** What surrounds one call on the store: the changes other actors made since
    the caller's previous step, and whether the driver fails the call. *)
Record Tick : Type := mkTick {
  others : DB -> DB;
  fault : option string
}.

Definition quiet : Tick := {| others := fun db => db; fault := None |}.

(** The ticks of the calls to come; past its end every tick is [quiet]. *)
Definition World : Type := list Tick.

Definition next (w : World) : Tick * World :=
  match w with
  | [] => (quiet, [])
  | t :: w' => (t, w')
  end.

(** One call as the caller saw it. *)
Inductive Event : Type :=
  | TxnEvent (ops : list txn.Op) (res : option error)
  | FindEvent (c : string) (id : string) (res : result bsonD).

(** A transaction under a tick: a failed call returns the driver's error and
    an aborted one [txn.ErrAborted]; both leave the store as found. *)
Definition txnStep (t : Tick) (db : DB) (ops : list txn.Op) : option error * DB :=
  let db1 := others t db in
  match fault t with
  | Some msg => (Some (ErrStore msg), db1)
  | None =>
      match applyOps db1 ops with
      | Some db2 => (None, db2)
      | None => (Some ErrAborted, db1)
      end
  end.

(** A lookup by id under a tick. *)
Definition findStep (t : Tick) (db : DB) (c id : string) : result bsonD * DB :=
  let db1 := others t db in
  match fault t with
  | Some msg => (Err (ErrStore msg), db1)
  | None =>
      match db1 !! (c, id) with
      | Some d => (Ok d, db1)
      | None => (Err ErrNotFound, db1)
      end
  end.

(** The outcome of a run: the returned value, the final store, the ticks left
    and the calls made, in order. *)
Record Outcome (A : Type) : Type := mkOutcome {
  value : A;
  store : DB;
  rest : World;
  log : list Event
}.
Arguments mkOutcome {A} value store rest log.
Arguments value {A} o.
Arguments store {A} o.
Arguments rest {A} o.
Arguments log {A} o.

Definition logged {A : Type} (e : Event) (o : Outcome A) : Outcome A :=
  {| value := value o; store := store o; rest := rest o; log := e :: log o |}.

Fixpoint run {A : Type} (p : Prog A) (w : World) (db : DB) : Outcome A :=
  match p with
  | Ret a => {| value := a; store := db; rest := w; log := [] |}
  | RunTransaction ops k =>
      let res := txnStep (next w).1 db ops in
      logged (TxnEvent ops res.1) (run (k res.1) (next w).2 res.2)
  | FindId c id k =>
      let res := findStep (next w).1 db c id in
      logged (FindEvent c id res.1) (run (k res.1) (next w).2 res.2)
  end.

(** ** State *)

(** Modelled from the spec: the declaration of [State] is not part of these
    sources; a [*State] is the handle of one model on the store. *)
Record State : Type := mkState {
  State_ModelUUID : string
}.

(** Modelled from the spec: [ensureModelUUID] and [State.docID] are not
    part of these sources. The id of a document is derived from the local
    name and is unique per model: the model UUID is prefixed unless already
    there. *)
Definition ensureModelUUID (modelUUID id : string) : string :=
  let prefix := modelUUID ++ ":" in
  if String.prefix prefix id then id else prefix ++ id.

(** Modelled from the spec: [State.docID], see [ensureModelUUID]. *)
Definition State_docID (st : State) (localID : string) : string :=
  ensureModelUUID (State_ModelUUID st) localID.

(** Modelled from the spec: the transaction runner of a model is not part of
    these sources; like the collection handles it resolves the id of an
    operation within the model. *)
Definition resolveOp (st : State) (op : txn.Op) : txn.Op :=
  {| txn.C := txn.C op; txn.Id := State_docID st (txn.Id op);
     txn.Assert := txn.Assert op; txn.Insert := txn.Insert op;
     txn.Update := txn.Update op; txn.Remove := txn.Remove op |}.

(** Modelled from the spec: [State.runTransaction] is not part of these
    sources; it applies the operations through the store's conditional apply
    and returns nil, [txn.ErrAborted] or the driver's error, without retry
    (section 4.1). *)
Definition State_runTransaction (st : State) (ops : list txn.Op) : Prog (option error) :=
  RunTransaction (map (resolveOp st) ops) Ret.

(** Modelled from the spec: the collection handle that
    [State.getCollection] returns is not part of these sources; its
    [FindId(id).One(&doc)] resolves a local id within the model. *)
Definition Collection_FindId (st : State) (c : string) (id : string) : Prog (result bsonD) :=
  FindId c (State_docID st id) Ret.

(** Modelled from the spec: [networkEntityGlobalKey],
    [networkEntityGlobalKeyOp] and [networkEntityGlobalKeyRemoveOp] are not
    part of these sources. They maintain the denormalized index of provider
    ids (section 4.2): an entry per kind and provider id, inserted only if
    absent, removed with its owner. *)
Definition State_networkEntityGlobalKey (st : State) (globalKey providerId : string) : string :=
  State_docID st (globalKey ++ ":" ++ providerId).

(** Modelled from the spec: the insertion of an index entry, asserted
    missing; see [State_networkEntityGlobalKey]. *)
Definition State_networkEntityGlobalKeyOp (st : State) (globalKey providerId : string) : txn.Op :=
  let key := State_networkEntityGlobalKey st globalKey providerId in
  {| txn.C := providerIDsC; txn.Id := key; txn.Assert := txn.DocMissing;
     txn.Insert := Some [("_id", BString key)];
     txn.Update := None; txn.Remove := false |}.

(** Modelled from the spec: the removal of an index entry; see
    [State_networkEntityGlobalKey]. *)
Definition State_networkEntityGlobalKeyRemoveOp (st : State) (globalKey providerId : string) : txn.Op :=
  let key := State_networkEntityGlobalKey st globalKey providerId in
  {| txn.C := providerIDsC; txn.Id := key; txn.Assert := txn.NoAssert;
     txn.Insert := None; txn.Update := None; txn.Remove := true |}.

(** Modelled from the spec: the selectors [isAliveDoc] and [isDeadDoc] are
    not part of these sources; each asserts the expected life of the stored
    document (section 4.2). *)
Definition isAliveDoc : bsonD := [("life", BLife Alive)].

(** Modelled from the spec: see [isAliveDoc]. *)
Definition isDeadDoc : bsonD := [("life", BLife Dead)].

(** Modelled from the spec: the sentinel [errNotAlive] is not part of these
    sources; it is the NotAlive error of section 7. *)
Definition errNotAlive : error := New "not found or not alive".

(** Modelled from the spec: the helper [onAbort] is not part of these
    sources; it replaces an aborted transaction by the caller's error and
    passes any other error on (sections 4.2 and 7). *)
Definition onAbort (txnErr err : error) : error :=
  match Cause txnErr with
  | ErrAborted => Trace err
  | _ => Trace txnErr
  end.

(** ** spaces.go *)

(** [type Space struct { st *State; doc spaceDoc }] *)
Record Space : Type := mkSpace {
  st : State;
  doc : spaceDoc
}.

(** [func (s *Space) Life() Life] *)
Definition Space_Life (s : Space) : Life := DocLife (doc s).

(** [func (s *Space) ID() string] *)
Definition Space_ID (s : Space) : string := DocID (doc s).

(** [func (s *Space) String() string] *)
Definition Space_String (s : Space) : string := Name (doc s).

(** [func (s *Space) Name() string] *)
Definition Space_Name (s : Space) : string := Name (doc s).

(** [func (s *Space) ProviderId() network.Id] *)
Definition Space_ProviderId (s : Space) : string := ProviderId (doc s).

(** [func (st *State) Space(name string) ( *Space, error)] *)
Definition State_Space (st : State) (name : string) : Prog (result Space) :=
  r <- Collection_FindId st spacesC name ;;
  match r with
  | Err ErrNotFound => Ret (Err (NotFoundf "space %q" [name]))
  | Err err => Ret (Err (Annotatef err "cannot get space %q" [name]))
  | Ok d => Ret (Ok {| st := st; doc := unmarshalSpace d |})
  end.

(** Modelled from the spec: the declaration of [Subnet] is not part of these
    sources (line 69 builds one from a state and a document); the stored
    document is left unparsed. *)
Record Subnet : Type := mkSubnet {
  subnet_st : State;
  subnet_doc : bsonD
}.

(** Modelled from the spec: [State.Subnet] is not part of these sources;
    it re-checks a referenced child like [Space] re-fetches a space
    (section 4.1, step 2). *)
Definition State_Subnet (st : State) (cidr : string) : Prog (result Subnet) :=
  r <- Collection_FindId st subnetsC cidr ;;
  match r with
  | Err ErrNotFound => Ret (Err (NotFoundf "subnet %q" [cidr]))
  | Err err => Ret (Err (Annotatef err "cannot get subnet %q" [cidr]))
  | Ok d => Ret (Ok {| subnet_st := st; subnet_doc := d |})
  end.

(** [func (s *Space) Refresh() error]: returns the space as it is after the
    call together with the error. *)
Definition Refresh (s : Space) : Prog (Space * option error) :=
  r <- Collection_FindId (st s) spacesC (DocID (doc s)) ;;
  match r with
  | Err ErrNotFound =>
      Ret (s, Some (NotFoundf "space %q" [Space_String s]))
  | Err err =>
      Ret (s, Some (Errorf "cannot refresh space %q: %v" [Space_String s; Error err]))
  | Ok d => Ret ({| st := st s; doc := unmarshalSpace d |}, None)
  end.

(** A check of space names in the shape of [names.IsValidSpace]: lower-case
    letters and digits, in non-empty groups separated by single dashes. It
    instantiates the parameter of [AddSpace] in the examples. *)
Definition isLowerOrDigit (c : ascii) : bool :=
  let n := nat_of_ascii c in
  ((97 <=? n) && (n <=? 122) || (48 <=? n) && (n <=? 57))%nat.

Fixpoint validGroups (inGroup : bool) (s : string) : bool :=
  match s with
  | EmptyString => inGroup
  | String c rest =>
      if isLowerOrDigit c then validGroups true rest
      else if Ascii.eqb c "-" then inGroup && validGroups false rest
      else false
  end.

Definition validSpaceName (name : string) : bool := validGroups false name.

(** The document that [AddSpace] builds for the new space, and the handle
    around it ([spaceDoc] and [newSpace] in the source). *)
Definition newSpaceDoc (st : State) (name : string) (providerId : string)
    (isPublic : bool) : spaceDoc :=
  {| DocID := State_docID st name;
     ModelUUID := State_ModelUUID st;
     DocLife := Alive;
     Name := name;
     IsPublic := isPublic;
     ProviderId := providerId |}.

Definition newSpaceOf (st : State) (name : string) (providerId : string)
    (isPublic : bool) : Space :=
  {| doc := newSpaceDoc st name providerId isPublic; st := st |}.

(** The operation that stamps one listed subnet with the space name. *)
Definition stampSubnetOp (st : State) (name : string) (subnetId : string) : txn.Op :=
  {| txn.C := subnetsC;
     txn.Id := State_docID st subnetId;
     txn.Assert := txn.DocExists;
     txn.Update := Some (DollarSet [("space-name", BString name)]);
     txn.Insert := None; txn.Remove := false |}.

(** The operations that [AddSpace] hands to [runTransaction]. *)
Definition addSpaceOps (st : State) (name : string) (providerId : string)
    (subnets : list string) (isPublic : bool) : list txn.Op :=
  let spaceID := State_docID st name in
  let spaceDoc := newSpaceDoc st name providerId isPublic in
  let ops :=
    [ {| txn.C := spacesC;
         txn.Id := spaceID;
         txn.Assert := txn.DocMissing;
         txn.Insert := Some (marshalSpace spaceDoc);
         txn.Update := None; txn.Remove := false |} ] in
  let ops :=
    if negb (String.eqb providerId EmptyString)
    then (ops ++ [ State_networkEntityGlobalKeyOp st "space" providerId ])%list
    else ops in
  (ops ++ map (stampSubnetOp st name) subnets)%list.

(** The loop over [subnets] on the abort path: the first subnet whose lookup
    satisfies [errors.IsNotFound] ends [AddSpace] with that error. *)
Fixpoint missingSubnet (st : State) (subnets : list string) : Prog (option error) :=
  match subnets with
  | [] => Ret None
  | subnetId :: rest =>
      r <- State_Subnet st subnetId ;;
      match r with
      | Err err => if IsNotFound err then Ret (Some err) else missingSubnet st rest
      | Ok _ => missingSubnet st rest
      end
  end.

(** The end of the abort path: [newSpace.Refresh()] and what follows it. The
    error traced on the last line is the transaction's, [txn.ErrAborted]. *)
Definition refreshNew (providerId : string) (newSpace : Space) : Prog (result Space) :=
  r <- Refresh newSpace ;;
  match r.2 with
  | Some err =>
      if IsNotFound err
      then Ret (Err (Errorf "ProviderId %q not unique" [providerId]))
      else Ret (Err (Trace err))
  | None => Ret (Err (Trace ErrAborted))
  end.

(** The branch of [AddSpace] taken when [runTransaction] returns
    [txn.ErrAborted]. *)
Definition classifyAbort (st : State) (name : string) (providerId : string)
    (subnets : list string) (newSpace : Space) : Prog (result Space) :=
  r <- State_Space st name ;;
  match r with
  | Ok _ => Ret (Err (AlreadyExistsf "space %q" [name]))
  | Err _ =>
      missing <- missingSubnet st subnets ;;
      match missing with
      | Some err => Ret (Err err)
      | None => refreshNew providerId newSpace
      end
  end.

Section AddSpace.

(** [names.IsValidSpace], of package github.com/juju/names. *)
Variable IsValidSpace : string -> bool.

(** [func (st *State) AddSpace(name string, providerId network.Id,
    subnets []string, isPublic bool) (newSpace *Space, err error)] *)
Definition AddSpace (st : State) (name : string) (providerId : string)
    (subnets : list string) (isPublic : bool) : Prog (result Space) :=
  r <- (if negb (IsValidSpace name) then
         Ret (Err (NewNotValid "invalid space name"))
       else
         let newSpace := newSpaceOf st name providerId isPublic in
         let ops := addSpaceOps st name providerId subnets isPublic in
         err <- State_runTransaction st ops ;;
         match err with
         | Some ErrAborted => classifyAbort st name providerId subnets newSpace
         | Some err => Ret (Err err)
         | None => Ret (Ok newSpace)
         end) ;;
  Ret (DeferredAnnotatefR r "adding space %q" [name]).

End AddSpace.

(** The assignment [s.doc.Life = life]. *)
Definition setLife (s : Space) (life : Life) : Space :=
  {| st := st s;
     doc := {| DocID := DocID (doc s);
               ModelUUID := ModelUUID (doc s);
               DocLife := life;
               Name := Name (doc s);
               IsPublic := IsPublic (doc s);
               ProviderId := ProviderId (doc s) |} |}.

(** The operation of [EnsureDead]: assert Alive, write Dead. *)
Definition ensureDeadOp (s : Space) : txn.Op :=
  {| txn.C := spacesC;
     txn.Id := DocID (doc s);
     txn.Update := Some (DollarSet [("life", BLife Dead)]);
     txn.Assert := txn.Selector isAliveDoc;
     txn.Insert := None; txn.Remove := false |}.

(** [func (s *Space) EnsureDead() (err error)]: returns the space as it is
    after the call together with the error. *)
Definition EnsureDead (s : Space) : Prog (Space * option error) :=
  r <- (if bool_decide (DocLife (doc s) = Dead) then
         Ret (s, None)
       else
         let ops := [ ensureDeadOp s ] in
         txnErr <- State_runTransaction (st s) ops ;;
         match txnErr with
         | None => Ret (setLife s Dead, None)
         | Some txnErr => Ret (s, Some (onAbort txnErr errNotAlive))
         end) ;;
  Ret (r.1, DeferredAnnotatef r.2 "cannot set space %q to dead" [Space_String s]).

(** The first operation of [Remove]: assert Dead, remove. *)
Definition removeOp (s : Space) : txn.Op :=
  {| txn.C := spacesC;
     txn.Id := DocID (doc s);
     txn.Remove := true;
     txn.Assert := txn.Selector isDeadDoc;
     txn.Insert := None; txn.Update := None |}.

(** The operations that [Remove] hands to [runTransaction]. *)
Definition removeOps (s : Space) : list txn.Op :=
  let ops := [ removeOp s ] in
  if negb (String.eqb (Space_ProviderId s) EmptyString)
  then (ops ++ [ State_networkEntityGlobalKeyRemoveOp (st s) "space"
                   (Space_ProviderId s) ])%list
  else ops.

(** [func (s *Space) Remove() (err error)] *)
Definition Remove (s : Space) : Prog (option error) :=
  r <- (if negb (bool_decide (DocLife (doc s) = Dead)) then
         Ret (Some (New "space is not dead"))
       else
         let ops := removeOps s in
         txnErr <- State_runTransaction (st s) ops ;;
         match txnErr with
         | None => Ret None
         | Some txnErr => Ret (Some (onAbort txnErr (New "not found or not dead")))
         end) ;;
  Ret (DeferredAnnotatef r "cannot remove space %q" [Space_String s]).

(** ** Specification vocabulary *)

(** The life-transition errors of this file (NotAlive and the two not-dead
    errors of [Remove]). *)
Definition isLifeError (err : error) : bool :=
  match Cause err with
  | New msg =>
      String.eqb msg "not found or not alive"
      || String.eqb msg "space is not dead"
      || String.eqb msg "not found or not dead"
  | _ => false
  end.

(** The outcome of one program followed by another. *)
Definition andThen {A B : Type} (o : Outcome A) (o' : Outcome B) : Outcome B :=
  {| value := value o'; store := store o'; rest := rest o';
     log := (log o ++ log o')%list |}.

(** A program that only reads the store. *)
Fixpoint readOnly {A : Type} (p : Prog A) : Prop :=
  match p with
  | Ret _ => True
  | RunTransaction _ _ => False
  | FindId _ _ k => forall r, readOnly (k r)
  end.

Definition isFind (e : Event) : Prop :=
  match e with
  | FindEvent _ _ _ => True
  | TxnEvent _ _ => False
  end.

(** A world in which no other actor touches the store (calls may still
    fail in the driver). *)
Definition isolated (w : World) : Prop :=
  Forall (fun t => forall db, others t db = db) w.

(** The life of the space document stored under an id, as [Refresh] would
    report it. *)
Definition lifeAt (db : DB) (id : string) : option Life :=
  match db !! (spacesC, id) with
  | Some d => Some (DocLife (unmarshalSpace d))
  | None => None
  end.

(** The order of the life cycle: Alive, then Dying, then Dead. *)
Definition lifeRank (l : Life) : nat :=
  match l with
  | Alive => 0
  | Dying => 1
  | Dead => 2
  end.

(** One operation of this file, run to completion by one actor: the store
    before and after it. *)
Inductive step (IsValidSpace : string -> bool) (db : DB) : DB -> Prop :=
  | step_AddSpace (st : State) (name providerId : string) (subnets : list string)
      (isPublic : bool) (w : World) :
      isolated w ->
      step IsValidSpace db
        (store (run (AddSpace IsValidSpace st name providerId subnets isPublic) w db))
  | step_EnsureDead (s : Space) (w : World) :
      isolated w ->
      step IsValidSpace db (store (run (EnsureDead s) w db))
  | step_Remove (s : Space) (w : World) :
      isolated w ->
      step IsValidSpace db (store (run (Remove s) w db)).

(** A step after which the document under [id] is (still) stored. *)
Definition stepKeeping (IsValidSpace : string -> bool) (id : string)
    (db db' : DB) : Prop :=
  step IsValidSpace db db' /\ is_Some (db' !! (spacesC, id)).

(** Where the store keeps the document of a space, and the index entry of
    its provider id. *)
Definition spaceKey (s : Space) : string * string :=
  (spacesC, State_docID (st s) (DocID (doc s))).

Definition providerKey (s : Space) : string * string :=
  (providerIDsC, State_networkEntityGlobalKey (st s) "space" (Space_ProviderId s)).

(** What a successful [Remove] leaves of a store. *)
Definition removed (s : Space) (db : DB) : DB :=
  if negb (String.eqb (Space_ProviderId s) EmptyString)
  then delete (providerKey s) (delete (spaceKey s) db)
  else delete (spaceKey s) db.

(** The store holding one subnet and no space. *)
Definition dbSubnet : DB :=
  {[ (subnetsC, "m:10.0.0.0/24") :=
       [("_id", BString "m:10.0.0.0/24"); ("life", BLife Alive)] ]}.

(** A sample model, the store in which another space already registered
    provider id [p], and the store holding space [a] only. *)
Definition modelM : State := {| State_ModelUUID := "m" |}.

Definition dbProviderTaken : DB :=
  {[ (providerIDsC, "m:space:p") := [("_id", BString "m:space:p")] ]}.

Definition dbSpaceA : DB :=
  {[ (spacesC, "m:a") := marshalSpace (newSpaceDoc modelM "a" EmptyString false) ]}.

(** The handle of space [a] with provider id [p], once Dead, and the store
    holding that Dead space and its index entry. *)
Definition deadSpaceA : Space := setLife (newSpaceOf modelM "a" "p" false) Dead.

Definition dbDeadA : DB :=
  {[ (spacesC, "m:a") := marshalSpace (doc deadSpaceA);
     (providerIDsC, "m:space:p") := [("_id", BString "m:space:p")] ]}.

(** Another actor creating space [b] between two calls. *)
Definition createsB : Tick :=
  {| others := fun db =>
       <[ (spacesC, "m:b") := marshalSpace (newSpaceDoc modelM "b" EmptyString false) ]> db;
     fault := None |}.

(** ** Queries: [Subnets] and [AllSpaces] *)

(** Modelled from the spec: [Find(query)] on the collection handle that
    [State.getCollection] returns is not part of these sources (section 6,
    FindMany). It selects the documents of the collection whose id lies
    within the model and which the query matches; a nil query matches every
    document. *)
Definition selects (st : State) (c : string) (query : bsonD)
    (entry : string * string * bsonD) : bool :=
  String.eqb entry.1.1 c
  && String.eqb (State_docID st entry.1.2) entry.1.2
  && matches query entry.2.

(** Modelled from the spec: one query under a tick, read to its end
    ([Iter] with [Next] and [Err], or [All]): the selected documents, or the
    driver's error. *)
Definition findAllStep (t : Tick) (db : DB) (st : State) (c : string)
    (query : bsonD) : result (list bsonD) * DB :=
  let db1 := others t db in
  match fault t with
  | Some msg => (Err (ErrStore msg), db1)
  | None =>
      (Ok (map snd (List.filter (selects st c query) (map_to_list db1))), db1)
  end.

(** [func (s *Space) Subnets() (results []*Subnet, err error)], under the
    tick of its one call: the result and the store after the call. *)
Definition Subnets (s : Space) (t : Tick) (db : DB) : result (list Subnet) * DB :=
  let name := Space_Name s in
  let res := findAllStep t db (st s) subnetsC [("space-name", BString name)] in
  (DeferredAnnotatefR
     match res.1 with
     | Ok docs =>
         Ok (map (fun doc => {| subnet_st := st s; subnet_doc := doc |}) docs)
     | Err err => Err err
     end
     "cannot fetch subnets" [],
   res.2).

(** [func (st *State) AllSpaces() ([]*Space, error)], under the tick of its
    one call. *)
Definition AllSpaces (st : State) (t : Tick) (db : DB) : result (list Space) * DB :=
  let res := findAllStep t db st spacesC [] in
  (match res.1 with
   | Err err => Err (Annotatef err "cannot get all spaces" [])
   | Ok docs => Ok (map (fun doc => {| st := st; doc := unmarshalSpace doc |}) docs)
   end,
   res.2).

(** The keys of the documents that a list of operations names. *)
Definition opKey (op : txn.Op) : string * string := (txn.C op, txn.Id op).

(** A world in which no other actor changes the document under [k]. *)
Definition leaves (k : string * string) (w : World) : Prop :=
  Forall (fun t => forall db, others t db !! k = db !! k) w.

(** A world in which no call fails in the driver. *)
Definition faultless (w : World) : Prop := Forall (fun t => fault t = None) w.

(** What a lookup that does not fail answers from a store. *)
Definition answer (db : DB) (c id : string) : result bsonD :=
  match db !! (c, id) with
  | Some d => Ok d
  | None => Err ErrNotFound
  end.

(** A call that fails in the driver, and another actor removing the
    document under [k] between two calls. *)
Definition failing (msg : string) : Tick :=
  {| others := fun db => db; fault := Some msg |}.

Definition removes (k : string * string) : Tick :=
  {| others := fun db => delete k db; fault := None |}.

(** Another actor marking subnet 10.0.0.0/24 Dying between two calls. *)
Definition marksSubnetDying : Tick :=
  {| others := fun db =>
       match db !! (subnetsC, "m:10.0.0.0/24") with
       | Some d => <[ (subnetsC, "m:10.0.0.0/24") := setField d "life" (BLife Dying) ]> db
       | None => db
       end;
     fault := None |}.

(** A store where subnet 10.0.0.0/24 belongs to space [a], which exists. *)
Definition dbSubnetOfA : DB :=
  {[ (spacesC, "m:a") := marshalSpace (newSpaceDoc modelM "a" EmptyString false);
     (subnetsC, "m:10.0.0.0/24") :=
       [("_id", BString "m:10.0.0.0/24"); ("life", BLife Alive);
        ("space-name", BString "a")] ]}.

(** ** The index of provider ids *)

(** An id that lies within the model of [st]. *)
Definition inModel (st : State) (id : string) : Prop := State_docID st id = id.

(** A store in which every space document of the model is kept under the
    id of its name and holds that id. *)
Definition wellKeyed (st : State) (db : DB) : Prop :=
  forall id d,
    db !! (spacesC, id) = Some d -> inModel st id ->
    id = State_docID st (Name (unmarshalSpace d)) /\ DocID (unmarshalSpace d) = id.

(** The provider id that a stored space document holds. *)
Definition providerOf (d : bsonD) : string := ProviderId (unmarshalSpace d).

(** Every space of the model that holds a provider id has the entry of that
    provider id in the index. *)
Definition indexed (st : State) (db : DB) : Prop :=
  forall id d,
    db !! (spacesC, id) = Some d -> inModel st id -> providerOf d <> EmptyString ->
    is_Some (db !! (providerIDsC, State_networkEntityGlobalKey st "space" (providerOf d))).

(** No two spaces of the model hold the same provider id. *)
Definition providerIdsUnique (st : State) (db : DB) : Prop :=
  forall id1 id2 d1 d2,
    db !! (spacesC, id1) = Some d1 -> db !! (spacesC, id2) = Some d2 ->
    inModel st id1 -> inModel st id2 ->
    providerOf d1 <> EmptyString -> providerOf d1 = providerOf d2 ->
    id1 = id2.

(** A space value that holds the provider id of the stored document, as a
    value read from that document does. *)
Definition current (s : Space) (db : DB) : Prop :=
  forall d, db !! spaceKey s = Some d -> providerOf d = Space_ProviderId s.

(** One operation of this file on the spaces of one model, run to completion
    by one actor; [Remove] through a current space value. *)
Inductive modelStep (IsValidSpace : string -> bool) (st : State) (db : DB) : DB -> Prop :=
  | modelStep_AddSpace (name providerId : string) (subnets : list string)
      (isPublic : bool) (w : World) :
      isolated w ->
      modelStep IsValidSpace st db
        (store (run (AddSpace IsValidSpace st name providerId subnets isPublic) w db))
  | modelStep_EnsureDead (s : Space) (w : World) :
      isolated w -> Spaces.st s = st ->
      modelStep IsValidSpace st db (store (run (EnsureDead s) w db))
  | modelStep_Remove (s : Space) (w : World) :
      isolated w -> Spaces.st s = st -> current s db ->
      modelStep IsValidSpace st db (store (run (Remove s) w db)).

(** A store where space [a] is Dead and holds provider id [q], space [b]
    holds provider id [p], and both are indexed. The space value
    [deadSpaceA] names [a] but holds [p]. *)
Definition dbTwoProviders : DB :=
  {[ (spacesC, "m:a") := marshalSpace (doc (setLife (newSpaceOf modelM "a" "q" false) Dead));
     (spacesC, "m:b") := marshalSpace (newSpaceDoc modelM "b" "p" false);
     (providerIDsC, "m:space:p") := [("_id", BString "m:space:p")];
     (providerIDsC, "m:space:q") := [("_id", BString "m:space:q")] ]}.

End Spaces.

(* ===================================================================== *)
(** * Package resourceadapters: deploy                                   *)
(* ===================================================================== *)

Module Deploy.
Import Spaces.

Local Open Scope Z_scope.

(** ** Package strconv *)

(** The two errors of [strconv]: [ErrSyntax] and [ErrRange]. *)
Inductive NumError : Type := ErrSyntax | ErrRange.

Definition maxUint64 : Z := 2 ^ 64 - 1.

(** Two's complement conversion to a signed integer of [bits] bits. *)
Definition toSigned (bits : Z) (x : Z) : Z :=
  (x + 2 ^ (bits - 1)) mod 2 ^ bits - 2 ^ (bits - 1).

(** The [switch] of [ParseUint] on one byte: the value of a digit or
    letter, or nothing for any other byte. *)
Definition digitValue (d : ascii) : option Z :=
  let c := Z.of_nat (nat_of_ascii d) in
  if (48 <=? c) && (c <=? 57) then Some (c - 48)
  else if (97 <=? c) && (c <=? 122) then Some (c - 97 + 10)
  else if (65 <=? c) && (c <=? 90) then Some (c - 65 + 10)
  else None.

(** The loop of [ParseUint] in base 10: the number read so far and the
    error, as the pair [(n, err)] that the function returns. *)
Fixpoint parseUintLoop (maxVal : Z) (n : Z) (s : string) : Z * option NumError :=
  match s with
  | EmptyString => (n, None)
  | String d rest =>
      match digitValue d with
      | None => (0, Some ErrSyntax)
      | Some v =>
          if v >=? 10 then (0, Some ErrSyntax)
          else if n >=? maxUint64 / 10 + 1 then (maxUint64, Some ErrRange)
          else
            let n := n * 10 in
            let n1 := (n + v) mod 2 ^ 64 in
            if (n1 <? n) || (n1 >? maxVal) then (maxUint64, Some ErrRange)
            else parseUintLoop maxVal n1 rest
      end
  end.

(** [strconv.ParseUint(s, 10, bitSize)] *)
Definition ParseUint (s : string) (bitSize : Z) : Z * option NumError :=
  if (Z.of_nat (String.length s) <? 1) then (0, Some ErrSyntax)
  else parseUintLoop (((2 ^ bitSize) mod 2 ^ 64 - 1) mod 2 ^ 64) 0 s.

(** [strconv.ParseInt(s, 10, bitSize)] *)
Definition ParseInt (s : string) (bitSize : Z) : Z * option NumError :=
  match s with
  | EmptyString => (0, Some ErrSyntax)
  | String c rest =>
      let neg := Ascii.eqb c "-" in
      let s := if Ascii.eqb c "+" || Ascii.eqb c "-" then rest else s in
      let '(un, err) := ParseUint s bitSize in
      match err with
      | Some ErrSyntax => (0, Some ErrSyntax)
      | _ =>
          let cutoff := 2 ^ (bitSize - 1) in
          if negb neg && (un >=? cutoff) then (cutoff - 1, Some ErrRange)
          else if neg && (un >? cutoff) then (- cutoff, Some ErrRange)
          else
            let n := toSigned 64 un in
            (if neg then toSigned 64 (- n) else n, None)
      end
  end.

Section DeployResources.

(** [strconv.IntSize], the size in bits of an [int] on the platform. *)
Variable IntSize : Z.

(** [strconv.Atoi]: [ParseInt(s, 10, 0)] converted to [int]; the bit size 0
    stands for [IntSize]. *)
Definition Atoi (s : string) : Z * option NumError :=
  let '(i64, err) := ParseInt s IntSize in
  (toSigned IntSize i64, err).

(** ** DeployResources *)

(** The types of the arguments that [DeployResources] only passes on. *)
Variables CharmURL Channel Macaroon Meta Connection Client : Type.

(** [type deployClient struct] *)
Record deployClient : Type := mkDeployClient {
  deployClient_Client : Client
}.

(** [cmd.DeployResourcesArgs], of package resource/cmd. *)
Record DeployResourcesArgs : Type := mkDeployResourcesArgs {
  ServiceID : string;
  ArgCharmURL : CharmURL;
  ArgChannel : Channel;
  CharmStoreMacaroon : Macaroon;
  Filenames : gmap string string;
  Revisions : gmap string Z;
  ResourcesMeta : gmap string Meta;
  ArgClient : deployClient
}.

(** [newAPIClient], of this package, and [cmd.DeployResources], of package
    resource/cmd. *)
Variable newAPIClient : Connection -> result Client.
Variable cmd_DeployResources : DeployResourcesArgs -> result (gmap string string).

(** One round of the loop over [filesAndRevisions]. *)
Definition splitStep (acc : gmap string string * gmap string Z)
    (entry : string * string) : gmap string string * gmap string Z :=
  let '(filenames, revisions) := acc in
  let '(name, val) := entry in
  let '(rev, err) := Atoi val in
  match err with
  | Some _ => (<[name := val]> filenames, revisions)
  | None => (filenames, <[name := rev]> revisions)
  end.

(** [func DeployResources(serviceID, cURL, channel, csMac, filesAndRevisions,
    resources, conn) (ids map[string]string, err error)]. [order] is the
    order in which [range] visits the entries of [filesAndRevisions], which
    Go leaves unspecified. *)
Definition DeployResources (serviceID : string) (cURL : CharmURL) (channel : Channel)
    (csMac : Macaroon) (order : list (string * string))
    (resources : gmap string Meta) (conn : Connection) : result (gmap string string) :=
  match newAPIClient conn with
  | Err err => Err (Trace err)
  | Ok client =>
      let '(filenames, revisions) := foldl splitStep (∅, ∅) order in
      match cmd_DeployResources
              {| ServiceID := serviceID;
                 ArgCharmURL := cURL;
                 ArgChannel := channel;
                 CharmStoreMacaroon := csMac;
                 Filenames := filenames;
                 Revisions := revisions;
                 ResourcesMeta := resources;
                 ArgClient := {| deployClient_Client := client |} |} with
      | Err err => Err (Trace err)
      | Ok ids => Ok ids
      end
  end.

End DeployResources.

Arguments mkDeployResourcesArgs {CharmURL Channel Macaroon Meta Client}.
Arguments mkDeployClient {Client}.
Arguments Filenames {CharmURL Channel Macaroon Meta Client}.
Arguments Revisions {CharmURL Channel Macaroon Meta Client}.
Arguments DeployResources IntSize {CharmURL Channel Macaroon Meta Connection Client}.

(** ** Specification vocabulary *)

(** A decimal digit, and a string of decimal digits. *)
Definition isDigit (d : ascii) : bool :=
  let c := Z.of_nat (nat_of_ascii d) in (48 <=? c) && (c <=? 57).

Fixpoint allDigits (s : string) : bool :=
  match s with
  | EmptyString => true
  | String d rest => isDigit d && allDigits rest
  end.

(** A decimal numeral: digits, at least one, after an optional sign. *)
Definition isNumeral (s : string) : bool :=
  match s with
  | EmptyString => false
  | String c rest =>
      if Ascii.eqb c "+" || Ascii.eqb c "-"
      then negb (String.eqb rest EmptyString) && allDigits rest
      else allDigits s
  end.

(** The values of a map that are file names, and those that are revisions. *)
Definition fileNamesOf (IntSize : Z) (m : gmap string string) : gmap string string :=
  filter (fun entry => is_Some (Atoi IntSize entry.2).2) m.

Definition revisionsOf (IntSize : Z) (m : gmap string string) : gmap string Z :=
  omap (fun val => match (Atoi IntSize val).2 with
                   | None => Some (Atoi IntSize val).1
                   | Some _ => None
                   end) m.

(** Sample arguments: a resource given by file and two given by revision. *)
Definition sampleResources : gmap string string :=
  {[ "data" := "./data.tgz"; "site" := "7"; "cert" := "-1" ]}.

End Deploy.

(* ===================================================================== *)
(** * Package crossmodel (cmd/juju): offer                               *)
(* ===================================================================== *)

Module Offer.

Local Open Scope string_scope.

(** ** Errors and strings *)

(** The errors of this file, by the function that builds them; [Other] is
    an error of a package that the command calls. *)
Inductive error : Type :=
  | fmt_Errorf (format : string) (args : list string)
  | errors_New (msg : string)
  | errors_Errorf (format : string) (args : list string)
  | errors_NotValidf (format : string) (args : list string)
  | Other (msg : string).

(** The double quote that three of the messages carry. *)
Definition dquote : string := String (Ascii.ascii_of_nat 34) EmptyString.

(** [strings.SplitN(s, sep, -1)] for a separator of one byte: the substrings
    between the separators, all of them. *)
Fixpoint SplitN (s : string) (sep : ascii) : list string :=
  match s with
  | EmptyString => [EmptyString]
  | String c rest =>
      if Ascii.eqb c sep then EmptyString :: SplitN rest sep
      else
        match SplitN rest sep with
        | part :: parts => String c part :: parts
        | [] => [String c EmptyString]
        end
  end.

(** ** The command *)

(** [type offerCommand struct], without the embedded
    [CrossModelCommandBase] and the constructor of the API. *)
Record offerCommand : Type := mkOfferCommand {
  Service : string;
  Endpoints : list string;
  URL : string;
  Users : list string
}.

(** [params.ErrorResult], of package apiserver/params. *)
Record ErrorResult : Type := mkErrorResult {
  ResultError : option error
}.

(** The calls that [Run] makes on the API. *)
Inductive apiCall : Type :=
  | CallOffer (service : string) (endpoints : list string) (url : string)
      (users : list string) (desc : string)
  | CallClose.

Section Command.

(** [names.IsValidService] and [names.IsValidUser], of package
    github.com/juju/names; the string of [names.NewUserTag(user)]; the error
    of [crossmodel.ParseServiceURL], of package model/crossmodel. *)
Variable IsValidService : string -> bool.
Variable IsValidUser : string -> bool.
Variable UserTagString : string -> string.
Variable ParseServiceURL : string -> option error.

(** [c.ConnectionCredentials()], which gives the error or the user of the
    credentials, and [c.EnvName()], both of the embedded command base. *)
Variable ConnectionCredentials : error + string.
Variable EnvName : string.

(** [c.newAPIFunc()], which gives the error or the API; [api.Offer], and
    [params.ErrorResults{results}.Combine()]. *)
Variable newAPIFunc : option error.
Variable api_Offer :
  string -> list string -> string -> list string -> string -> error + list ErrorResult.
Variable Combine : list ErrorResult -> option error.

(** [func (c *offerCommand) parseEndpoints(arg string) error]: the command
    as the call leaves it, and the error. *)
Definition parseEndpoints (c : offerCommand) (arg : string) : offerCommand * option error :=
  let parts := SplitN arg ":" in
  if negb (length parts =? 2)%nat then
    (c, Some (errors_New ("endpoints must conform to format " ++ dquote
                          ++ "<service-name>:<endpoint-name>[,...]" ++ dquote ++ " ")))
  else
    let serviceName := nth 0 parts EmptyString in
    if negb (IsValidService serviceName) then
      (c, Some (errors_NotValidf "service name %q" [serviceName]))
    else
      let c := {| Service := serviceName; Endpoints := Endpoints c;
                  URL := URL c; Users := Users c |} in
      let endpoints := SplitN (nth 1 parts EmptyString) "," in
      if (length endpoints <? 1)%nat || String.eqb (nth 0 endpoints EmptyString) EmptyString
      then
        (c, Some (errors_Errorf ("specify endpoints for %v" ++ dquote ++ " ") [serviceName]))
      else
        let c := {| Service := Service c; Endpoints := endpoints;
                    URL := URL c; Users := Users c |} in
        if String.eqb (URL c) EmptyString then
          match ConnectionCredentials with
          | inl err => (c, Some err)
          | inr user =>
              ({| Service := Service c; Endpoints := Endpoints c;
                  URL := Spaces.Sprintf "local:/u/%s/%s/%s" [user; EnvName; serviceName];
                  Users := Users c |},
               None)
          end
        else (c, None).

(** [func (c *offerCommand) Init(args []string) error] *)
Definition Init (c : offerCommand) (args : list string) : offerCommand * option error :=
  if (length args <? 1)%nat then
    (c, Some (fmt_Errorf "an offer must at least specify service endpoint" []))
  else if (2 <? length args)%nat then
    (c, Some (fmt_Errorf "an offer can only specify service endpoints and url" []))
  else
    let '(c, err) := parseEndpoints c (nth 0 args EmptyString) in
    match err with
    | Some err => (c, Some err)
    | None =>
        if (length args =? 2)%nat then
          let hostedURL := nth 1 args EmptyString in
          match ParseServiceURL hostedURL with
          | Some _ =>
              (c, Some (errors_Errorf ("hosted url %q is not valid" ++ dquote ++ " ")
                          [hostedURL]))
          | None =>
              ({| Service := Service c; Endpoints := Endpoints c;
                  URL := hostedURL; Users := Users c |},
               None)
          end
        else (c, None)
    end.

(** The loop of [Run] over [c.Users]: the tags, or the error of the first
    user name that is not valid. *)
Fixpoint userTags (users : list string) : error + list string :=
  match users with
  | [] => inr []
  | user :: rest =>
      if negb (IsValidUser user) then inl (errors_NotValidf "user name %q" [user])
      else
        match userTags rest with
        | inl err => inl err
        | inr tags => inr (UserTagString user :: tags)
        end
  end.

(** [func (c *offerCommand) Run(_ *cmd.Context) error]: the calls made on
    the API, in order, and the error. The deferred [api.Close()] is the last
    call of every path that has an API. *)
Definition Run (c : offerCommand) : list apiCall * option error :=
  match newAPIFunc with
  | Some err => ([], Some err)
  | None =>
      let '(calls, err) :=
        match userTags (Users c) with
        | inl err => ([], Some err)
        | inr tags =>
            let call := CallOffer (Service c) (Endpoints c) (URL c) tags EmptyString in
            match api_Offer (Service c) (Endpoints c) (URL c) tags EmptyString with
            | inl err => ([call], Some err)
            | inr results => ([call], Combine results)
            end
        end in
      ((calls ++ [CallClose])%list, err)
  end.

End Command.

(** ** Specification vocabulary *)

(** A string in which a byte occurs. *)
Fixpoint contains (c : ascii) (s : string) : bool :=
  match s with
  | EmptyString => false
  | String x rest => Ascii.eqb x c || contains c rest
  end.

(** A string that begins with a byte other than [c]. *)
Definition beginsOtherThan (c : ascii) (s : string) : bool :=
  match s with
  | EmptyString => false
  | String x _ => negb (Ascii.eqb x c)
  end.

(** The command before its flags and arguments are read. *)
Definition emptyCommand : offerCommand :=
  {| Service := EmptyString; Endpoints := []; URL := EmptyString; Users := [] |}.

(** Sample service names (lower-case letters and digits) and user names. *)
Definition sampleValid (s : string) : bool :=
  negb (String.eqb s EmptyString) && Spaces.validSpaceName s.

End Offer.

(* ===================================================================== *)
(** * Package storage (cmd/juju): filesystems                            *)
(* ===================================================================== *)

Module Filesystem.
Import Spaces.

Local Open Scope string_scope.

(** What a call gives: its results, or a run-time panic (here the
    dereference of a nil pointer). Errors are part of the results. *)
Inductive outcome (A : Type) : Type :=
  | Returns (a : A)
  | Panics.
Arguments Returns {A} a.
Arguments Panics {A}.

(** ** Types of package apiserver/params, as far as this file reads them *)

Record FilesystemAttachmentInfo : Type := mkFilesystemAttachmentInfo {
  AttachmentMountPoint : string;
  AttachmentReadOnly : bool
}.

(** ** Types of this package *)

(** [type MachineFilesystemAttachment struct] *)
Record MachineFilesystemAttachment : Type := mkMachineFilesystemAttachment {
  MountPoint : string;
  ReadOnly : bool
}.

#[global] Instance MachineFilesystemAttachment_eq_dec : EqDecision MachineFilesystemAttachment.
Proof. solve_decision. Defined.

Section Filesystems.

(** [params.Status], [*time.Time], [params.StorageDetails],
    [UnitStorageAttachment], [names.FilesystemTag] and [names.StorageTag]
    are declared elsewhere and only passed on here. *)
Context {StatusValue TimePointer StorageDetails UnitStorageAttachment : Type}.
Context {FilesystemTag StorageTag : Type}.

(** [params.Error], with the text that the verb [%v] prints for it. *)
Context {paramsError : Type}.
Variable paramsError_text : paramsError -> string.

(** [params.EntityStatus] and [params.FilesystemInfo], as far as read. *)
Record paramsEntityStatus : Type := mkParamsEntityStatus {
  StatusStatus : StatusValue;
  StatusInfo : string;
  StatusSince : TimePointer
}.

Record paramsFilesystemInfo : Type := mkParamsFilesystemInfo {
  FilesystemId : string;
  InfoSize : Z
}.

(** [params.FilesystemDetails], as far as read. [DetailsStorage] is the
    pointer [Storage], [None] when nil. *)
Record FilesystemDetails : Type := mkFilesystemDetails {
  DetailsFilesystemTag : string;
  VolumeTag : string;
  Info : paramsFilesystemInfo;
  DetailsStatus : paramsEntityStatus;
  MachineAttachments : gmap string FilesystemAttachmentInfo;
  DetailsStorage : option StorageDetails
}.

(** [params.FilesystemDetailsListResult], as far as read. *)
Record FilesystemDetailsListResult : Type := mkFilesystemDetailsListResult {
  Result : list FilesystemDetails;
  ResultError : option paramsError
}.

(** [EntityStatus], of this package, built here from its three values in
    order. *)
Record EntityStatus : Type := mkEntityStatus {
  EntityStatus1 : StatusValue;
  EntityStatus2 : string;
  EntityStatus3 : string
}.

(** [type FilesystemAttachments struct] *)
Record FilesystemAttachments : Type := mkFilesystemAttachments {
  Machines : gmap string MachineFilesystemAttachment;
  Units : gmap string UnitStorageAttachment
}.

(** [type FilesystemInfo struct]; [Attachments] is a pointer, [None] when
    nil. *)
Record FilesystemInfo : Type := mkFilesystemInfo {
  ProviderFilesystemId : string;
  Volume : string;
  Storage : string;
  Attachments : option FilesystemAttachments;
  Size : Z;
  Status : EntityStatus
}.

(** [StorageInfo], of this package, as far as read: its pointer
    [Attachments] with the field [Units]. *)
Record StorageInfo : Type := mkStorageInfo {
  StorageUnits : option (gmap string UnitStorageAttachment)
}.

(** [names.ParseFilesystemTag], the method [Id] of the two kinds of tag,
    [common.FormatTime(since, false)], and [idFromTag] and
    [createStorageInfo] of this package. *)
Variable ParseFilesystemTag : string -> error + FilesystemTag.
Variable FilesystemTag_Id : FilesystemTag -> string.
Variable StorageTag_Id : StorageTag -> string.
Variable FormatTime : TimePointer -> string.
Variable idFromTag : string -> error + string.
Variable createStorageInfo : StorageDetails -> error + StorageTag * StorageInfo.

(** The order in which [range] visits the entries of a map of machine
    attachments, which Go leaves unspecified. *)
Variable visit :
  gmap string FilesystemAttachmentInfo -> list (string * FilesystemAttachmentInfo).

(** The loop of [createFilesystemInfo] over the machine attachments. *)
Fixpoint machineLoop (entries : list (string * FilesystemAttachmentInfo))
    (machineAttachments : gmap string MachineFilesystemAttachment) :
    error + gmap string MachineFilesystemAttachment :=
  match entries with
  | [] => inr machineAttachments
  | (machineTag, attachment) :: rest =>
      match idFromTag machineTag with
      | inl err => inl (Trace err)
      | inr machineId =>
          machineLoop rest
            (<[machineId := {| MountPoint := AttachmentMountPoint attachment;
                               ReadOnly := AttachmentReadOnly attachment |}]>
               machineAttachments)
      end
  end.

(** [func createFilesystemInfo(details params.FilesystemDetails)
    (names.FilesystemTag, FilesystemInfo, error)]: the tag and the info, or
    the error. *)
Definition createFilesystemInfo (details : FilesystemDetails) :
    outcome (error + FilesystemTag * FilesystemInfo) :=
  match ParseFilesystemTag (DetailsFilesystemTag details) with
  | inl err => Returns (inl (Trace err))
  | inr filesystemTag =>
      let status :=
        {| EntityStatus1 := StatusStatus (DetailsStatus details);
           EntityStatus2 := StatusInfo (DetailsStatus details);
           EntityStatus3 := FormatTime (StatusSince (DetailsStatus details)) |} in
      match
        (if negb (String.eqb (VolumeTag details) EmptyString)
         then idFromTag (VolumeTag details)
         else inr EmptyString)
      with
      | inl err => Returns (inl (Trace err))
      | inr volume =>
          match
            (if (0 <? size (MachineAttachments details))%nat
             then
               match machineLoop (visit (MachineAttachments details)) ∅ with
               | inl err => inl err
               | inr machineAttachments =>
                   inr (Some {| Machines := machineAttachments; Units := ∅ |})
               end
             else inr None)
          with
          | inl err => Returns (inl err)
          | inr attachments =>
              let info storage attachments :=
                {| ProviderFilesystemId := FilesystemId (Info details);
                   Volume := volume;
                   Storage := storage;
                   Attachments := attachments;
                   Size := InfoSize (Info details);
                   Status := status |} in
              match DetailsStorage details with
              | None => Returns (inr (filesystemTag, info EmptyString attachments))
              | Some storageDetails =>
                  match createStorageInfo storageDetails with
                  | inl err => Returns (inl (Trace err))
                  | inr (storageTag, storageInfo) =>
                      match StorageUnits storageInfo with
                      | None =>
                          Returns (inr (filesystemTag,
                                        info (StorageTag_Id storageTag) attachments))
                      | Some units =>
                          match attachments with
                          | None => Panics
                          | Some a =>
                              Returns
                                (inr (filesystemTag,
                                      info (StorageTag_Id storageTag)
                                        (Some {| Machines := Machines a;
                                                 Units := units |})))
                          end
                      end
                  end
              end
          end
      end
  end.

(** The details that [createFilesystemInfo] turns into an info. *)
Definition converts (one : FilesystemDetails) : Prop :=
  exists filesystemTag info,
    createFilesystemInfo one = Returns (inr (filesystemTag, info)).

(** [func convertToFilesystemInfo(all []params.FilesystemDetails)
    (map[string]FilesystemInfo, error)], from the map built so far. *)
Fixpoint convertLoop (all : list FilesystemDetails) (result : gmap string FilesystemInfo) :
    outcome (error + gmap string FilesystemInfo) :=
  match all with
  | [] => Returns (inr result)
  | one :: rest =>
      match createFilesystemInfo one with
      | Panics => Panics
      | Returns (inl err) => Returns (inl (Trace err))
      | Returns (inr (filesystemTag, info)) =>
          convertLoop rest (<[FilesystemTag_Id filesystemTag := info]> result)
      end
  end.

Definition convertToFilesystemInfo (all : list FilesystemDetails) :
    outcome (error + gmap string FilesystemInfo) :=
  convertLoop all ∅.

(** The value of type [interface{}] that [generateListFilesystemsOutput]
    returns: nil, the map of filesystems, or that map under the one key
    "filesystems". *)
Inductive output : Type :=
  | OutputNil
  | OutputInfo (info : gmap string FilesystemInfo)
  | OutputKeyed (key : string) (info : gmap string FilesystemInfo).

(** The loop of [generateListFilesystemsOutput] over the results: the valid
    details, and the lines written to [ctx.Stderr]. *)
Definition validDetails (results : list FilesystemDetailsListResult) :
    list FilesystemDetails :=
  concat (map (fun result => match ResultError result with
                             | None => Result result
                             | Some _ => []
                             end) results).

Definition errorLines (results : list FilesystemDetailsListResult) : list string :=
  omap (fun result => match ResultError result with
                      | None => None
                      | Some err =>
                          Some (paramsError_text err
                                ++ String (Ascii.ascii_of_nat 10) EmptyString)
                      end) results.

(** [func (c *listCommand) generateListFilesystemsOutput(ctx, api)
    (output interface{}, err error)], from the answer of
    [api.ListFilesystems(c.ids)] and the name of the formatter
    [c.out.Name()]: what is written to [ctx.Stderr], and the results. *)
Definition generateListFilesystemsOutput
    (listFilesystems : error + list FilesystemDetailsListResult) (outName : string) :
    list string * outcome (output * option error) :=
  match listFilesystems with
  | inl err => ([], Returns (OutputNil, Some err))
  | inr results =>
      let valid := validDetails results in
      (errorLines results,
       if (length valid =? 0)%nat then Returns (OutputNil, None)
       else
         match convertToFilesystemInfo valid with
         | Panics => Panics
         | Returns (inl err) => Returns (OutputNil, Some err)
         | Returns (inr info) =>
             if String.eqb outName "yaml" || String.eqb outName "json"
             then Returns (OutputKeyed "filesystems" info, None)
             else Returns (OutputInfo info, None)
         end)
  end.

End Filesystems.

(** ** Sample values *)

(** Sample readers of tags: the text after the first dash, for the kind
    that is expected. *)
Definition sampleId (kind tag : string) : error + string :=
  if String.prefix (kind ++ "-") tag
  then inr (String.substring (String.length kind + 1)
              (String.length tag - String.length kind - 1) tag)
  else inl (Errorf "%q is not a valid %s tag" [tag; kind]).

Definition sampleIdFromTag (tag : string) : error + string :=
  match sampleId "machine" tag with
  | inr id => inr id
  | inl _ => sampleId "volume" tag
  end.

Definition sampleStorageInfo (storage : string) :
    error + string * @StorageInfo unit :=
  inr (storage, {| StorageUnits := Some ∅ |}).

(** A filesystem of a storage instance that is attached to no machine, the
    same filesystem attached to machine 0 and without storage, and one whose
    tag is the tag of a volume. *)
Definition detailsDetached : @FilesystemDetails string unit string :=
  {| DetailsFilesystemTag := "filesystem-0";
     VolumeTag := EmptyString;
     Info := {| FilesystemId := "fs-0"; InfoSize := 1024 |};
     DetailsStatus := {| StatusStatus := "attached"; StatusInfo := EmptyString;
                         StatusSince := tt |};
     MachineAttachments := ∅;
     DetailsStorage := Some "data/0" |}.

Definition detailsAttached : @FilesystemDetails string unit string :=
  {| DetailsFilesystemTag := "filesystem-0";
     VolumeTag := EmptyString;
     Info := {| FilesystemId := "fs-0"; InfoSize := 1024 |};
     DetailsStatus := {| StatusStatus := "attached"; StatusInfo := EmptyString;
                         StatusSince := tt |};
     MachineAttachments :=
       {[ "machine-0" := {| AttachmentMountPoint := "/mnt"; AttachmentReadOnly := false |} ]};
     DetailsStorage := None |}.

Definition detailsMistagged : @FilesystemDetails string unit string :=
  {| DetailsFilesystemTag := "volume-1";
     VolumeTag := EmptyString;
     Info := {| FilesystemId := "fs-1"; InfoSize := 1024 |};
     DetailsStatus := {| StatusStatus := "attached"; StatusInfo := EmptyString;
                         StatusSince := tt |};
     MachineAttachments := ∅;
     DetailsStorage := None |}.

End Filesystem.

(* ===================================================================== *)
(** * Properties of package lease                                        *)
(* ===================================================================== *)

Module LeaseSpec.
Import Lease.

Local Open Scope Z_scope.

(** ** Wrap-around arithmetic *)

Lemma wrap64_small (x : Z) : int64 x -> wrap64 x = x.
Proof.
  unfold int64, wrap64. intros Hx.
  rewrite Z.mod_small by lia. lia.
Qed.

Lemma wrap64_int64 (x : Z) : int64 (wrap64 x).
Proof.
  unfold int64, wrap64.
  pose proof (Z.mod_pos_bound (x + 2 ^ 63) (2 ^ 64) ltac:(lia)). lia.
Qed.

Lemma wrap32_small (x : Z) : - 2 ^ 31 <= x < 2 ^ 31 -> wrap32 x = x.
Proof.
  unfold wrap32. intros Hx.
  rewrite Z.mod_small by lia. lia.
Qed.

Lemma wrap64_mod (x : Z) : wrap64 x mod 2 ^ 64 = x mod 2 ^ 64.
Proof.
  unfold wrap64.
  rewrite <- Zminus_mod_idemp_l, Z.mod_mod by lia.
  rewrite Zminus_mod_idemp_l. f_equal. lia.
Qed.

Lemma wrap64_cong (x y : Z) : x mod 2 ^ 64 = y mod 2 ^ 64 -> wrap64 x = wrap64 y.
Proof.
  intros H. unfold wrap64.
  rewrite <- (Zplus_mod_idemp_l x), <- (Zplus_mod_idemp_l y), H. reflexivity.
Qed.

Lemma wrap64_add_l (x y : Z) : wrap64 (wrap64 x + y) = wrap64 (x + y).
Proof.
  apply wrap64_cong.
  rewrite <- Zplus_mod_idemp_l, wrap64_mod, Zplus_mod_idemp_l. reflexivity.
Qed.

Lemma wrap64_sub_l (x y : Z) : wrap64 (wrap64 x - y) = wrap64 (x - y).
Proof.
  apply wrap64_cong.
  rewrite <- Zminus_mod_idemp_l, wrap64_mod, Zminus_mod_idemp_l. reflexivity.
Qed.

Lemma wrap64_mul_l (x y : Z) : wrap64 (wrap64 x * y) = wrap64 (x * y).
Proof.
  apply wrap64_cong.
  rewrite <- Zmult_mod_idemp_l, wrap64_mod, Zmult_mod_idemp_l. reflexivity.
Qed.

(** ** Exactness of [Add] and [Sub] away from the limits *)

Lemma rem_bound (d : Z) : - 1000000000 < d `rem` 1000000000 < 1000000000.
Proof.
  pose proof (Z.rem_bound_abs d 1000000000 ltac:(lia)). lia.
Qed.

Lemma Add_wf (t : Time) (d : Duration) : wfTime t -> wfTime (Add t d).
Proof.
  intros [Hs Hn]. unfold Add.
  pose proof (rem_bound d) as Hr.
  rewrite (wrap32_small (d `rem` _)) by lia.
  rewrite (wrap32_small (nsec t + _)) by lia.
  repeat case_match; split; simpl; try apply wrap64_int64;
    rewrite ?wrap32_small; lia.
Qed.

Lemma Add_nanos (t : Time) (d : Duration) :
  wfTime t -> int64 d -> representable (nanos t + d) ->
  nanos (Add t d) = nanos t + d.
Proof.
  intros [Hs Hn] Hd Hrep. unfold Add.
  pose proof (rem_bound d) as Hr.
  pose proof (Z.quot_rem' d 1000000000) as Hqr.
  assert (Hq : int64 (d `quot` 1000000000)).
  { unfold int64 in *.
    destruct (Z.le_gt_cases 0 d) as [Hp | Hneg].
    - pose proof (Z.quot_pos d 1000000000 Hp ltac:(lia)).
      pose proof (Z.quot_le_upper_bound d 1000000000 d ltac:(lia) ltac:(nia)). lia.
    - pose proof (Z.quot_opp_l d 1000000000 ltac:(lia)) as Ho.
      pose proof (Z.quot_pos (- d) 1000000000 ltac:(lia) ltac:(lia)).
      pose proof (Z.quot_le_upper_bound (- d) 1000000000 (- d) ltac:(lia) ltac:(nia)).
      lia. }
  rewrite (wrap64_small (d `quot` _)) by exact Hq.
  rewrite (wrap32_small (d `rem` _)) by lia.
  rewrite (wrap32_small (nsec t + _)) by lia.
  unfold representable, nanos in *.
  repeat case_match; simpl; rewrite ?Z.leb_le, ?Z.leb_gt, ?Z.ltb_lt, ?Z.ltb_ge in *.
  - rewrite wrap64_add_l, wrap32_small by lia.
    rewrite wrap64_small; [lia | unfold int64; lia].
  - rewrite wrap64_sub_l, wrap32_small by lia.
    rewrite wrap64_small; [lia | unfold int64; lia].
  - rewrite wrap64_small; [lia | unfold int64; lia].
Qed.

Lemma nanos_inj (t u : Time) :
  wfTime t -> wfTime u -> nanos t = nanos u -> sec t = sec u /\ nsec t = nsec u.
Proof.
  unfold wfTime, nanos. intros [_ Ht] [_ Hu] H. lia.
Qed.

Lemma nanos_representable (t : Time) : wfTime t -> representable (nanos t).
Proof. unfold wfTime, int64, representable, nanos. lia. Qed.

Lemma Sub_exact (t u : Time) :
  wfTime t -> wfTime u ->
  minDuration <= nanos t - nanos u <= maxDuration ->
  Sub t u = nanos t - nanos u.
Proof.
  intros Ht Hu HD. unfold Sub.
  assert (Hd : wrap64 (wrap64 (wrap64 (sec t - sec u) * Second)
                        + wrap32 (nsec t - nsec u)) = nanos t - nanos u).
  { destruct Ht as [_ Htn], Hu as [_ Hun].
    rewrite wrap32_small by lia.
    rewrite wrap64_mul_l, wrap64_add_l.
    unfold minDuration, maxDuration in HD.
    rewrite wrap64_small; unfold nanos, Second, int64 in *; lia. }
  rewrite Hd.
  assert (Hn : nanos (Add u (nanos t - nanos u)) = nanos t).
  { rewrite Add_nanos; [lia | done | |].
    - unfold minDuration, maxDuration, int64 in *. lia.
    - replace (nanos u + (nanos t - nanos u)) with (nanos t) by lia.
      by apply nanos_representable. }
  destruct (nanos_inj _ _ (Add_wf u (nanos t - nanos u) Hu) Ht Hn) as [Hs Hns].
  unfold Equal. rewrite Hs, Hns, !Z.eqb_refl. reflexivity.
Qed.

Lemma After_nanos (t u : Time) :
  wfTime t -> wfTime u -> After t u = true <-> nanos u < nanos t.
Proof.
  unfold wfTime, After, nanos. intros [_ Ht] [_ Hu].
  rewrite orb_true_iff, andb_true_iff, !Z.ltb_lt, Z.eqb_eq. lia.
Qed.

Lemma Before_nanos (t u : Time) :
  wfTime t -> wfTime u -> Before t u = true <-> nanos t < nanos u.
Proof.
  unfold wfTime, Before, nanos. intros [_ Ht] [_ Hu].
  rewrite orb_true_iff, andb_true_iff, !Z.ltb_lt, Z.eqb_eq. lia.
Qed.

Lemma Add_seconds (t : Time) (k : Z) :
  wfTime t -> int64 k -> int64 (sec t + k) ->
  Add t (k * Second) = {| sec := sec t + k; nsec := nsec t; loc := loc t |}.
Proof.
  intros [Hs Hn] Hk Hsk. unfold Add, Second.
  rewrite Z.quot_mul, Z.rem_mul by lia.
  rewrite (wrap64_small k), (wrap32_small 0), Z.add_0_r by (done || lia).
  rewrite wrap32_small by lia.
  destruct (Z.leb_spec 1000000000 (nsec t)); [lia |].
  destruct (Z.ltb_spec (nsec t) 0); [lia |].
  by rewrite wrap64_small.
Qed.

Lemma isZero_fields (skew : Skew) :
  isZero skew = true ->
  nanos (LastWrite skew) = 0 /\ nanos (ReadAfter skew) = 0 /\ nanos (ReadBefore skew) = 0.
Proof.
  unfold isZero, IsZero, nanos.
  rewrite !andb_true_iff, !Z.eqb_eq. lia.
Qed.

Lemma Earliest_nanos (skew : Skew) (remote : Time) :
  wfSkew skew -> wfTime remote -> fits skew remote ->
  nanos (Earliest skew remote)
  = nanos (ReadAfter skew) + (nanos remote - nanos (LastWrite skew)).
Proof.
  intros (Hw & Ha & Hb) Hr (Hd & Hea & Hla). unfold Earliest.
  destruct (isZero skew) eqn:Hz.
  - apply isZero_fields in Hz. lia.
  - cbv zeta. rewrite Sub_exact by done.
    apply Add_nanos; [done | | done].
    unfold minDuration, maxDuration, int64 in *. lia.
Qed.

Lemma Latest_nanos (skew : Skew) (remote : Time) :
  wfSkew skew -> wfTime remote -> fits skew remote ->
  nanos (Latest skew remote)
  = nanos (ReadBefore skew) + (nanos remote - nanos (LastWrite skew)).
Proof.
  intros (Hw & Ha & Hb) Hr (Hd & Hea & Hla). unfold Latest.
  destruct (isZero skew) eqn:Hz.
  - apply isZero_fields in Hz. lia.
  - cbv zeta. rewrite Sub_exact by done.
    apply Add_nanos; [done | | done].
    unfold minDuration, maxDuration, int64 in *. lia.
Qed.

Lemma Earliest_wf (skew : Skew) (remote : Time) :
  wfSkew skew -> wfTime remote -> wfTime (Earliest skew remote).
Proof.
  intros (_ & Ha & _) Hr. unfold Earliest.
  destruct (isZero skew); [done | by apply Add_wf].
Qed.

Lemma Latest_wf (skew : Skew) (remote : Time) :
  wfSkew skew -> wfTime remote -> wfTime (Latest skew remote).
Proof.
  intros (_ & _ & Hb) Hr. unfold Latest.
  destruct (isZero skew); [done | by apply Add_wf].
Qed.

Lemma exampleSkew_not_zero (T0 : Time) :
  wfTime T0 -> - 2 ^ 62 <= sec T0 <= 2 ^ 62 -> isZero (exampleSkew T0) = false.
Proof.
  intros Hw Hs. unfold isZero, exampleSkew; simpl.
  replace (- Second) with ((- 1) * Second) by reflexivity.
  replace (Add T0 Second) with (Add T0 (1 * Second)) by reflexivity.
  rewrite !Add_seconds by (done || unfold int64; lia).
  unfold IsZero; simpl.
  destruct (Z.eqb_spec (sec T0 + -1) 0), (Z.eqb_spec (sec T0 + 1) 0);
    rewrite ?andb_false_r; simpl; try reflexivity; lia.
Qed.

Lemma example_bounds (T0 : Time) (k : Z) :
  wfTime T0 -> - 2 ^ 62 <= sec T0 <= 2 ^ 62 -> - 100 <= k <= 100 ->
  Earliest (exampleSkew T0) (Add T0 (k * Second)) = Add T0 ((k - 1) * Second) /\
  Latest (exampleSkew T0) (Add T0 (k * Second)) = Add T0 ((k + 1) * Second).
Proof.
  intros Hw Hs Hk.
  assert (Hsub : Sub (Add T0 (k * Second)) T0 = k * Second).
  { rewrite Sub_exact; [| by apply Add_wf | done |].
    - rewrite Add_seconds by (done || unfold int64; lia).
      unfold nanos, Second; simpl. lia.
    - rewrite Add_seconds by (done || unfold int64; lia).
      unfold nanos, Second, minDuration, maxDuration; simpl. lia. }
  unfold Earliest, Latest.
  rewrite exampleSkew_not_zero by done. cbv zeta.
  unfold exampleSkew; simpl. rewrite Hsub.
  replace (- Second) with ((- 1) * Second) by reflexivity.
  replace (Add T0 Second) with (Add T0 (1 * Second)) by reflexivity.
  assert (Hw1 : forall j, - 1 <= j <= 1 ->
            wfTime {| sec := sec T0 + j; nsec := nsec T0; loc := loc T0 |}).
  { intros j Hj. destruct Hw as [Hw1 Hw2]. split; simpl; [unfold int64 in *; lia | done]. }
  rewrite !(Add_seconds T0) by (done || unfold int64; lia).
  rewrite !Add_seconds by (simpl; (by apply Hw1; lia) || (unfold int64; lia)).
  simpl. split; f_equal; lia.
Qed.

(** ** Claims *)

(** C2 (as stated, refuted). The unconditional formula
    [Earliest(remote) = ReadAfter + (remote - LastWrite)] fails once the
    difference no longer fits a [Duration]: with a record sampled at
    2015-01-01 and a remote timestamp 300 years later, [Sub] saturates at
    [maxDuration], so [Earliest] and [Latest] fall short of the formula. *)
Lemma Earliest_Latest_formula_saturates :
  wfSkew (exampleSkew t2015) /\ wfTime t2315 /\
  nanos (Earliest (exampleSkew t2015) t2315)
    <> nanos (ReadAfter (exampleSkew t2015))
       + (nanos t2315 - nanos (LastWrite (exampleSkew t2015))) /\
  nanos (Latest (exampleSkew t2015) t2315)
    <> nanos (ReadBefore (exampleSkew t2015))
       + (nanos t2315 - nanos (LastWrite (exampleSkew t2015))).
Proof.
  repeat split; try (vm_compute; congruence).
Qed.

(** C2 (amended). Whenever [remote - LastWrite] fits a [Duration] and the
    shifted local reads stay representable, [Earliest(remote)] is the instant
    [ReadAfter + (remote - LastWrite)] and [Latest(remote)] is the instant
    [ReadBefore + (remote - LastWrite)]. For [LastWrite = T0],
    [ReadAfter = T0 - 1s], [ReadBefore = T0 + 1s] and [remote = T0 + 10s] the
    results are [T0 + 9s] and [T0 + 11s]. For a record whose three fields are
    zero, [Earliest(remote) = Latest(remote) = remote] for every [remote]. *)
Theorem Earliest_Latest_formula :
  (forall (skew : Skew) (remote : Time),
     wfSkew skew -> wfTime remote -> fits skew remote ->
     nanos (Earliest skew remote)
       = nanos (ReadAfter skew) + (nanos remote - nanos (LastWrite skew)) /\
     nanos (Latest skew remote)
       = nanos (ReadBefore skew) + (nanos remote - nanos (LastWrite skew))) /\
  (forall T0 : Time,
     wfTime T0 -> - 2 ^ 62 <= sec T0 <= 2 ^ 62 ->
     Earliest (exampleSkew T0) (Add T0 (10 * Second)) = Add T0 (9 * Second) /\
     Latest (exampleSkew T0) (Add T0 (10 * Second)) = Add T0 (11 * Second)) /\
  (forall (skew : Skew) (remote : Time),
     isZero skew = true ->
     Earliest skew remote = remote /\ Latest skew remote = remote).
Proof.
  split; [| split].
  - intros skew remote Hs Hr Hf. split.
    + by apply Earliest_nanos.
    + by apply Latest_nanos.
  - intros T0 Hw Hs. apply (example_bounds T0 10); [done | done | lia].
  - intros skew remote Hz. unfold Earliest, Latest. by rewrite Hz.
Qed.

Lemma Earliest_Latest_formula_witness :
  (nanos (Earliest (exampleSkew t2015) (Add t2015 (10 * Second)))
     = nanos (ReadAfter (exampleSkew t2015))
       + (nanos (Add t2015 (10 * Second)) - nanos (LastWrite (exampleSkew t2015))) /\
   nanos (Latest (exampleSkew t2015) (Add t2015 (10 * Second)))
     = nanos (ReadBefore (exampleSkew t2015))
       + (nanos (Add t2015 (10 * Second)) - nanos (LastWrite (exampleSkew t2015)))) /\
  (Earliest (exampleSkew t2015) (Add t2015 (10 * Second)) = Add t2015 (9 * Second) /\
   Latest (exampleSkew t2015) (Add t2015 (10 * Second)) = Add t2015 (11 * Second)) /\
  (Earliest zeroSkew t2315 = t2315 /\ Latest zeroSkew t2315 = t2315).
Proof.
  destruct Earliest_Latest_formula as (Hformula & Hexample & Hzero).
  split; [| split].
  - apply Hformula.
    + vm_compute. intuition congruence.
    + vm_compute. intuition congruence.
    + vm_compute. intuition congruence.
  - apply Hexample.
    + vm_compute. intuition congruence.
    + vm_compute. intuition congruence.
  - apply Hzero. reflexivity.
Defined.

(** C7 (as stated, refuted). Two remote timestamps one second apart, both
    more than a [Duration] away from [LastWrite], are mapped to the same
    local bounds: the later one is not mapped strictly later. *)
Lemma Earliest_Latest_not_strictly_monotone :
  wfSkew (exampleSkew t2015) /\ wfTime t2315 /\ wfTime t2315' /\
  After t2315' t2315 = true /\
  After (Earliest (exampleSkew t2015) t2315') (Earliest (exampleSkew t2015) t2315) = false /\
  After (Latest (exampleSkew t2015) t2315') (Latest (exampleSkew t2015) t2315) = false.
Proof.
  repeat split; try (vm_compute; congruence).
Qed.

(** C7 (amended). On one record, if [remote2] is after [remote1] and either
    the record is the zero record or both differences from [LastWrite] fit a
    [Duration] (with representable results), then [Earliest(remote2)] is
    after [Earliest(remote1)] and [Latest(remote2)] is after
    [Latest(remote1)]. *)
Theorem Earliest_Latest_strictly_monotone (skew : Skew) (remote1 remote2 : Time) :
  wfSkew skew -> wfTime remote1 -> wfTime remote2 ->
  After remote2 remote1 = true ->
  isZero skew = true \/ (fits skew remote1 /\ fits skew remote2) ->
  After (Earliest skew remote2) (Earliest skew remote1) = true /\
  After (Latest skew remote2) (Latest skew remote1) = true.
Proof.
  intros Hs H1 H2 Hlt [Hz | [Hf1 Hf2]].
  - unfold Earliest, Latest. by rewrite Hz.
  - apply After_nanos in Hlt; [| done | done].
    split; apply After_nanos;
      try (by apply Earliest_wf); try (by apply Latest_wf).
    + rewrite !Earliest_nanos by done. lia.
    + rewrite !Latest_nanos by done. lia.
Qed.

Lemma Earliest_Latest_strictly_monotone_witness :
  After (Earliest (exampleSkew t2015) (Add t2015 (11 * Second)))
        (Earliest (exampleSkew t2015) (Add t2015 (10 * Second))) = true /\
  After (Latest (exampleSkew t2015) (Add t2015 (11 * Second)))
        (Latest (exampleSkew t2015) (Add t2015 (10 * Second))) = true.
Proof.
  apply Earliest_Latest_strictly_monotone.
  - vm_compute. intuition congruence.
  - vm_compute. intuition congruence.
  - vm_compute. intuition congruence.
  - reflexivity.
  - right. vm_compute. intuition congruence.
Defined.

(** C8. [Earliest] and [Latest] are total: for every well-formed record and
    remote timestamp they return a well-formed [Time] (the embedding has no
    error or partial case, as the Go code has no failing path). A [remote]
    before [LastWrite] is ordinary input: the difference is negative and the
    bounds lie that far before [ReadAfter] and [ReadBefore]. *)
Theorem Earliest_Latest_total (skew : Skew) (remote : Time) :
  wfSkew skew -> wfTime remote ->
  (exists local : Time, Earliest skew remote = local /\ wfTime local) /\
  (exists local : Time, Latest skew remote = local /\ wfTime local) /\
  (Before remote (LastWrite skew) = true -> fits skew remote ->
   nanos (Earliest skew remote)
     = nanos (ReadAfter skew) - (nanos (LastWrite skew) - nanos remote) /\
   nanos (Latest skew remote)
     = nanos (ReadBefore skew) - (nanos (LastWrite skew) - nanos remote) /\
   Before (Earliest skew remote) (ReadAfter skew) = true /\
   Before (Latest skew remote) (ReadBefore skew) = true).
Proof.
  intros Hs Hr. split; [| split].
  - eexists. split; [reflexivity | by apply Earliest_wf].
  - eexists. split; [reflexivity | by apply Latest_wf].
  - intros Hb Hf.
    pose proof (Earliest_nanos skew remote Hs Hr Hf) as He.
    pose proof (Latest_nanos skew remote Hs Hr Hf) as Hl.
    destruct Hs as (Hw & Ha & Hb').
    apply Before_nanos in Hb; [| done | done].
    repeat split; try lia.
    + apply Before_nanos; [by apply Earliest_wf | done | lia].
    + apply Before_nanos; [by apply Latest_wf | done | lia].
Qed.

Lemma Earliest_Latest_total_witness :
  wfTime (Earliest (exampleSkew t2015) (Add t2015 (- 10 * Second))) /\
  wfTime (Latest (exampleSkew t2015) (Add t2015 (- 10 * Second))) /\
  Before (Earliest (exampleSkew t2015) (Add t2015 (- 10 * Second)))
         (ReadAfter (exampleSkew t2015)) = true /\
  Before (Latest (exampleSkew t2015) (Add t2015 (- 10 * Second)))
         (ReadBefore (exampleSkew t2015)) = true.
Proof.
  destruct (Earliest_Latest_total (exampleSkew t2015) (Add t2015 (- 10 * Second)))
    as ((e & <- & He) & (l & <- & Hl) & Hneg).
  - vm_compute. intuition congruence.
  - vm_compute. intuition congruence.
  - destruct Hneg as (_ & _ & Hbe & Hbl).
    + reflexivity.
    + vm_compute. intuition congruence.
    + exact (conj He (conj Hl (conj Hbe Hbl))).
Defined.

End LeaseSpec.

(* ===================================================================== *)
(** * Properties of package state: spaces                                *)
(* ===================================================================== *)

Module SpacesSpec.
Import Spaces.

Local Open Scope string_scope.

(** ** Running programs *)

Lemma logged_andThen {A B : Type} (e : Event) (o : Outcome A) (o' : Outcome B) :
  logged e (andThen o o') = andThen (logged e o) o'.
Proof. reflexivity. Qed.

Lemma run_bind {A B : Type} (p : Prog A) (f : A -> Prog B) (w : World) (db : DB) :
  run (bind p f) w db
  = andThen (run p w db)
            (run (f (value (run p w db))) (rest (run p w db)) (store (run p w db))).
Proof.
  revert w db. induction p as [a | ops k IH | c id k IH]; intros w db.
  - simpl. by destruct (run (f a) w db).
  - simpl. rewrite IH. apply logged_andThen.
  - simpl. rewrite IH. apply logged_andThen.
Qed.

Lemma run_runTransaction (st : State) (ops : list txn.Op) (w : World) (db : DB) :
  run (State_runTransaction st ops) w db
  = {| value := (txnStep (next w).1 db (map (resolveOp st) ops)).1;
       store := (txnStep (next w).1 db (map (resolveOp st) ops)).2;
       rest := (next w).2;
       log := [TxnEvent (map (resolveOp st) ops)
                 (txnStep (next w).1 db (map (resolveOp st) ops)).1] |}.
Proof. reflexivity. Qed.

Lemma run_FindId (st : State) (c id : string) (w : World) (db : DB) :
  run (Collection_FindId st c id) w db
  = {| value := (findStep (next w).1 db c (State_docID st id)).1;
       store := (findStep (next w).1 db c (State_docID st id)).2;
       rest := (next w).2;
       log := [FindEvent c (State_docID st id)
                 (findStep (next w).1 db c (State_docID st id)).1] |}.
Proof. reflexivity. Qed.

(** ** Document ids *)

Lemma prefix_app (p s : string) : String.prefix p (p ++ s) = true.
Proof.
  induction p as [| c p IH]; simpl.
  - by destruct s.
  - destruct (Ascii.ascii_dec c c); [exact IH | done].
Qed.

Lemma ensureModelUUID_idem (modelUUID id : string) :
  ensureModelUUID modelUUID (ensureModelUUID modelUUID id)
  = ensureModelUUID modelUUID id.
Proof.
  unfold ensureModelUUID.
  destruct (String.prefix (modelUUID ++ ":") id) eqn:Hp.
  - by rewrite Hp.
  - by rewrite prefix_app.
Qed.

Lemma docID_idem (st : State) (id : string) :
  State_docID st (State_docID st id) = State_docID st id.
Proof. apply ensureModelUUID_idem. Qed.

(** ** Lookups *)

Lemma findStep_found (t : Tick) (db : DB) (c id : string) (d : bsonD) :
  fault t = None -> others t db !! (c, id) = Some d ->
  findStep t db c id = (Ok d, others t db).
Proof. intros Hf Hd. unfold findStep. by rewrite Hf, Hd. Qed.

Lemma findStep_missing (t : Tick) (db : DB) (c id : string) :
  fault t = None -> others t db !! (c, id) = None ->
  findStep t db c id = (Err ErrNotFound, others t db).
Proof. intros Hf Hd. unfold findStep. by rewrite Hf, Hd. Qed.

Lemma findStep_store (t : Tick) (db : DB) (c id : string) :
  (findStep t db c id).2 = others t db.
Proof. unfold findStep. by repeat case_match. Qed.

Lemma txnStep_aborted (t : Tick) (db : DB) (ops : list txn.Op) :
  fault t = None -> applyOps (others t db) ops = None ->
  txnStep t db ops = (Some ErrAborted, others t db).
Proof. intros Hf Ha. unfold txnStep. by rewrite Hf, Ha. Qed.

Lemma txnStep_applied (t : Tick) (db db' : DB) (ops : list txn.Op) :
  fault t = None -> applyOps (others t db) ops = Some db' ->
  txnStep t db ops = (None, db').
Proof. intros Hf Ha. unfold txnStep. by rewrite Hf, Ha. Qed.

Lemma run_State_Space (st : State) (name : string) (w : World) (db : DB) :
  run (State_Space st name) w db
  = let res := findStep (next w).1 db spacesC (State_docID st name) in
    {| value :=
         match res.1 with
         | Err ErrNotFound => Err (NotFoundf "space %q" [name])
         | Err err => Err (Annotatef err "cannot get space %q" [name])
         | Ok d => Ok {| st := st; doc := unmarshalSpace d |}
         end;
       store := res.2;
       rest := (next w).2;
       log := [FindEvent spacesC (State_docID st name) res.1] |}.
Proof.
  unfold State_Space. rewrite run_bind, run_FindId. cbv zeta.
  unfold andThen; simpl.
  destruct (findStep (next w).1 db spacesC (State_docID st name)).1
    as [d | []]; reflexivity.
Qed.

Lemma run_Refresh (s : Space) (w : World) (db : DB) :
  run (Refresh s) w db
  = let res := findStep (next w).1 db spacesC (State_docID (st s) (DocID (doc s))) in
    {| value :=
         match res.1 with
         | Err ErrNotFound => (s, Some (NotFoundf "space %q" [Space_String s]))
         | Err err =>
             (s, Some (Errorf "cannot refresh space %q: %v" [Space_String s; Error err]))
         | Ok d => ({| st := st s; doc := unmarshalSpace d |}, None)
         end;
       store := res.2;
       rest := (next w).2;
       log := [FindEvent spacesC (State_docID (st s) (DocID (doc s))) res.1] |}.
Proof.
  unfold Refresh. rewrite run_bind, run_FindId. cbv zeta.
  unfold andThen; simpl.
  destruct (findStep (next w).1 db spacesC (State_docID (st s) (DocID (doc s)))).1
    as [d | []]; reflexivity.
Qed.

(** ** Documents *)

Lemma getField_setField (d : bsonD) (n : string) (v : bval) :
  getField (setField d n v) n = Some v.
Proof.
  induction d as [| [m u] d IH]; simpl.
  - by rewrite String.eqb_refl.
  - destruct (String.eqb m n) eqn:Hm; simpl; by rewrite Hm.
Qed.

Lemma unmarshal_marshal (doc : spaceDoc) : unmarshalSpace (marshalSpace doc) = doc.
Proof.
  destruct doc as [id uuid life name public pid].
  unfold marshalSpace, unmarshalSpace, stringField, boolField, lifeField; simpl.
  destruct (String.eqb pid EmptyString) eqn:Hp; simpl; [| done].
  apply String.eqb_eq in Hp as ->. done.
Qed.

Lemma marshal_id (doc : spaceDoc) :
  setField (marshalSpace doc) "_id" (BString (DocID doc)) = marshalSpace doc.
Proof. reflexivity. Qed.

(** ** Transactions *)

Lemma applyChange_other (db : DB) (op : txn.Op) (k : string * string) :
  (txn.C op, txn.Id op) <> k -> applyChange db op !! k = db !! k.
Proof.
  intros Hne. unfold applyChange.
  repeat case_match; by rewrite ?lookup_insert_ne, ?lookup_delete_ne.
Qed.

Lemma foldl_applyChange_other (db : DB) (ops : list txn.Op) (k : string * string) :
  Forall (fun op => (txn.C op, txn.Id op) <> k) ops ->
  foldl applyChange db ops !! k = db !! k.
Proof.
  intros Hall. revert db.
  induction Hall as [| op ops Hop _ IH]; intros db; simpl; [done |].
  by rewrite IH, applyChange_other.
Qed.

Lemma resolve_stamp (st : State) (name subnetId : string) :
  resolveOp st (stampSubnetOp st name subnetId) = stampSubnetOp st name subnetId.
Proof. unfold resolveOp, stampSubnetOp; simpl. by rewrite docID_idem. Qed.

Lemma resolve_addSpaceOps (st : State) (name providerId : string)
    (subnets : list string) (isPublic : bool) :
  map (resolveOp st) (addSpaceOps st name providerId subnets isPublic)
  = addSpaceOps st name providerId subnets isPublic.
Proof.
  unfold addSpaceOps. cbv zeta.
  rewrite map_app, map_map.
  rewrite (map_ext _ (stampSubnetOp st name)) by apply resolve_stamp.
  f_equal.
  destruct (negb (String.eqb providerId EmptyString)); simpl;
    unfold resolveOp, State_networkEntityGlobalKeyOp, State_networkEntityGlobalKey;
    simpl; by rewrite !docID_idem.
Qed.

(** Stamping the listed subnets: a stamped subnet stays stamped, an existing
    one stays, and every listed one ends up stamped. *)
Lemma stamp_one (st : State) (name subnetId : string) (db : DB) (d : bsonD) :
  db !! (subnetsC, State_docID st subnetId) = Some d ->
  applyChange db (stampSubnetOp st name subnetId)
  = <[(subnetsC, State_docID st subnetId) :=
        setField d "space-name" (BString name)]> db.
Proof. intros Hd. unfold applyChange, stampSubnetOp; simpl. by rewrite Hd. Qed.

Lemma stamp_keeps_stamped (st : State) (name : string) (subnets : list string)
    (db : DB) (k : string * string) (d : bsonD) :
  db !! k = Some d -> getField d "space-name" = Some (BString name) ->
  exists d', foldl applyChange db (map (stampSubnetOp st name) subnets) !! k = Some d' /\
             getField d' "space-name" = Some (BString name).
Proof.
  revert db d. induction subnets as [| a subnets IH]; intros db d Hd Hs; simpl.
  - by exists d.
  - destruct (decide ((subnetsC, State_docID st a) = k)) as [<- | Hne].
    + rewrite (stamp_one _ _ _ _ _ Hd).
      eapply IH; [apply lookup_insert_eq | apply getField_setField].
    + eapply IH; [| exact Hs]. by rewrite applyChange_other.
Qed.

Lemma stamp_keeps_existing (st : State) (name subnetId : string) (db : DB)
    (k : string * string) :
  is_Some (db !! k) -> is_Some (applyChange db (stampSubnetOp st name subnetId) !! k).
Proof.
  intros Hk.
  destruct (decide ((subnetsC, State_docID st subnetId) = k)) as [<- | Hne].
  - destruct Hk as [d Hd]. rewrite (stamp_one _ _ _ _ _ Hd).
    rewrite lookup_insert_eq. by eexists.
  - by rewrite applyChange_other.
Qed.

Lemma stamps_applied (st : State) (name : string) (subnets : list string) (db : DB) :
  (forall s, s ∈ subnets -> is_Some (db !! (subnetsC, State_docID st s))) ->
  forall s, s ∈ subnets ->
    exists d, foldl applyChange db (map (stampSubnetOp st name) subnets)
                !! (subnetsC, State_docID st s) = Some d /\
              getField d "space-name" = Some (BString name).
Proof.
  revert db. induction subnets as [| a subnets IH]; intros db Hall s Hs.
  - by apply elem_of_nil in Hs.
  - simpl. apply elem_of_cons in Hs as [-> | Hs].
    + destruct (Hall a) as [d Hd]; [by left |].
      rewrite (stamp_one _ _ _ _ _ Hd).
      eapply stamp_keeps_stamped; [apply lookup_insert_eq | apply getField_setField].
    + apply IH; [| done]. intros s' Hs'.
      apply stamp_keeps_existing, Hall. by right.
Qed.

Lemma stamps_hold (st : State) (name : string) (subnets : list string) (db : DB) :
  (forall s, s ∈ subnets -> is_Some (db !! (subnetsC, State_docID st s))) ->
  forallb (holds db) (map (stampSubnetOp st name) subnets) = true.
Proof.
  intros Hall. apply forallb_forall. intros op Hop.
  apply in_map_iff in Hop as (s & <- & Hs).
  destruct (Hall s) as [d Hd]; [by apply list_elem_of_In |].
  unfold holds, stampSubnetOp; simpl. by rewrite Hd.
Qed.

Lemma spaces_not_subnets (x y : string) : (subnetsC, x) <> (spacesC, y).
Proof. unfold subnetsC, spacesC. congruence. Qed.

Lemma spaces_not_providerIDs (x y : string) : (providerIDsC, x) <> (spacesC, y).
Proof. unfold providerIDsC, spacesC. congruence. Qed.

Lemma subnets_not_providerIDs (x y : string) : (providerIDsC, x) <> (subnetsC, y).
Proof. unfold providerIDsC, subnetsC. congruence. Qed.

Lemma stamps_other_collection (st : State) (name : string) (subnets : list string)
    (k : string * string) :
  k.1 <> subnetsC ->
  Forall (fun op => (txn.C op, txn.Id op) <> k) (map (stampSubnetOp st name) subnets).
Proof.
  intros Hk. apply Forall_forall. intros op Hop.
  apply list_elem_of_In, in_map_iff in Hop as (s & <- & _).
  simpl. intros <-. by apply Hk.
Qed.

(** The transaction of [AddSpace] on a store where the id is free, the
    provider id (if any) is unused and the listed subnets exist. *)
Lemma applyOps_addSpace (st : State) (name providerId : string)
    (subnets : list string) (isPublic : bool) (db : DB) :
  db !! (spacesC, State_docID st name) = None ->
  (providerId <> EmptyString ->
   db !! (providerIDsC, State_networkEntityGlobalKey st "space" providerId) = None) ->
  (forall s, s ∈ subnets -> is_Some (db !! (subnetsC, State_docID st s))) ->
  exists db',
    applyOps db (addSpaceOps st name providerId subnets isPublic) = Some db' /\
    db' !! (spacesC, State_docID st name)
      = Some (marshalSpace (newSpaceDoc st name providerId isPublic)) /\
    (providerId <> EmptyString ->
     is_Some (db' !! (providerIDsC, State_networkEntityGlobalKey st "space" providerId))) /\
    (forall s, s ∈ subnets ->
       exists d, db' !! (subnetsC, State_docID st s) = Some d /\
                 getField d "space-name" = Some (BString name)).
Proof.
  intros Hfresh Hprov Hsubnets.
  set (spaceKey := (spacesC, State_docID st name)) in *.
  set (new := marshalSpace (newSpaceDoc st name providerId isPublic)).
  unfold applyOps, addSpaceOps. cbv zeta. fold new.
  destruct (String.eqb providerId EmptyString) eqn:Hp; cbn [negb].
  - (* no provider id *)
    cbn [app forallb foldl map].
    assert (Hins : forall op, op = {| txn.C := spacesC; txn.Id := State_docID st name;
                      txn.Assert := txn.DocMissing; txn.Insert := Some new;
                      txn.Update := None; txn.Remove := false |} ->
                   holds db op = true /\ applyChange db op = <[spaceKey := new]> db).
    { intros op ->. unfold holds, applyChange; cbn [txn.C txn.Id txn.Assert txn.Insert].
      fold spaceKey. rewrite Hfresh. split; [done |].
      unfold new. by rewrite <- (marshal_id (newSpaceDoc st name providerId isPublic)) at 2. }
    destruct (Hins _ eq_refl) as [-> ->]. cbn [andb].
    rewrite stamps_hold by done.
    eexists. split; [reflexivity |]. split; [| split].
    + rewrite foldl_applyChange_other.
      * apply lookup_insert_eq.
      * apply stamps_other_collection. unfold spaceKey; simpl. unfold spacesC, subnetsC. congruence.
    + intros Hne. apply String.eqb_eq in Hp. done.
    + apply stamps_applied. intros s Hs.
      rewrite lookup_insert_ne by apply not_eq_sym, spaces_not_subnets.
      by apply Hsubnets.
  - (* with a provider id *)
    assert (Hpid : providerId <> EmptyString) by (by apply String.eqb_neq).
    specialize (Hprov Hpid).
    set (provKey := (providerIDsC, State_networkEntityGlobalKey st "space" providerId)) in *.
    cbn [app forallb foldl map].
    assert (Hins : forall op, op = {| txn.C := spacesC; txn.Id := State_docID st name;
                      txn.Assert := txn.DocMissing; txn.Insert := Some new;
                      txn.Update := None; txn.Remove := false |} ->
                   holds db op = true /\ applyChange db op = <[spaceKey := new]> db).
    { intros op ->. unfold holds, applyChange; cbn [txn.C txn.Id txn.Assert txn.Insert].
      fold spaceKey. rewrite Hfresh. split; [done |].
      unfold new. by rewrite <- (marshal_id (newSpaceDoc st name providerId isPublic)) at 2. }
    destruct (Hins _ eq_refl) as [-> ->]. cbn [andb].
    assert (Hpr : holds db (State_networkEntityGlobalKeyOp st "space" providerId) = true /\
                  applyChange (<[spaceKey := new]> db)
                    (State_networkEntityGlobalKeyOp st "space" providerId)
                  = <[provKey := [("_id", BString provKey.2)]]> (<[spaceKey := new]> db)).
    { unfold holds, applyChange, State_networkEntityGlobalKeyOp;
        cbn [txn.C txn.Id txn.Assert txn.Insert]. fold provKey.
      rewrite lookup_insert_ne by apply not_eq_sym, spaces_not_providerIDs.
      rewrite Hprov. split; reflexivity. }
    destruct Hpr as [-> ->]. cbn [andb].
    rewrite stamps_hold by done.
    eexists. split; [reflexivity |]. split; [| split].
    + rewrite foldl_applyChange_other.
      * rewrite lookup_insert_ne by apply spaces_not_providerIDs.
        apply lookup_insert_eq.
      * apply stamps_other_collection. unfold spaceKey; simpl. unfold spacesC, subnetsC. congruence.
    + intros _. rewrite foldl_applyChange_other.
      * rewrite lookup_insert_eq. by eexists.
      * apply stamps_other_collection. unfold provKey; simpl.
        unfold providerIDsC, subnetsC. congruence.
    + apply stamps_applied. intros s Hs.
      rewrite lookup_insert_ne by apply subnets_not_providerIDs.
      rewrite lookup_insert_ne by apply not_eq_sym, spaces_not_subnets.
      by apply Hsubnets.
Qed.

(** ** Programs that only read *)

Lemma isolated_next (w : World) :
  isolated w -> (forall db, others (next w).1 db = db) /\ isolated (next w).2.
Proof.
  intros Hw. destruct w as [| t w]; simpl.
  - split; [done | constructor].
  - by inversion Hw.
Qed.

Lemma readOnly_bind {A B : Type} (p : Prog A) (f : A -> Prog B) :
  readOnly p -> (forall a, readOnly (f a)) -> readOnly (bind p f).
Proof.
  intros Hp Hf. induction p as [a | ops k IH | c id k IH]; simpl in *.
  - apply Hf.
  - done.
  - intros r. apply IH, Hp.
Qed.

Lemma run_readOnly {A : Type} (p : Prog A) (w : World) (db : DB) :
  readOnly p -> isolated w ->
  store (run p w db) = db /\ isolated (rest (run p w db)).
Proof.
  revert w db. induction p as [a | ops k IH | c id k IH]; intros w db Hp Hw; simpl in *.
  - done.
  - done.
  - destruct (isolated_next w Hw) as [Hnext Hrest].
    rewrite findStep_store, Hnext. by apply IH.
Qed.

Lemma log_readOnly {A : Type} (p : Prog A) (w : World) (db : DB) :
  readOnly p -> Forall isFind (log (run p w db)).
Proof.
  revert w db. induction p as [a | ops k IH | c id k IH]; intros w db Hp; simpl in *.
  - constructor.
  - done.
  - constructor; [exact I | by apply IH].
Qed.

Lemma readOnly_FindId (st : State) (c id : string) : readOnly (Collection_FindId st c id).
Proof. by intros r. Qed.

Lemma readOnly_Space (st : State) (name : string) : readOnly (State_Space st name).
Proof.
  apply readOnly_bind; [apply readOnly_FindId |].
  by intros [d | []].
Qed.

Lemma readOnly_Subnet (st : State) (cidr : string) : readOnly (State_Subnet st cidr).
Proof.
  apply readOnly_bind; [apply readOnly_FindId |].
  by intros [d | []].
Qed.

Lemma readOnly_Refresh (s : Space) : readOnly (Refresh s).
Proof.
  apply readOnly_bind; [apply readOnly_FindId |].
  by intros [d | []].
Qed.

Lemma readOnly_missingSubnet (st : State) (subnets : list string) :
  readOnly (missingSubnet st subnets).
Proof.
  induction subnets as [| a subnets IH]; cbn [missingSubnet]; [done |].
  apply readOnly_bind; [apply readOnly_Subnet |].
  intros [d | err]; [done |]. by destruct (IsNotFound err).
Qed.

Lemma readOnly_refreshNew (providerId : string) (newSpace : Space) :
  readOnly (refreshNew providerId newSpace).
Proof.
  apply readOnly_bind; [apply readOnly_Refresh |].
  intros [s [err |]]; simpl; [| done]. by destruct (IsNotFound err).
Qed.

Lemma readOnly_classifyAbort (st : State) (name providerId : string)
    (subnets : list string) (newSpace : Space) :
  readOnly (classifyAbort st name providerId subnets newSpace).
Proof.
  apply readOnly_bind; [apply readOnly_Space |].
  intros [s | err]; [done |].
  apply readOnly_bind; [apply readOnly_missingSubnet |].
  intros [e |]; [done | apply readOnly_refreshNew].
Qed.

(** A transaction in an isolated world: applied, or the store is as it was. *)
Lemma txnStep_isolated (t : Tick) (db : DB) (ops : list txn.Op) :
  (forall db, others t db = db) ->
  (applyOps db ops = Some (txnStep t db ops).2 /\ (txnStep t db ops).1 = None) \/
  ((txnStep t db ops).2 = db /\ exists err, (txnStep t db ops).1 = Some err).
Proof.
  intros Hq. unfold txnStep. rewrite Hq.
  destruct (fault t) as [msg |]; simpl; [right; eauto |].
  destruct (applyOps db ops) as [db' |] eqn:Ha; simpl; [left | right]; eauto.
Qed.

(** ** The transactions of [EnsureDead] and [Remove] *)

Lemma matches_life (l : Life) (d : bsonD) :
  matches [("life", BLife l)] d = bool_decide (getField d "life" = Some (BLife l)).
Proof. unfold matches; simpl. by rewrite andb_true_r. Qed.

Lemma applyOps_ensureDead (s : Space) (db : DB) :
  applyOps db (map (resolveOp (st s)) [ensureDeadOp s])
  = match db !! spaceKey s with
    | Some d =>
        if bool_decide (getField d "life" = Some (BLife Alive))
        then Some (<[spaceKey s := setField d "life" (BLife Dead)]> db)
        else None
    | None => None
    end.
Proof.
  unfold applyOps, holds, applyChange, ensureDeadOp, resolveOp, isAliveDoc.
  cbn [map forallb foldl txn.C txn.Id txn.Assert txn.Insert txn.Update txn.Remove].
  fold (spaceKey s).
  destruct (db !! spaceKey s) as [d |]; [| done].
  rewrite matches_life, andb_true_r.
  by destruct (bool_decide (getField d "life" = Some (BLife Alive))).
Qed.

Lemma resolve_providerKey (s : Space) :
  (providerIDsC,
   State_docID (st s) (State_networkEntityGlobalKey (st s) "space" (Space_ProviderId s)))
  = providerKey s.
Proof.
  unfold providerKey, State_networkEntityGlobalKey. by rewrite docID_idem.
Qed.

Lemma applyOps_remove (s : Space) (db : DB) :
  applyOps db (map (resolveOp (st s)) (removeOps s))
  = match db !! spaceKey s with
    | Some d =>
        if bool_decide (getField d "life" = Some (BLife Dead))
        then Some (removed s db)
        else None
    | None => None
    end.
Proof.
  unfold applyOps, removeOps, removed. cbv zeta.
  destruct (negb (String.eqb (Space_ProviderId s) EmptyString));
    unfold holds, applyChange, removeOp, resolveOp, isDeadDoc,
      State_networkEntityGlobalKeyRemoveOp;
    cbn [app map forallb foldl txn.C txn.Id txn.Assert txn.Insert txn.Update txn.Remove];
    rewrite ?resolve_providerKey; fold (spaceKey s);
    (destruct (db !! spaceKey s) as [d |]; [| done]);
    rewrite matches_life, ?andb_true_r;
    by destruct (bool_decide (getField d "life" = Some (BLife Dead))).
Qed.

Lemma run_EnsureDead_not_dead (s : Space) (w : World) (db : DB) :
  DocLife (doc s) <> Dead ->
  run (EnsureDead s) w db
  = let res := txnStep (next w).1 db (map (resolveOp (st s)) [ensureDeadOp s]) in
    {| value :=
         match res.1 with
         | None => (setLife s Dead, None)
         | Some txnErr =>
             (s, Some (Annotatef (onAbort txnErr errNotAlive)
                         "cannot set space %q to dead" [Space_String s]))
         end;
       store := res.2;
       rest := (next w).2;
       log := [TxnEvent (map (resolveOp (st s)) [ensureDeadOp s]) res.1] |}.
Proof.
  intros Hlife. unfold EnsureDead.
  rewrite bool_decide_eq_false_2 by done. cbv zeta.
  rewrite !run_bind, run_runTransaction.
  unfold andThen. cbn [value store rest log].
  by destruct (txnStep _ _ _).1.
Qed.

Lemma run_EnsureDead_dead (s : Space) (w : World) (db : DB) :
  DocLife (doc s) = Dead ->
  run (EnsureDead s) w db = {| value := (s, None); store := db; rest := w; log := [] |}.
Proof.
  intros Hlife. unfold EnsureDead.
  by rewrite bool_decide_eq_true_2.
Qed.

Lemma run_Remove_dead (s : Space) (w : World) (db : DB) :
  DocLife (doc s) = Dead ->
  run (Remove s) w db
  = let res := txnStep (next w).1 db (map (resolveOp (st s)) (removeOps s)) in
    {| value :=
         match res.1 with
         | None => None
         | Some txnErr =>
             Some (Annotatef (onAbort txnErr (New "not found or not dead"))
                     "cannot remove space %q" [Space_String s])
         end;
       store := res.2;
       rest := (next w).2;
       log := [TxnEvent (map (resolveOp (st s)) (removeOps s)) res.1] |}.
Proof.
  intros Hlife. unfold Remove.
  rewrite bool_decide_eq_true_2 by done. cbn [negb]. cbv zeta.
  rewrite !run_bind, run_runTransaction.
  unfold andThen. cbn [value store rest log].
  by destruct (txnStep _ _ _).1.
Qed.

Lemma run_Remove_not_dead (s : Space) (w : World) (db : DB) :
  DocLife (doc s) <> Dead ->
  run (Remove s) w db
  = {| value := Some (Annotatef (New "space is not dead")
                        "cannot remove space %q" [Space_String s]);
       store := db; rest := w; log := [] |}.
Proof.
  intros Hlife. unfold Remove.
  by rewrite bool_decide_eq_false_2.
Qed.

Section WithNames.

Variable IsValidSpace : string -> bool.

(** [AddSpace] alone on the store: either its transaction applied and it
    returned the new space, or it returned an error and changed nothing. *)
Lemma AddSpace_outcome (st : State) (name providerId : string)
    (subnets : list string) (isPublic : bool) (w : World) (db : DB) :
  isolated w ->
  let o := run (AddSpace IsValidSpace st name providerId subnets isPublic) w db in
  (applyOps db (addSpaceOps st name providerId subnets isPublic) = Some (store o) /\
   value o = Ok (newSpaceOf st name providerId isPublic)) \/
  (store o = db /\ exists err, value o = Err err).
Proof.
  intros Hw o. subst o. unfold AddSpace.
  destruct (IsValidSpace name); cbn [negb]; [| right; simpl; eauto].
  cbv zeta. rewrite !run_bind, run_runTransaction, resolve_addSpaceOps.
  cbn [value store rest log andThen].
  destruct (isolated_next w Hw) as [Hnext Hrest].
  destruct (txnStep_isolated (next w).1 db
              (addSpaceOps st name providerId subnets isPublic) Hnext)
    as [[Happlied Hres] | [Hsame [err Hres]]]; rewrite Hres.
  - left. simpl. done.
  - right. rewrite Hsame.
    destruct err; try (simpl; by eauto).
    destruct (run_readOnly
                (classifyAbort st name providerId subnets
                   (newSpaceOf st name providerId isPublic))
                (next w).2 db (readOnly_classifyAbort _ _ _ _ _) Hrest) as [-> _].
    split; [done |].
    destruct (value (run _ _ _)) as [s | e] eqn:Hv; simpl; [| eauto].
    exfalso. revert Hv.
    unfold classifyAbort. rewrite run_bind. cbn [andThen value].
    destruct (value (run (State_Space st name) _ _)); [done |].
    rewrite run_bind. cbn [andThen value].
    destruct (value (run (missingSubnet st subnets) _ _)); [done |].
    unfold refreshNew. rewrite run_bind. cbn [andThen value].
    destruct (value (run (Refresh _) _ _)).2 as [e |]; [| done].
    by destruct (IsNotFound e).
Qed.

(** ** Claims on [AddSpace] *)

(** C10. For a name that is not a valid space name, [AddSpace] is the
    program that returns a NotValid error at once: whatever the world and
    the store, the error satisfies [errors.IsNotValid], no call on the store
    is made, and the store is left as it was. *)
Theorem AddSpace_invalid_name (st : State) (name providerId : string)
    (subnets : list string) (isPublic : bool) :
  IsValidSpace name = false ->
  AddSpace IsValidSpace st name providerId subnets isPublic
    = Ret (Err (Annotatef (NewNotValid "invalid space name") "adding space %q" [name])) /\
  forall (w : World) (db : DB),
    let o := run (AddSpace IsValidSpace st name providerId subnets isPublic) w db in
    (exists err, value o = Err err /\ IsNotValid err = true) /\
    log o = [] /\ store o = db /\ rest o = w.
Proof.
  intros Hinvalid.
  assert (Hprog : AddSpace IsValidSpace st name providerId subnets isPublic
    = Ret (Err (Annotatef (NewNotValid "invalid space name") "adding space %q" [name]))).
  { unfold AddSpace. by rewrite Hinvalid. }
  split; [exact Hprog |].
  intros w db o. subst o. rewrite Hprog. simpl.
  repeat split. by eexists.
Qed.

(** C3 (amended). For a valid name and a fresh id, when every listed subnet
    exists, the provider id (if any) is not registered yet and the call does
    not fail in the driver, [AddSpace] succeeds with a space whose life is
    Alive, and an immediate [Refresh] reports it Alive. The run made one
    call, a single transaction; its first operation inserts the space
    document under a document-missing assertion on the target id, and for
    every listed subnet it holds an operation asserting that the subnet
    exists and setting its space name. After the run the space document and
    every stamp are in the store together. On every run the transaction is
    the first call and the only one that is not a lookup; and a run on its
    own either applied that whole transaction or returned an error and
    changed nothing. *)
Theorem AddSpace_fresh (st : State) (name providerId : string)
    (subnets : list string) (isPublic : bool) (t : Tick) (w : World) (db : DB) :
  let ops := addSpaceOps st name providerId subnets isPublic in
  let newSpace := newSpaceOf st name providerId isPublic in
  let o := run (AddSpace IsValidSpace st name providerId subnets isPublic) (t :: w) db in
  let refreshed := run (Refresh newSpace) [] (store o) in
  IsValidSpace name = true ->
  fault t = None ->
  others t db !! (spacesC, State_docID st name) = None ->
  (providerId <> EmptyString ->
   others t db !! (providerIDsC, State_networkEntityGlobalKey st "space" providerId)
     = None) ->
  (forall s, s ∈ subnets -> is_Some (others t db !! (subnetsC, State_docID st s))) ->
  (value o = Ok newSpace /\ Space_Life newSpace = Alive) /\
  (value refreshed = (newSpace, None) /\ Space_Life (value refreshed).1 = Alive) /\
  log o = [TxnEvent ops None] /\
  head ops = Some {| txn.C := spacesC;
                     txn.Id := State_docID st name;
                     txn.Assert := txn.DocMissing;
                     txn.Insert := Some (marshalSpace (doc newSpace));
                     txn.Update := None; txn.Remove := false |} /\
  (forall s, s ∈ subnets ->
     {| txn.C := subnetsC;
        txn.Id := State_docID st s;
        txn.Assert := txn.DocExists;
        txn.Update := Some (DollarSet [("space-name", BString name)]);
        txn.Insert := None; txn.Remove := false |} ∈ ops) /\
  store o !! (spacesC, State_docID st name) = Some (marshalSpace (doc newSpace)) /\
  (forall s, s ∈ subnets ->
     exists d, store o !! (subnetsC, State_docID st s) = Some d /\
               getField d "space-name" = Some (BString name)) /\
  (forall (w' : World) (db' : DB),
     let o' := run (AddSpace IsValidSpace st name providerId subnets isPublic) w' db' in
     (exists res reads, log o' = TxnEvent ops res :: reads /\ Forall isFind reads) /\
     (isolated w' ->
      (applyOps db' ops = Some (store o') /\ value o' = Ok newSpace) \/
      (store o' = db' /\ exists err, value o' = Err err))).
Proof.
  intros ops newSpace o refreshed Hvalid Hfault Hfresh Hprov Hsubnets.
  destruct (applyOps_addSpace st name providerId subnets isPublic (others t db)
              Hfresh Hprov Hsubnets) as (db2 & Happly & Hspace & _ & Hstamped).
  assert (Ho : o = {| value := Ok newSpace; store := db2; rest := w;
                      log := [TxnEvent ops None] |}).
  { subst o. unfold AddSpace. rewrite Hvalid. cbn [negb]. cbv zeta.
    rewrite !run_bind, run_runTransaction, resolve_addSpaceOps.
    cbn [next fst snd value store rest log andThen].
    fold ops. rewrite (txnStep_applied t db db2 ops Hfault Happly). reflexivity. }
  assert (Hrefreshed : value refreshed = (newSpace, None)).
  { subst refreshed. rewrite run_Refresh. cbv zeta. cbn [value next fst].
    rewrite (findStep_found quiet _ _ _ (marshalSpace (doc newSpace))); [| done |].
    - cbn [fst]. by rewrite unmarshal_marshal.
    - rewrite Ho. cbn [store others quiet]. unfold newSpace, newSpaceOf, newSpaceDoc.
      cbn [Spaces.doc Spaces.st DocID]. rewrite docID_idem. exact Hspace. }
  split; [by rewrite Ho |].
  split; [by rewrite Hrefreshed |].
  split; [by rewrite Ho |].
  split.
  { unfold ops, addSpaceOps. cbv zeta.
    by destruct (negb (String.eqb providerId EmptyString)). }
  split.
  { intros s Hs. unfold ops, addSpaceOps. cbv zeta.
    apply elem_of_app. right.
    apply list_elem_of_In, in_map_iff. exists s. split; [done |].
    by apply list_elem_of_In. }
  split; [by rewrite Ho |].
  split; [by rewrite Ho |].
  intros w' db' o'. split; [| intros Hw'; by apply AddSpace_outcome].
  subst o'. unfold AddSpace. rewrite Hvalid. cbn [negb]. cbv zeta.
  rewrite !run_bind, run_runTransaction, resolve_addSpaceOps.
  cbn [value store rest log andThen app]. fold ops newSpace.
  eexists _, _. split; [reflexivity |].
  apply Forall_app. split; [| constructor].
  destruct (txnStep (next w').1 db' ops).1 as [[] |]; try (by constructor).
  apply log_readOnly, readOnly_classifyAbort.
Qed.

End WithNames.

(** ** Life never moves back *)

Lemma EnsureDead_store (s : Space) (w : World) (db : DB) :
  isolated w ->
  store (run (EnsureDead s) w db) = db \/
  exists d, db !! spaceKey s = Some d /\
            getField d "life" = Some (BLife Alive) /\
            store (run (EnsureDead s) w db)
              = <[spaceKey s := setField d "life" (BLife Dead)]> db.
Proof.
  intros Hw. destruct (decide (DocLife (doc s) = Dead)) as [Hd | Hd].
  - left. by rewrite run_EnsureDead_dead.
  - rewrite run_EnsureDead_not_dead by done. cbv zeta. cbn [store].
    destruct (isolated_next w Hw) as [Hnext _].
    destruct (txnStep_isolated (next w).1 db
                (map (resolveOp (st s)) [ensureDeadOp s]) Hnext)
      as [[Happlied _] | [Hsame _]]; [| by left].
    right. rewrite applyOps_ensureDead in Happlied.
    destruct (db !! spaceKey s) as [d |]; [| done].
    destruct (bool_decide_reflect (getField d "life" = Some (BLife Alive)));
      [| done].
    exists d. split; [done |]. split; [done |]. congruence.
Qed.

Lemma Remove_store (s : Space) (w : World) (db : DB) :
  isolated w ->
  store (run (Remove s) w db) = db \/
  store (run (Remove s) w db) = removed s db.
Proof.
  intros Hw. destruct (decide (DocLife (doc s) = Dead)) as [Hd | Hd].
  - rewrite run_Remove_dead by done. cbv zeta. cbn [store].
    destruct (isolated_next w Hw) as [Hnext _].
    destruct (txnStep_isolated (next w).1 db
                (map (resolveOp (st s)) (removeOps s)) Hnext)
      as [[Happlied _] | [Hsame _]]; [| by left].
    right. rewrite applyOps_remove in Happlied.
    destruct (db !! spaceKey s) as [d |]; [| done].
    destruct (bool_decide (getField d "life" = Some (BLife Dead))); congruence.
  - left. by rewrite run_Remove_not_dead.
Qed.

Lemma removed_lookup (s : Space) (db : DB) (k : string * string) (d : bsonD) :
  removed s db !! k = Some d -> db !! k = Some d.
Proof.
  unfold removed.
  destruct (negb (String.eqb (Space_ProviderId s) EmptyString)); intros Hk.
  - apply lookup_delete_Some in Hk as [_ Hk].
    by apply lookup_delete_Some in Hk as [_ Hk].
  - by apply lookup_delete_Some in Hk as [_ Hk].
Qed.

Lemma applyOps_addSpace_keeps (st : State) (name providerId : string)
    (subnets : list string) (isPublic : bool) (db db' : DB) (id : string) (d : bsonD) :
  applyOps db (addSpaceOps st name providerId subnets isPublic) = Some db' ->
  db !! (spacesC, id) = Some d ->
  db' !! (spacesC, id) = Some d.
Proof.
  unfold applyOps. intros Happly Hd.
  destruct (forallb _ _) eqn:Hholds; [| done].
  injection Happly as <-.
  rewrite foldl_applyChange_other; [done |].
  assert (Hfree : db !! (spacesC, State_docID st name) = None).
  { rewrite forallb_forall in Hholds.
    assert (Hin : In {| txn.C := spacesC; txn.Id := State_docID st name;
                        txn.Assert := txn.DocMissing;
                        txn.Insert := Some (marshalSpace
                                              (newSpaceDoc st name providerId isPublic));
                        txn.Update := None; txn.Remove := false |}
                     (addSpaceOps st name providerId subnets isPublic)).
    { unfold addSpaceOps. cbv zeta. apply in_or_app. left.
      destruct (negb (String.eqb providerId EmptyString)); simpl; by left. }
    apply Hholds in Hin. unfold holds in Hin. cbn [txn.C txn.Id txn.Assert] in Hin.
    by destruct (db !! (spacesC, State_docID st name)). }
  unfold addSpaceOps. cbv zeta.
  apply Forall_app. split.
  - destruct (negb (String.eqb providerId EmptyString)); cbn [app].
    + repeat constructor; cbn [txn.C txn.Id].
      * intros [= Heq]. rewrite Heq in Hfree. congruence.
      * apply spaces_not_providerIDs.
    + repeat constructor; cbn [txn.C txn.Id].
      intros [= Heq]. rewrite Heq in Hfree. congruence.
  - apply stamps_other_collection. simpl. unfold spacesC, subnetsC. congruence.
Qed.

Lemma lifeAt_Some (db : DB) (id : string) :
  is_Some (db !! (spacesC, id)) -> is_Some (lifeAt db id).
Proof. unfold lifeAt. intros [d ->]. by eexists. Qed.

Lemma lifeAt_lookup (db : DB) (id : string) (l : Life) :
  lifeAt db id = Some l ->
  exists d, db !! (spacesC, id) = Some d /\ DocLife (unmarshalSpace d) = l.
Proof.
  unfold lifeAt. destruct (db !! (spacesC, id)) as [d |]; [| done].
  intros [= <-]. by exists d.
Qed.

Lemma step_monotone (IsValidSpace : string -> bool) (db db' : DB) (id : string)
    (l l' : Life) :
  step IsValidSpace db db' ->
  lifeAt db id = Some l -> lifeAt db' id = Some l' ->
  lifeRank l <= lifeRank l'.
Proof.
  intros Hstep Hl Hl'.
  apply lifeAt_lookup in Hl as (d & Hd & <-).
  destruct Hstep as [st name providerId subnets isPublic w Hw | s w Hw | s w Hw].
  - destruct (AddSpace_outcome IsValidSpace st name providerId subnets isPublic w db Hw)
      as [[Happlied _] | [Hsame _]].
    + unfold lifeAt in Hl'.
      rewrite (applyOps_addSpace_keeps _ _ _ _ _ _ _ _ _ Happlied Hd) in Hl'.
      injection Hl' as <-. done.
    + unfold lifeAt in Hl'. rewrite Hsame, Hd in Hl'. injection Hl' as <-. done.
  - destruct (EnsureDead_store s w db Hw) as [Hsame | (d0 & Hd0 & Halive & Hstore)].
    + unfold lifeAt in Hl'. rewrite Hsame, Hd in Hl'. injection Hl' as <-. done.
    + unfold lifeAt in Hl'. rewrite Hstore in Hl'.
      destruct (decide (spaceKey s = (spacesC, id))) as [Heq | Hne].
      * rewrite Heq in Hd0. rewrite Hd0 in Hd. injection Hd as <-.
        unfold unmarshalSpace, lifeField; cbn [DocLife]. rewrite Halive.
        simpl. lia.
      * rewrite lookup_insert_ne, Hd in Hl' by done. injection Hl' as <-. done.
  - destruct (Remove_store s w db Hw) as [Hsame | Hremoved].
    + unfold lifeAt in Hl'. rewrite Hsame, Hd in Hl'. injection Hl' as <-. done.
    + apply lifeAt_lookup in Hl' as (d' & Hd' & <-).
      rewrite Hremoved in Hd'. apply removed_lookup in Hd'.
      rewrite Hd in Hd'. injection Hd' as <-. done.
Qed.

(** C6. The life of a stored space document never moves back. One
    operation ([AddSpace], [EnsureDead] or [Remove], with any arguments, run
    by one actor) never lowers the life of a document that is stored before
    and after it; and along any sequence of such operations during which the
    document under an id stays stored, its life only moves forward: from Dead
    it stays Dead, and from Dying it never returns to Alive. (A removed
    document is gone; an [AddSpace] of the same name afterwards inserts a new
    document, which the missing-document assertion allows only then.) *)
Theorem life_monotonic (IsValidSpace : string -> bool) :
  (forall (db db' : DB) (id : string) (l l' : Life),
     step IsValidSpace db db' ->
     lifeAt db id = Some l -> lifeAt db' id = Some l' ->
     lifeRank l <= lifeRank l') /\
  (forall (id : string) (db db' : DB) (l l' : Life),
     rtc (stepKeeping IsValidSpace id) db db' ->
     lifeAt db id = Some l -> lifeAt db' id = Some l' ->
     lifeRank l <= lifeRank l' /\
     (l = Dead -> l' = Dead) /\
     (l = Dying -> l' <> Alive)).
Proof.
  split; [intros; by eapply step_monotone |].
  intros id db db' l l' Hsteps Hl Hl'.
  assert (Hrank : lifeRank l <= lifeRank l').
  { revert l Hl. induction Hsteps as [db | db db1 db' [Hstep Hkept] _ IH]; intros l Hl.
    - rewrite Hl in Hl'. by injection Hl' as <-.
    - destruct (lifeAt_Some db1 id Hkept) as [l1 Hl1].
      pose proof (step_monotone IsValidSpace db db1 id l l1 Hstep Hl Hl1).
      specialize (IH Hl' l1 Hl1). lia. }
  split; [done |]. split.
  - intros ->. destruct l'; simpl in Hrank; (done || lia).
  - intros -> ->. simpl in Hrank. lia.
Qed.

(** ** Claims on [EnsureDead] and [Remove] *)

(** C4. [EnsureDead] on a space that is already Dead succeeds without any
    call and changes nothing. Otherwise it runs one transaction whose only
    operation asserts that the stored life is Alive and sets it to Dead: when
    the stored life is Alive the call succeeds, the stored life and the
    space's life become Dead; when the stored life is no longer Alive or the
    document is gone, the call fails with the NotAlive error and changes
    nothing. A call repeated after a success succeeds again as a no-op and
    leaves the store, hence the life, unchanged. *)
Theorem EnsureDead_spec (s : Space) (t : Tick) (w : World) (db : DB) :
  let o := run (EnsureDead s) (t :: w) db in
  let again := run (EnsureDead (value o).1) (rest o) (store o) in
  (DocLife (doc s) = Dead ->
   value o = (s, None) /\ log o = [] /\ store o = db) /\
  (DocLife (doc s) <> Dead ->
   (exists res, log o = [TxnEvent [resolveOp (st s) (ensureDeadOp s)] res]) /\
   txn.Assert (ensureDeadOp s) = txn.Selector [("life", BLife Alive)] /\
   txn.Update (ensureDeadOp s) = Some (DollarSet [("life", BLife Dead)]) /\
   (forall d, fault t = None ->
      others t db !! spaceKey s = Some d ->
      getField d "life" = Some (BLife Alive) ->
      value o = (setLife s Dead, None) /\
      store o = <[spaceKey s := setField d "life" (BLife Dead)]> (others t db) /\
      lifeAt (store o) (spaceKey s).2 = Some Dead) /\
   (fault t = None ->
    (others t db !! spaceKey s = None \/
     exists d, others t db !! spaceKey s = Some d /\
               getField d "life" <> Some (BLife Alive)) ->
    exists err, value o = (s, Some err) /\ Cause err = errNotAlive /\
                store o = others t db)) /\
  ((value o).2 = None ->
   value again = ((value o).1, None) /\ log again = [] /\ store again = store o).
Proof.
  intros o again. split; [| split].
  - intros Hdead. subst o. by rewrite run_EnsureDead_dead.
  - intros Hlife. subst o again. rewrite run_EnsureDead_not_dead by done.
    cbv zeta. cbn [next fst snd value store rest log map].
    split; [by eexists |]. split; [done |]. split; [done |]. split.
    + intros d Hf Hd Halive. unfold txnStep. rewrite Hf.
      change [resolveOp (st s) (ensureDeadOp s)]
        with (map (resolveOp (st s)) [ensureDeadOp s]).
      rewrite applyOps_ensureDead, Hd, bool_decide_eq_true_2 by done.
      cbn [fst snd]. split; [done |]. split; [done |].
      unfold lifeAt, spaceKey. cbn [snd]. rewrite lookup_insert_eq.
      unfold unmarshalSpace, lifeField; simpl. by rewrite getField_setField.
    + intros Hf Hstored. unfold txnStep. rewrite Hf.
      change [resolveOp (st s) (ensureDeadOp s)]
        with (map (resolveOp (st s)) [ensureDeadOp s]).
      rewrite applyOps_ensureDead.
      destruct Hstored as [-> | (d & -> & Hd)].
      * cbn [fst snd]. by eexists.
      * rewrite bool_decide_eq_false_2 by done. cbn [fst snd]. by eexists.
  - intros Hok. subst again.
    assert (Hdead : DocLife (doc (value o).1) = Dead).
    { subst o. destruct (decide (DocLife (doc s) = Dead)) as [Hd | Hd].
      - by rewrite run_EnsureDead_dead.
      - revert Hok. rewrite run_EnsureDead_not_dead by done.
        cbv zeta. cbn [value]. by destruct (txnStep _ _ _).1. }
    by rewrite run_EnsureDead_dead.
Qed.

(** C5. [Remove] on a space whose life is Alive or Dying fails with the
    error "space is not dead" without any call. On a Dead space whose stored
    document is gone or has a life other than Dead, it fails with the error
    "not found or not dead" and changes nothing. On a Dead space whose stored
    document is Dead it succeeds. It succeeds only then; and after a
    successful [Remove] the document is gone, the index entry of its provider
    id (when one is set) is gone with it, and a [Refresh] of the same space
    returns a not-found error. *)
Theorem Remove_spec (s : Space) (t : Tick) (w : World) (db : DB) :
  let o := run (Remove s) (t :: w) db in
  let refreshed := run (Refresh s) [] (store o) in
  (DocLife (doc s) = Alive \/ DocLife (doc s) = Dying ->
   (exists err, value o = Some err /\ Cause err = New "space is not dead") /\
   log o = [] /\ store o = db) /\
  (DocLife (doc s) = Dead -> fault t = None ->
   (others t db !! spaceKey s = None \/
    exists d, others t db !! spaceKey s = Some d /\
              getField d "life" <> Some (BLife Dead)) ->
   (exists err, value o = Some err /\ Cause err = New "not found or not dead") /\
   store o = others t db) /\
  (DocLife (doc s) = Dead -> fault t = None ->
   forall d, others t db !! spaceKey s = Some d ->
     getField d "life" = Some (BLife Dead) ->
     value o = None) /\
  (value o = None ->
   (DocLife (doc s) = Dead /\
    exists d, others t db !! spaceKey s = Some d /\
              getField d "life" = Some (BLife Dead)) /\
   log o = [TxnEvent (map (resolveOp (st s)) (removeOps s)) None] /\
   store o !! spaceKey s = None /\
   (Space_ProviderId s <> EmptyString -> store o !! providerKey s = None) /\
   exists err, (value refreshed).2 = Some err /\ IsNotFound err = true).
Proof.
  intros o refreshed.
  assert (Hrun : DocLife (doc s) = Dead -> fault t = None ->
            forall d, others t db !! spaceKey s = Some d ->
              getField d "life" = Some (BLife Dead) ->
              o = {| value := None; store := removed s (others t db); rest := w;
                     log := [TxnEvent (map (resolveOp (st s)) (removeOps s)) None] |}).
  { intros Hdead Hf d Hd Hlife. subst o. rewrite run_Remove_dead by done.
    cbv zeta. cbn [next fst snd]. unfold txnStep. rewrite Hf.
    by rewrite applyOps_remove, Hd, bool_decide_eq_true_2. }
  split; [| split; [| split]].
  - intros Hlife.
    assert (Hnot : DocLife (doc s) <> Dead) by (destruct Hlife; congruence).
    subst o. rewrite run_Remove_not_dead by done. cbn [value store log].
    split; [by eexists | done].
  - intros Hdead Hf Hstored. subst o. rewrite run_Remove_dead by done.
    cbv zeta. cbn [next fst snd value store]. unfold txnStep. rewrite Hf.
    rewrite applyOps_remove.
    destruct Hstored as [-> | (d & -> & Hd)].
    + cbn [fst snd]. split; [by eexists | done].
    + rewrite bool_decide_eq_false_2 by done. cbn [fst snd].
      split; [by eexists | done].
  - intros Hdead Hf d Hd Hlife. by rewrite (Hrun Hdead Hf d Hd Hlife).
  - intros Hok.
    assert (Hfrom : DocLife (doc s) = Dead /\ fault t = None /\
                    exists d, others t db !! spaceKey s = Some d /\
                              getField d "life" = Some (BLife Dead)).
    { subst o. destruct (decide (DocLife (doc s) = Dead)) as [Hdead | Hnot].
      - split; [done |]. revert Hok. rewrite run_Remove_dead by done.
        cbv zeta. cbn [next fst snd value]. unfold txnStep.
        destruct (fault t); [done |]. rewrite applyOps_remove.
        destruct (others t db !! spaceKey s) as [d |]; [| done].
        destruct (bool_decide_reflect (getField d "life" = Some (BLife Dead)));
          [by eauto | done].
      - by rewrite run_Remove_not_dead in Hok. }
    destruct Hfrom as (Hdead & Hf & d & Hd & Hlife).
    specialize (Hrun Hdead Hf d Hd Hlife).
    assert (Hgone : store o !! spaceKey s = None).
    { rewrite Hrun. cbn [store]. unfold removed.
      destruct (negb (String.eqb (Space_ProviderId s) EmptyString)).
      - rewrite lookup_delete_ne by apply spaces_not_providerIDs.
        apply lookup_delete_eq.
      - apply lookup_delete_eq. }
    split; [by eauto |]. split; [by rewrite Hrun |]. split; [done |]. split.
    + intros Hpid. rewrite Hrun. cbn [store]. unfold removed.
      rewrite (proj2 (String.eqb_neq _ _) Hpid). cbn [negb].
      apply lookup_delete_eq.
    + subst refreshed. rewrite run_Refresh. cbv zeta. cbn [next fst value].
      rewrite (findStep_missing quiet); [| done | exact Hgone].
      cbn [fst snd]. by eexists.
Qed.

(** C4, at the store that holds the Alive space [a]. *)
Lemma EnsureDead_spec_witness :
  let s := newSpaceOf modelM "a" EmptyString false in
  let o := run (EnsureDead s) [quiet] dbSpaceA in
  let again := run (EnsureDead (value o).1) (rest o) (store o) in
  value o = (setLife s Dead, None) /\
  lifeAt (store o) "m:a" = Some Dead /\
  value again = (setLife s Dead, None) /\ log again = [] /\ store again = store o /\
  exists err, value (run (EnsureDead s) [quiet] (store o)) = (s, Some err) /\
              Cause err = errNotAlive.
Proof.
  intros s o again.
  destruct (EnsureDead_spec s quiet [] dbSpaceA) as (_ & Hlive & Hagain).
  destruct Hlive as (_ & _ & _ & Hok & _); [done |].
  destruct (Hok (marshalSpace (newSpaceDoc modelM "a" EmptyString false)))
    as (Hvalue & _ & Hlife); [reflexivity | reflexivity | reflexivity |].
  destruct Hagain as (Hv2 & Hl2 & Hs2); [reflexivity |].
  destruct (EnsureDead_spec s quiet [] (store o)) as (_ & Hlive' & _).
  destruct Hlive' as (_ & _ & _ & _ & Hfail); [done |].
  destruct Hfail as (err & Herr & Hcause & _); [reflexivity | |].
  { right. eexists. split; [reflexivity | done]. }
  split; [exact Hvalue |]. split; [exact Hlife |].
  split; [exact Hv2 |]. split; [exact Hl2 |]. split; [exact Hs2 |].
  exists err. split; [exact Herr | exact Hcause].
Defined.

(** C5, at the store that holds the Dead space [a] and its index entry. *)
Lemma Remove_spec_witness :
  let alive := newSpaceOf modelM "a" "p" false in
  let o := run (Remove deadSpaceA) [quiet] dbDeadA in
  (exists err, value (run (Remove alive) [quiet] dbDeadA) = Some err /\
               Cause err = New "space is not dead") /\
  (exists err, value (run (Remove deadSpaceA) [quiet] dbProviderTaken) = Some err /\
               Cause err = New "not found or not dead") /\
  value o = None /\
  store o !! spaceKey deadSpaceA = None /\
  store o !! providerKey deadSpaceA = None /\
  exists err, (value (run (Refresh deadSpaceA) [] (store o))).2 = Some err /\
              IsNotFound err = true.
Proof.
  intros alive o.
  destruct (Remove_spec alive quiet [] dbDeadA) as (Hhandle & _).
  destruct Hhandle as (Herr1 & _); [by left |].
  destruct (Remove_spec deadSpaceA quiet [] dbProviderTaken) as (_ & Hstored & _).
  destruct Hstored as (Herr2 & _); [reflexivity | reflexivity | by left |].
  destruct (Remove_spec deadSpaceA quiet [] dbDeadA) as (_ & _ & Hok & Hafter).
  pose proof (Hok eq_refl eq_refl (marshalSpace (doc deadSpaceA)) eq_refl eq_refl)
    as Hvalue.
  destruct (Hafter Hvalue) as (_ & _ & Hgone & Hindex & Hrefresh).
  split; [exact Herr1 |]. split; [exact Herr2 |]. split; [exact Hvalue |].
  split; [exact Hgone |]. split; [by apply Hindex |]. exact Hrefresh.
Defined.

(** C6, along the sequence that creates space [a] and then marks it Dead. *)
Lemma life_monotonic_witness :
  let created := store (run (AddSpace validSpaceName modelM "a" EmptyString [] false) [] ∅) in
  let marked := store (run (EnsureDead (newSpaceOf modelM "a" EmptyString false)) [] created) in
  lifeAt created "m:a" = Some Alive /\
  lifeAt marked "m:a" = Some Dead /\
  lifeRank Alive <= lifeRank Dead /\
  (Alive = Dead -> Dead = Dead) /\
  (Alive = Dying -> Dead <> Alive).
Proof.
  intros created marked.
  split; [reflexivity |]. split; [reflexivity |].
  destruct (life_monotonic validSpaceName) as [_ Hseq].
  apply (Hseq "m:a" created marked Alive Dead).
  - apply rtc_once. split.
    + apply step_EnsureDead. constructor.
    + by eexists.
  - reflexivity.
  - reflexivity.
Defined.

(** C10, at the name [A] (upper case is not allowed). *)
Lemma AddSpace_invalid_name_witness :
  AddSpace validSpaceName modelM "A" "p" ["10.0.0.0/24"] true
    = Ret (Err (Annotatef (NewNotValid "invalid space name") "adding space %q" ["A"])) /\
  forall (w : World) (db : DB),
    let o := run (AddSpace validSpaceName modelM "A" "p" ["10.0.0.0/24"] true) w db in
    (exists err, value o = Err err /\ IsNotValid err = true) /\
    log o = [] /\ store o = db /\ rest o = w.
Proof.
  apply (AddSpace_invalid_name validSpaceName). reflexivity.
Defined.

(** C3 (as stated, refuted). A fresh id and a valid name do not suffice:
    on the empty store, creating space [a] with a subnet that does not exist
    fails with a not-found error and stores nothing. *)
Lemma AddSpace_fresh_id_may_fail :
  validSpaceName "a" = true /\
  (∅ : DB) !! (spacesC, State_docID modelM "a") = None /\
  let o := run (AddSpace validSpaceName modelM "a" EmptyString ["10.0.0.0/24"] false)
               [] ∅ in
  value o = Err (Annotatef (NotFoundf "subnet %q" ["10.0.0.0/24"])
                   "adding space %q" ["a"]) /\
  (forall s : Space, value o <> Ok s) /\
  store o = ∅.
Proof.
  split; [reflexivity |]. split; [reflexivity |].
  split; [reflexivity |]. split; [| reflexivity].
  intros s Hs. vm_compute in Hs. discriminate Hs.
Qed.

(** C3 (amended), at the store that holds the listed subnet. *)
Lemma AddSpace_fresh_witness :
  let o := run (AddSpace validSpaceName modelM "a" "p" ["10.0.0.0/24"] false)
               [quiet] dbSubnet in
  value o = Ok (newSpaceOf modelM "a" "p" false) /\
  log o = [TxnEvent (addSpaceOps modelM "a" "p" ["10.0.0.0/24"] false) None] /\
  store o !! (spacesC, "m:a") = Some (marshalSpace (newSpaceDoc modelM "a" "p" false)) /\
  value (run (Refresh (newSpaceOf modelM "a" "p" false)) [] (store o))
    = (newSpaceOf modelM "a" "p" false, None).
Proof.
  destruct (AddSpace_fresh validSpaceName modelM "a" "p" ["10.0.0.0/24"] false
              quiet [] dbSubnet)
    as ((Hvalue & _) & (Hrefresh & _) & Hlog & _ & _ & Hstore & _).
  - reflexivity.
  - reflexivity.
  - reflexivity.
  - intros _. reflexivity.
  - intros s Hs. apply list_elem_of_singleton in Hs as ->. by eexists.
  - exact (conj Hvalue (conj Hlog (conj Hstore Hrefresh))).
Defined.

End SpacesSpec.

(* ===================================================================== *)
(** * Further properties of package lease                                *)
(* ===================================================================== *)

Module LeaseExtra.
Import Lease.

Local Open Scope Z_scope.

(** ** [Sub] in full: exact within the range of a [Duration], clamped beyond *)

Lemma Sub_raw (t u : Time) :
  wfTime t -> wfTime u ->
  wrap64 (wrap64 (wrap64 (sec t - sec u) * Second) + wrap32 (nsec t - nsec u))
  = wrap64 (nanos t - nanos u).
Proof.
  intros [_ Htn] [_ Hun].
  rewrite LeaseSpec.wrap32_small by lia.
  rewrite LeaseSpec.wrap64_mul_l, LeaseSpec.wrap64_add_l.
  f_equal. unfold nanos, Second. lia.
Qed.

Lemma Sub_clamp (t u : Time) :
  wfTime t -> wfTime u -> inEra t -> inEra u ->
  Sub t u = clamp (nanos t - nanos u).
Proof.
  intros Ht Hu Het Heu.
  destruct (decide (minDuration <= nanos t - nanos u <= maxDuration)) as [Hin | Hout].
  - rewrite LeaseSpec.Sub_exact by done.
    unfold clamp, minDuration, maxDuration in *. lia.
  - unfold Sub. rewrite Sub_raw by done.
    set (d := wrap64 (nanos t - nanos u)).
    assert (Hd : int64 d) by apply LeaseSpec.wrap64_int64.
    assert (Hne : Equal (Add u d) t = false).
    { apply not_true_is_false. intros Heq.
      unfold Equal in Heq. apply andb_true_iff in Heq as [Hs Hn].
      apply Z.eqb_eq in Hs, Hn.
      assert (Hnanos : nanos (Add u d) = nanos u + d).
      { apply LeaseSpec.Add_nanos; [done | done |].
        destruct Hu as [_ Hun].
        unfold representable, nanos, inEra, int64 in *. lia. }
      unfold nanos in Hnanos at 1. rewrite Hs, Hn in Hnanos.
      fold (nanos t) in Hnanos.
      unfold int64, minDuration, maxDuration in *. lia. }
    rewrite Hne.
    destruct (Before t u) eqn:Hb.
    + apply LeaseSpec.Before_nanos in Hb; [| done | done].
      unfold clamp, minDuration, maxDuration in *. lia.
    + assert (Hge : ~ nanos t < nanos u).
      { intros Hlt. apply (LeaseSpec.Before_nanos t u Ht Hu) in Hlt. congruence. }
      unfold clamp, minDuration, maxDuration in *. lia.
Qed.

Lemma clamp_range (d : Z) : minDuration <= clamp d <= maxDuration.
Proof. unfold clamp, minDuration, maxDuration. lia. Qed.

Lemma clamp_mono (d1 d2 : Z) : d1 <= d2 -> clamp d1 <= clamp d2.
Proof. unfold clamp. lia. Qed.

Lemma Add_clamped_nanos (t : Time) (d : Z) :
  wfTime t -> inEra t -> nanos (Add t (clamp d)) = nanos t + clamp d.
Proof.
  intros Ht He. pose proof (clamp_range d) as Hr.
  apply LeaseSpec.Add_nanos; [done | |].
  - unfold int64, minDuration, maxDuration in *. lia.
  - destruct Ht as [_ Hn].
    unfold representable, nanos, inEra, minDuration, maxDuration in *. lia.
Qed.

Lemma Add_zero (t : Time) : wfTime t -> Add t 0 = t.
Proof.
  intros Ht. change 0 with (0 * Second).
  rewrite LeaseSpec.Add_seconds; [| done | unfold int64; lia |].
  - destruct t as [s n l]. simpl. by rewrite Z.add_0_r.
  - destruct Ht as [Hs _]. by rewrite Z.add_0_r.
Qed.

Lemma Sub_self (t : Time) : wfTime t -> Sub t t = 0.
Proof.
  intros Ht. rewrite LeaseSpec.Sub_exact; [lia | done | done |].
  unfold minDuration, maxDuration. lia.
Qed.

Lemma isZero_Equal (skew : Skew) :
  isZero skew = true ->
  Equal (LastWrite skew) (ReadAfter skew) = true /\
  Equal (LastWrite skew) (ReadBefore skew) = true.
Proof.
  unfold isZero, IsZero, Equal.
  rewrite !andb_true_iff, !Z.eqb_eq. intros [[[-> ->] [-> ->]] [-> ->]]. done.
Qed.

Lemma bounds_nanos (skew : Skew) (remote : Time) :
  wfSkew skew -> wfTime remote -> skewInEra skew -> inEra remote ->
  nanos (Earliest skew remote)
    = (if isZero skew then nanos remote
       else nanos (ReadAfter skew) + clamp (nanos remote - nanos (LastWrite skew))) /\
  nanos (Latest skew remote)
    = (if isZero skew then nanos remote
       else nanos (ReadBefore skew) + clamp (nanos remote - nanos (LastWrite skew))).
Proof.
  intros (Hw & Ha & Hb) Hr (Hew & Hea & Heb) Her.
  unfold Earliest, Latest. destruct (isZero skew); [done |]. cbv zeta.
  rewrite Sub_clamp by done.
  by rewrite !Add_clamped_nanos.
Qed.

(** ** Properties *)

(** X1. Within the era, [Earliest] and [Latest] of a record that is not the
    zero record move [ReadAfter] and [ReadBefore] by the difference
    [remote - LastWrite] clamped to the range of a [Duration]: exact up to
    about 292 years either way, and stuck at [ReadAfter + maxDuration] (or
    [+ minDuration]) beyond. The zero record returns [remote]. *)
Theorem Earliest_Latest_clamped (skew : Skew) (remote : Time) :
  wfSkew skew -> wfTime remote -> skewInEra skew -> inEra remote ->
  nanos (Earliest skew remote)
    = (if isZero skew then nanos remote
       else nanos (ReadAfter skew) + clamp (nanos remote - nanos (LastWrite skew))) /\
  nanos (Latest skew remote)
    = (if isZero skew then nanos remote
       else nanos (ReadBefore skew) + clamp (nanos remote - nanos (LastWrite skew))).
Proof.
  intros (Hw & Ha & Hb) Hr (Hew & Hea & Heb) Her.
  unfold Earliest, Latest. destruct (isZero skew); [done |]. cbv zeta.
  rewrite Sub_clamp by done.
  by rewrite !Add_clamped_nanos.
Qed.

Lemma Earliest_Latest_clamped_witness :
  nanos (Earliest skew2015 t2315) = nanos (ReadAfter skew2015) + maxDuration /\
  nanos (Latest skew2015 t2315) = nanos (ReadBefore skew2015) + maxDuration.
Proof.
  apply (Earliest_Latest_clamped skew2015 t2315).
  - vm_compute. intuition congruence.
  - vm_compute. intuition congruence.
  - vm_compute. intuition congruence.
  - vm_compute. intuition congruence.
Defined.

(** X2. Within the era both bounds are monotone in the remote timestamp: if
    [remote1] is not after [remote2], then [Earliest(remote1)] is not after
    [Earliest(remote2)] and [Latest(remote1)] is not after
    [Latest(remote2)], saturation included. *)
Theorem Earliest_Latest_monotone (skew : Skew) (remote1 remote2 : Time) :
  wfSkew skew -> wfTime remote1 -> wfTime remote2 ->
  skewInEra skew -> inEra remote1 -> inEra remote2 ->
  After remote1 remote2 = false ->
  After (Earliest skew remote1) (Earliest skew remote2) = false /\
  After (Latest skew remote1) (Latest skew remote2) = false.
Proof.
  intros Hs H1 H2 Hes He1 He2 Hle.
  assert (Hnanos : nanos remote1 <= nanos remote2).
  { apply Z.nlt_ge. intros Hlt.
    apply (LeaseSpec.After_nanos remote1 remote2 H1 H2) in Hlt. congruence. }
  destruct (bounds_nanos skew remote1 Hs H1 Hes He1) as [E1 L1].
  destruct (bounds_nanos skew remote2 Hs H2 Hes He2) as [E2 L2].
  pose proof (clamp_mono (nanos remote1 - nanos (LastWrite skew))
                (nanos remote2 - nanos (LastWrite skew)) ltac:(lia)) as Hc.
  split; apply not_true_is_false; intros Hafter.
  - apply LeaseSpec.After_nanos in Hafter;
      [| by apply LeaseSpec.Earliest_wf | by apply LeaseSpec.Earliest_wf].
    rewrite E1, E2 in Hafter. destruct (isZero skew); lia.
  - apply LeaseSpec.After_nanos in Hafter;
      [| by apply LeaseSpec.Latest_wf | by apply LeaseSpec.Latest_wf].
    rewrite L1, L2 in Hafter. destruct (isZero skew); lia.
Qed.

Lemma Earliest_Latest_monotone_witness :
  After (Earliest skew2015 t2315) (Earliest skew2015 t2315') = false /\
  After (Latest skew2015 t2315) (Latest skew2015 t2315') = false.
Proof.
  apply (Earliest_Latest_monotone skew2015 t2315 t2315').
  - vm_compute. intuition congruence.
  - vm_compute. intuition congruence.
  - vm_compute. intuition congruence.
  - vm_compute. intuition congruence.
  - vm_compute. intuition congruence.
  - vm_compute. intuition congruence.
  - reflexivity.
Defined.

(** X3. Within the era the two bounds stay as far apart as the two local
    reads, whatever the remote timestamp: [Latest(remote) - Earliest(remote)]
    is [ReadBefore - ReadAfter]. So a record whose [ReadAfter] is not after
    its [ReadBefore] never yields an [Earliest] after its [Latest]. *)
Theorem Earliest_Latest_window (skew : Skew) (remote : Time) :
  wfSkew skew -> wfTime remote -> skewInEra skew -> inEra remote ->
  nanos (Latest skew remote) - nanos (Earliest skew remote)
    = nanos (ReadBefore skew) - nanos (ReadAfter skew) /\
  (After (ReadAfter skew) (ReadBefore skew) = false ->
   After (Earliest skew remote) (Latest skew remote) = false).
Proof.
  intros Hs Hr Hes Her.
  destruct (bounds_nanos skew remote Hs Hr Hes Her) as [E L].
  assert (Hwidth : nanos (Latest skew remote) - nanos (Earliest skew remote)
                   = nanos (ReadBefore skew) - nanos (ReadAfter skew)).
  { rewrite E, L. destruct (isZero skew) eqn:Hz; [| lia].
    apply LeaseSpec.isZero_fields in Hz. lia. }
  split; [exact Hwidth |].
  intros Hinv. apply not_true_is_false. intros Hafter.
  apply LeaseSpec.After_nanos in Hafter;
    [| by apply LeaseSpec.Earliest_wf | by apply LeaseSpec.Latest_wf].
  destruct Hs as (Hw & Ha & Hb).
  assert (Hreads : ~ nanos (ReadBefore skew) < nanos (ReadAfter skew)).
  { intros Hlt. apply (LeaseSpec.After_nanos _ _ Ha Hb) in Hlt. congruence. }
  lia.
Qed.

Lemma Earliest_Latest_window_witness :
  nanos (Latest skew2015 t2016) - nanos (Earliest skew2015 t2016) = 1500000000 /\
  After (Earliest skew2015 t2016) (Latest skew2015 t2016) = false.
Proof.
  destruct (Earliest_Latest_window skew2015 t2016) as [Hwidth Horder].
  - vm_compute. intuition congruence.
  - vm_compute. intuition congruence.
  - vm_compute. intuition congruence.
  - vm_compute. intuition congruence.
  - split; [exact Hwidth | apply Horder; reflexivity].
Defined.

(** X4. At the sampled instant the bounds are the two local reads: for every
    well-formed record, [Earliest(LastWrite)] is the instant [ReadAfter] and
    [Latest(LastWrite)] is the instant [ReadBefore]; for a record that is not
    the zero record they are those very values, location included. *)
Theorem bounds_at_LastWrite (skew : Skew) :
  wfSkew skew ->
  Equal (Earliest skew (LastWrite skew)) (ReadAfter skew) = true /\
  Equal (Latest skew (LastWrite skew)) (ReadBefore skew) = true /\
  (isZero skew = false ->
   Earliest skew (LastWrite skew) = ReadAfter skew /\
   Latest skew (LastWrite skew) = ReadBefore skew).
Proof.
  intros (Hw & Ha & Hb).
  assert (Hrefl : forall t, Equal t t = true).
  { intros t. unfold Equal. by rewrite !Z.eqb_refl. }
  unfold Earliest, Latest. destruct (isZero skew) eqn:Hz.
  - destruct (isZero_Equal skew Hz) as [He Hl]. done.
  - cbv zeta. rewrite Sub_self, !Add_zero by done. by rewrite !Hrefl.
Qed.

Lemma bounds_at_LastWrite_witness :
  Earliest skew2015 (LastWrite skew2015) = ReadAfter skew2015 /\
  Latest skew2015 (LastWrite skew2015) = ReadBefore skew2015.
Proof.
  destruct (bounds_at_LastWrite skew2015) as (_ & _ & Hsame).
  - vm_compute. intuition congruence.
  - apply Hsame. reflexivity.
Defined.

End LeaseExtra.

(* ===================================================================== *)
(** * Further properties of package state: spaces                        *)
(* ===================================================================== *)

Module SpacesExtra.
Import Spaces.

Local Open Scope string_scope.

(** ** Queries *)

Lemma selected_elem (st : State) (c : string) (query : bsonD) (db : DB) (d : bsonD) :
  d ∈ map snd (List.filter (selects st c query) (map_to_list db)) <->
  exists id, db !! (c, id) = Some d /\ State_docID st id = id /\ matches query d = true.
Proof.
  rewrite list_elem_of_In, in_map_iff. split.
  - intros ([[c' id] d'] & Hd & Hin). simpl in Hd. subst d'.
    apply filter_In in Hin as [Hin Hsel].
    apply list_elem_of_In, elem_of_map_to_list in Hin.
    unfold selects in Hsel. simpl in Hsel.
    apply andb_true_iff in Hsel as [Hsel Hm].
    apply andb_true_iff in Hsel as [Hc Hid].
    apply String.eqb_eq in Hc, Hid. subst c'. by exists id.
  - intros (id & Hd & Hid & Hm). exists (c, id, d). split; [done |].
    apply filter_In. split.
    + by apply list_elem_of_In, elem_of_map_to_list.
    + unfold selects. simpl. by rewrite String.eqb_refl, Hid, String.eqb_refl, Hm.
Qed.

Lemma findAllStep_quiet (db : DB) (st : State) (c : string) (query : bsonD) :
  findAllStep quiet db st c query
  = (Ok (map snd (List.filter (selects st c query) (map_to_list db))), db).
Proof. reflexivity. Qed.

Lemma matches_nil (d : bsonD) : matches [] d = true.
Proof. reflexivity. Qed.

Lemma matches_one (n : string) (v : bval) (d : bsonD) :
  matches [(n, v)] d = true <-> getField d n = Some v.
Proof.
  unfold matches; simpl. rewrite andb_true_r. apply bool_decide_eq_true.
Qed.

(** ** The abort path never succeeds *)

Lemma classifyAbort_fails (st : State) (name providerId : string)
    (subnets : list string) (newSpace : Space) (w : World) (db : DB) :
  exists err,
    value (run (classifyAbort st name providerId subnets newSpace) w db) = Err err.
Proof.
  unfold classifyAbort. rewrite SpacesSpec.run_bind. cbn [andThen value].
  destruct (value (run (State_Space st name) _ _)); [by eexists |].
  rewrite SpacesSpec.run_bind. cbn [andThen value].
  destruct (value (run (missingSubnet st subnets) _ _)); [by eexists |].
  unfold refreshNew. rewrite SpacesSpec.run_bind. cbn [andThen value].
  destruct (value (run (Refresh _) _ _)).2 as [e |]; [| by eexists].
  destruct (IsNotFound e); by eexists.
Qed.

(** A successful [AddSpace] is one whose transaction applied. *)
Lemma AddSpace_success_inv (IsValidSpace : string -> bool) (st : State)
    (name providerId : string) (subnets : list string) (isPublic : bool)
    (w : World) (db : DB) (s : Space) :
  value (run (AddSpace IsValidSpace st name providerId subnets isPublic) w db) = Ok s ->
  s = newSpaceOf st name providerId isPublic /\
  IsValidSpace name = true /\
  fault (next w).1 = None /\
  applyOps (others (next w).1 db) (addSpaceOps st name providerId subnets isPublic)
  = Some (store (run (AddSpace IsValidSpace st name providerId subnets isPublic) w db)).
Proof.
  unfold AddSpace.
  destruct (IsValidSpace name); cbn [negb]; [| done].
  cbv zeta.
  rewrite !SpacesSpec.run_bind, SpacesSpec.run_runTransaction,
    SpacesSpec.resolve_addSpaceOps.
  cbn [value store rest log andThen].
  unfold txnStep.
  destruct (fault (next w).1) as [msg |]; cbn [fst snd]; [done |].
  destruct (applyOps _ _) as [db2 |]; cbn [fst snd].
  - simpl. by intros [= <-].
  - destruct (classifyAbort_fails st name providerId subnets
                (newSpaceOf st name providerId isPublic) (next w).2
                (others (next w).1 db)) as [err ->].
    done.
Qed.

(** What the assertions of [AddSpace]'s transaction demand of a store. *)
Lemma applyOps_addSpace_inv (st : State) (name providerId : string)
    (subnets : list string) (isPublic : bool) (db db' : DB) :
  applyOps db (addSpaceOps st name providerId subnets isPublic) = Some db' ->
  db !! (spacesC, State_docID st name) = None /\
  (providerId <> EmptyString ->
   db !! (providerIDsC, State_networkEntityGlobalKey st "space" providerId) = None) /\
  (forall s, s ∈ subnets -> is_Some (db !! (subnetsC, State_docID st s))).
Proof.
  unfold applyOps. destruct (forallb _ _) eqn:Hholds; [| done]. intros _.
  rewrite forallb_forall in Hholds.
  assert (Hop : forall op, In op (addSpaceOps st name providerId subnets isPublic) ->
                           holds db op = true) by exact Hholds.
  clear Hholds.
  split; [| split].
  - assert (Hin : In {| txn.C := spacesC; txn.Id := State_docID st name;
                        txn.Assert := txn.DocMissing;
                        txn.Insert := Some (marshalSpace
                                              (newSpaceDoc st name providerId isPublic));
                        txn.Update := None; txn.Remove := false |}
                     (addSpaceOps st name providerId subnets isPublic)).
    { unfold addSpaceOps. cbv zeta. apply in_or_app. left.
      destruct (negb (String.eqb providerId EmptyString)); simpl; by left. }
    apply Hop in Hin. unfold holds in Hin. cbn [txn.C txn.Id txn.Assert] in Hin.
    by destruct (db !! (spacesC, State_docID st name)).
  - intros Hpid.
    assert (Hin : In (State_networkEntityGlobalKeyOp st "space" providerId)
                     (addSpaceOps st name providerId subnets isPublic)).
    { unfold addSpaceOps. cbv zeta. apply in_or_app. left.
      rewrite (proj2 (String.eqb_neq _ _) Hpid). simpl. right. by left. }
    apply Hop in Hin. unfold holds, State_networkEntityGlobalKeyOp in Hin.
    cbn [txn.C txn.Id txn.Assert] in Hin.
    by destruct (db !! (providerIDsC, _)).
  - intros s Hs.
    assert (Hin : In (stampSubnetOp st name s)
                     (addSpaceOps st name providerId subnets isPublic)).
    { unfold addSpaceOps. cbv zeta. apply in_or_app. right. apply in_map. by apply list_elem_of_In. }
    apply Hop in Hin. unfold holds, stampSubnetOp in Hin.
    cbn [txn.C txn.Id txn.Assert] in Hin.
    by destruct (db !! (subnetsC, State_docID st s)).
Qed.

(** What a successful [AddSpace] leaves in the store. *)
Lemma AddSpace_success_store (IsValidSpace : string -> bool) (st : State)
    (name providerId : string) (subnets : list string) (isPublic : bool)
    (w : World) (db : DB) (s : Space) :
  let o := run (AddSpace IsValidSpace st name providerId subnets isPublic) w db in
  value o = Ok s ->
  s = newSpaceOf st name providerId isPublic /\
  applyOps (others (next w).1 db) (addSpaceOps st name providerId subnets isPublic)
    = Some (store o) /\
  store o !! (spacesC, State_docID st name)
    = Some (marshalSpace (newSpaceDoc st name providerId isPublic)) /\
  (forall subnetId, subnetId ∈ subnets ->
     exists d, store o !! (subnetsC, State_docID st subnetId) = Some d /\
               getField d "space-name" = Some (BString name)).
Proof.
  intros o Hok.
  destruct (AddSpace_success_inv _ _ _ _ _ _ _ _ _ Hok) as (Hs & _ & _ & Happly).
  fold o in Happly.
  destruct (applyOps_addSpace_inv _ _ _ _ _ _ _ Happly) as (Hfresh & Hprov & Hsub).
  destruct (SpacesSpec.applyOps_addSpace st name providerId subnets isPublic _
              Hfresh Hprov Hsub) as (db2 & Happly2 & Hspace & _ & Hstamped).
  rewrite Happly in Happly2. injection Happly2 as <-. done.
Qed.

(** ** Properties of [AddSpace] with [Space], [AllSpaces] and [Subnets] *)

(** X5. Whatever the world and the store, once [AddSpace] has returned a
    space, the store it leaves answers for it: [Space(name)] returns that
    same space, [AllSpaces] lists it, and [Subnets] of the new space returns
    every subnet that was listed. *)
Theorem AddSpace_then_lookups (IsValidSpace : string -> bool) (st : State)
    (name providerId : string) (subnets : list string) (isPublic : bool)
    (w : World) (db : DB) (s : Space) :
  let o := run (AddSpace IsValidSpace st name providerId subnets isPublic) w db in
  value o = Ok s ->
  value (run (State_Space st name) [] (store o)) = Ok s /\
  (exists spaces, (AllSpaces st quiet (store o)).1 = Ok spaces /\ s ∈ spaces) /\
  (exists subs, (Subnets s quiet (store o)).1 = Ok subs /\
     forall subnetId, subnetId ∈ subnets ->
       exists d, store o !! (subnetsC, State_docID st subnetId) = Some d /\
                 {| subnet_st := st; subnet_doc := d |} ∈ subs).
Proof.
  intros o Hok.
  destruct (AddSpace_success_store _ _ _ _ _ _ _ _ _ Hok)
    as (Hs & _ & Hspace & Hstamped).
  fold o in Hspace, Hstamped.
  assert (Hnew : {| st := st;
                    doc := unmarshalSpace
                             (marshalSpace (newSpaceDoc st name providerId isPublic)) |}
                 = s).
  { by rewrite SpacesSpec.unmarshal_marshal, Hs. }
  split; [| split].
  - rewrite SpacesSpec.run_State_Space. cbv zeta. cbn [next fst value].
    rewrite (SpacesSpec.findStep_found quiet _ _ _ _ eq_refl Hspace).
    cbn [fst]. by rewrite Hnew.
  - unfold AllSpaces. rewrite findAllStep_quiet. cbn [fst].
    eexists. split; [reflexivity |].
    rewrite <- Hnew.
    apply list_elem_of_In,
      (in_map (fun doc => {| st := st; doc := unmarshalSpace doc |})),
      list_elem_of_In, selected_elem.
    exists (State_docID st name).
    split; [exact Hspace |]. split; [apply SpacesSpec.docID_idem | done].
  - unfold Subnets. rewrite findAllStep_quiet. cbn [fst].
    eexists. split; [reflexivity |].
    intros subnetId Hin. destruct (Hstamped subnetId Hin) as (d & Hd & Hname).
    exists d. split; [exact Hd |].
    rewrite Hs. cbn [newSpaceOf Spaces.st].
    apply list_elem_of_In,
      (in_map (fun doc => {| subnet_st := st; subnet_doc := doc |})),
      list_elem_of_In, selected_elem.
    exists (State_docID st subnetId).
    split; [exact Hd |]. split; [apply SpacesSpec.docID_idem |].
    by apply matches_one.
Qed.

Lemma AddSpace_then_lookups_witness :
  let o := run (AddSpace validSpaceName modelM "a" "p" ["10.0.0.0/24"] false)
               [] dbSubnet in
  value (run (State_Space modelM "a") [] (store o))
    = Ok (newSpaceOf modelM "a" "p" false) /\
  (exists spaces, (AllSpaces modelM quiet (store o)).1 = Ok spaces /\
                  newSpaceOf modelM "a" "p" false ∈ spaces) /\
  (exists subs, (Subnets (newSpaceOf modelM "a" "p" false) quiet (store o)).1 = Ok subs /\
     forall subnetId, subnetId ∈ ["10.0.0.0/24"] ->
       exists d, store o !! (subnetsC, State_docID modelM subnetId) = Some d /\
                 {| subnet_st := modelM; subnet_doc := d |} ∈ subs).
Proof.
  apply (AddSpace_then_lookups validSpaceName modelM "a" "p" ["10.0.0.0/24"] false
           [] dbSubnet (newSpaceOf modelM "a" "p" false)).
  reflexivity.
Defined.

(** ** [AddSpace] on its own, from what the store holds *)

Lemma applyOps_aborts (db : DB) (ops : list txn.Op) (op : txn.Op) :
  In op ops -> holds db op = false -> applyOps db ops = None.
Proof.
  intros Hin Hop. unfold applyOps.
  destruct (forallb (holds db) ops) eqn:Hall; [| done].
  rewrite forallb_forall in Hall. rewrite (Hall op Hin) in Hop. done.
Qed.

Lemma run_State_Subnet (st : State) (cidr : string) (w : World) (db : DB) :
  run (State_Subnet st cidr) w db
  = let res := findStep (next w).1 db subnetsC (State_docID st cidr) in
    {| value :=
         match res.1 with
         | Err ErrNotFound => Err (NotFoundf "subnet %q" [cidr])
         | Err err => Err (Annotatef err "cannot get subnet %q" [cidr])
         | Ok d => Ok {| subnet_st := st; subnet_doc := d |}
         end;
       store := res.2;
       rest := (next w).2;
       log := [FindEvent subnetsC (State_docID st cidr) res.1] |}.
Proof.
  unfold State_Subnet. rewrite SpacesSpec.run_bind, SpacesSpec.run_FindId. cbv zeta.
  unfold andThen; simpl.
  destruct (findStep (next w).1 db subnetsC (State_docID st cidr)).1
    as [d | []]; reflexivity.
Qed.

(** The loop over the listed subnets, run on its own: it stops at the first
    subnet that is not stored, and passes when all are. *)
Lemma run_missingSubnet_first (st : State) (pre post : list string) (missing : string)
    (db : DB) :
  (forall s, s ∈ pre -> is_Some (db !! (subnetsC, State_docID st s))) ->
  db !! (subnetsC, State_docID st missing) = None ->
  let o := run (missingSubnet st (pre ++ missing :: post)) [] db in
  value o = Some (NotFoundf "subnet %q" [missing]) /\ store o = db /\ rest o = [].
Proof.
  intros Hpre Hmissing. induction pre as [| a pre IH]; cbn [app missingSubnet].
  - rewrite SpacesSpec.run_bind, run_State_Subnet. cbv zeta.
    cbn [next fst snd value store rest andThen].
    rewrite (SpacesSpec.findStep_missing quiet _ _ _ eq_refl Hmissing). done.
  - rewrite SpacesSpec.run_bind, run_State_Subnet. cbv zeta.
    cbn [next fst snd value store rest andThen].
    destruct (Hpre a) as [d Hd]; [by left |].
    rewrite (SpacesSpec.findStep_found quiet _ _ _ d eq_refl Hd).
    cbn [fst snd]. apply IH. intros s Hs. apply Hpre. by right.
Qed.

Lemma run_missingSubnet_none (st : State) (subnets : list string) (db : DB) :
  (forall s, s ∈ subnets -> is_Some (db !! (subnetsC, State_docID st s))) ->
  let o := run (missingSubnet st subnets) [] db in
  value o = None /\ store o = db /\ rest o = [].
Proof.
  intros Hall. induction subnets as [| a subnets IH]; cbn [missingSubnet].
  - done.
  - rewrite SpacesSpec.run_bind, run_State_Subnet. cbv zeta.
    cbn [next fst snd value store rest andThen].
    destruct (Hall a) as [d Hd]; [by left |].
    rewrite (SpacesSpec.findStep_found quiet _ _ _ d eq_refl Hd).
    cbn [fst snd]. apply IH. intros s Hs. apply Hall. by right.
Qed.

(** [AddSpace] with a valid name in a quiet world, when its transaction
    aborts: the result is that of the abort path on the same store. *)
Lemma AddSpace_aborted (IsValidSpace : string -> bool) (st : State)
    (name providerId : string) (subnets : list string) (isPublic : bool) (db : DB) :
  IsValidSpace name = true ->
  applyOps db (addSpaceOps st name providerId subnets isPublic) = None ->
  let o := run (AddSpace IsValidSpace st name providerId subnets isPublic) [] db in
  let c := run (classifyAbort st name providerId subnets
                  (newSpaceOf st name providerId isPublic)) [] db in
  value o = DeferredAnnotatefR (value c) "adding space %q" [name] /\
  store o = store c.
Proof.
  intros Hvalid Habort o c. subst o c.
  unfold AddSpace. rewrite Hvalid. cbn [negb]. cbv zeta.
  rewrite !SpacesSpec.run_bind, SpacesSpec.run_runTransaction,
    SpacesSpec.resolve_addSpaceOps.
  cbn [next fst snd value store rest log andThen].
  rewrite (SpacesSpec.txnStep_aborted quiet db _ eq_refl Habort).
  cbn [fst snd]. done.
Qed.

(** X6. A name can be taken once: in a store that already holds a space
    under the name, [AddSpace] with that name fails with AlreadyExists and
    changes nothing, whatever provider id and subnets it is given. *)
Theorem AddSpace_existing_name (IsValidSpace : string -> bool) (st : State)
    (name providerId : string) (subnets : list string) (isPublic : bool)
    (db : DB) (d : bsonD) :
  IsValidSpace name = true ->
  db !! (spacesC, State_docID st name) = Some d ->
  let o := run (AddSpace IsValidSpace st name providerId subnets isPublic) [] db in
  value o = Err (Annotatef (AlreadyExistsf "space %q" [name]) "adding space %q" [name]) /\
  store o = db.
Proof.
  intros Hvalid Hd o.
  assert (Habort : applyOps db (addSpaceOps st name providerId subnets isPublic) = None).
  { apply (applyOps_aborts _ _
             {| txn.C := spacesC; txn.Id := State_docID st name;
                txn.Assert := txn.DocMissing;
                txn.Insert := Some (marshalSpace
                                      (newSpaceDoc st name providerId isPublic));
                txn.Update := None; txn.Remove := false |}).
    - unfold addSpaceOps. cbv zeta. apply in_or_app. left.
      destruct (negb (String.eqb providerId EmptyString)); simpl; by left.
    - unfold holds. cbn [txn.C txn.Id txn.Assert]. by rewrite Hd. }
  destruct (AddSpace_aborted IsValidSpace st name providerId subnets isPublic db
              Hvalid Habort) as [Hv Hs].
  fold o in Hv, Hs. rewrite Hv, Hs.
  unfold classifyAbort. rewrite SpacesSpec.run_bind, SpacesSpec.run_State_Space.
  cbv zeta. cbn [next fst snd value store rest andThen].
  rewrite (SpacesSpec.findStep_found quiet _ _ _ d eq_refl Hd). done.
Qed.

Lemma AddSpace_existing_name_witness :
  let o := run (AddSpace validSpaceName modelM "a" "p" ["10.0.0.0/24"] true) [] dbSpaceA in
  value o = Err (Annotatef (AlreadyExistsf "space %q" ["a"]) "adding space %q" ["a"]) /\
  store o = dbSpaceA.
Proof.
  apply (AddSpace_existing_name validSpaceName modelM "a" "p" ["10.0.0.0/24"] true
           dbSpaceA (marshalSpace (newSpaceDoc modelM "a" EmptyString false))).
  - reflexivity.
  - reflexivity.
Defined.

(** X7. When the name is free and some listed subnet is not stored,
    [AddSpace] fails with the not-found error of the first such subnet in
    the order of the list, and changes nothing. *)
Theorem AddSpace_first_missing_subnet (IsValidSpace : string -> bool) (st : State)
    (name providerId : string) (pre post : list string) (missing : string)
    (isPublic : bool) (db : DB) :
  IsValidSpace name = true ->
  db !! (spacesC, State_docID st name) = None ->
  (forall s, s ∈ pre -> is_Some (db !! (subnetsC, State_docID st s))) ->
  db !! (subnetsC, State_docID st missing) = None ->
  let o := run (AddSpace IsValidSpace st name providerId (pre ++ missing :: post) isPublic)
               [] db in
  value o = Err (Annotatef (NotFoundf "subnet %q" [missing]) "adding space %q" [name]) /\
  store o = db.
Proof.
  intros Hvalid Hfree Hpre Hmissing o.
  assert (Habort : applyOps db (addSpaceOps st name providerId (pre ++ missing :: post)
                                  isPublic) = None).
  { apply (applyOps_aborts _ _ (stampSubnetOp st name missing)).
    - unfold addSpaceOps. cbv zeta. apply in_or_app. right.
      apply in_map, in_or_app. right. by left.
    - unfold holds, stampSubnetOp. cbn [txn.C txn.Id txn.Assert]. by rewrite Hmissing. }
  destruct (AddSpace_aborted IsValidSpace st name providerId _ isPublic db
              Hvalid Habort) as [Hv Hs].
  fold o in Hv, Hs. rewrite Hv, Hs.
  unfold classifyAbort. rewrite SpacesSpec.run_bind, SpacesSpec.run_State_Space.
  cbv zeta. cbn [next fst snd value store rest andThen].
  rewrite (SpacesSpec.findStep_missing quiet _ _ _ eq_refl Hfree). cbn [fst snd].
  rewrite SpacesSpec.run_bind. cbn [value store rest andThen].
  change (others quiet db) with db.
  destruct (run_missingSubnet_first st pre post missing db Hpre Hmissing)
    as (-> & -> & ->).
  done.
Qed.

Lemma AddSpace_first_missing_subnet_witness :
  let o := run (AddSpace validSpaceName modelM "a" EmptyString
                  (["10.0.0.0/24"] ++ "10.0.1.0/24" :: ["10.0.2.0/24"]) false)
               [] dbSubnet in
  value o = Err (Annotatef (NotFoundf "subnet %q" ["10.0.1.0/24"])
                   "adding space %q" ["a"]) /\
  store o = dbSubnet.
Proof.
  apply (AddSpace_first_missing_subnet validSpaceName modelM "a" EmptyString
           ["10.0.0.0/24"] ["10.0.2.0/24"] "10.0.1.0/24" false dbSubnet).
  - reflexivity.
  - reflexivity.
  - intros s Hs. apply list_elem_of_singleton in Hs as ->. by eexists.
  - reflexivity.
Defined.

(** X8. When the name is free and every listed subnet is stored but the
    provider id is already registered, [AddSpace] fails with the error
    "ProviderId ... not unique" and changes nothing: a provider id serves
    one space at a time. *)
Theorem AddSpace_provider_taken (IsValidSpace : string -> bool) (st : State)
    (name providerId : string) (subnets : list string) (isPublic : bool)
    (db : DB) (entry : bsonD) :
  IsValidSpace name = true ->
  providerId <> EmptyString ->
  db !! (spacesC, State_docID st name) = None ->
  db !! (providerIDsC, State_networkEntityGlobalKey st "space" providerId) = Some entry ->
  (forall s, s ∈ subnets -> is_Some (db !! (subnetsC, State_docID st s))) ->
  let o := run (AddSpace IsValidSpace st name providerId subnets isPublic) [] db in
  value o = Err (Annotatef (Errorf "ProviderId %q not unique" [providerId])
                   "adding space %q" [name]) /\
  store o = db.
Proof.
  intros Hvalid Hpid Hfree Htaken Hsubnets o.
  assert (Habort : applyOps db (addSpaceOps st name providerId subnets isPublic) = None).
  { apply (applyOps_aborts _ _ (State_networkEntityGlobalKeyOp st "space" providerId)).
    - unfold addSpaceOps. cbv zeta. apply in_or_app. left.
      rewrite (proj2 (String.eqb_neq _ _) Hpid). simpl. right. by left.
    - unfold holds, State_networkEntityGlobalKeyOp. cbn [txn.C txn.Id txn.Assert].
      by rewrite Htaken. }
  destruct (AddSpace_aborted IsValidSpace st name providerId _ isPublic db
              Hvalid Habort) as [Hv Hs].
  fold o in Hv, Hs. rewrite Hv, Hs.
  unfold classifyAbort. rewrite SpacesSpec.run_bind, SpacesSpec.run_State_Space.
  cbv zeta. cbn [next fst snd value store rest andThen].
  rewrite (SpacesSpec.findStep_missing quiet _ _ _ eq_refl Hfree). cbn [fst snd].
  rewrite SpacesSpec.run_bind. cbn [value store rest andThen].
  change (others quiet db) with db.
  destruct (run_missingSubnet_none st subnets db Hsubnets) as (-> & -> & ->).
  unfold refreshNew. rewrite SpacesSpec.run_bind, SpacesSpec.run_Refresh.
  cbv zeta. cbn [next fst snd value store rest andThen].
  unfold newSpaceOf, newSpaceDoc. cbn [Spaces.st Spaces.doc DocID].
  rewrite SpacesSpec.docID_idem.
  rewrite (SpacesSpec.findStep_missing quiet _ _ _ eq_refl Hfree). done.
Qed.

Lemma AddSpace_provider_taken_witness :
  let o := run (AddSpace validSpaceName modelM "b" "p" [] false) [] dbProviderTaken in
  value o = Err (Annotatef (Errorf "ProviderId %q not unique" ["p"])
                   "adding space %q" ["b"]) /\
  store o = dbProviderTaken.
Proof.
  apply (AddSpace_provider_taken validSpaceName modelM "b" "p" [] false
           dbProviderTaken [("_id", BString "m:space:p")]).
  - reflexivity.
  - done.
  - reflexivity.
  - reflexivity.
  - intros s Hs. by apply elem_of_nil in Hs.
Defined.

(** ** What the operations leave alone *)

Lemma getField_setField_ne (d : bsonD) (n n' : string) (v : bval) :
  n <> n' -> getField (setField d n v) n' = getField d n'.
Proof.
  intros Hne. induction d as [| [m u] d IH]; simpl.
  - by rewrite (proj2 (String.eqb_neq n n') Hne).
  - destruct (String.eqb m n) eqn:Hm; simpl.
    + apply String.eqb_eq in Hm as ->.
      by rewrite (proj2 (String.eqb_neq n n') Hne).
    + by rewrite IH.
Qed.

Lemma not_in_keys (ops : list txn.Op) (k : string * string) :
  k ∉ map opKey ops -> Forall (fun op => (txn.C op, txn.Id op) <> k) ops.
Proof.
  intros Hk. apply Forall_forall. intros op Hop Heq. apply Hk.
  apply list_elem_of_In, in_map_iff. exists op. split; [exact Heq |].
  by apply list_elem_of_In.
Qed.

(** Operations that either name another document or stamp a subnet keep
    every field of a document but its space name. *)
Lemma stamps_keep_fields (st : State) (name : string) (ops : list txn.Op)
    (db : DB) (k : string * string) (d : bsonD) :
  Forall (fun op => opKey op <> k \/ exists sid, op = stampSubnetOp st name sid) ops ->
  db !! k = Some d ->
  exists d', foldl applyChange db ops !! k = Some d' /\
             forall field, field <> "space-name" -> getField d' field = getField d field.
Proof.
  intros Hops. revert db d.
  induction Hops as [| op ops Hop _ IH]; intros db d Hd; simpl.
  - by exists d.
  - destruct (decide (opKey op = k)) as [Heq | Hne].
    + destruct Hop as [Hop | [sid ->]]; [done |].
      unfold opKey, stampSubnetOp in Heq. cbn [txn.C txn.Id] in Heq. subst k.
      rewrite (SpacesSpec.stamp_one _ _ _ _ _ Hd).
      destruct (IH _ _ (lookup_insert_eq db (subnetsC, State_docID st sid)
                          (setField d "space-name" (BString name))))
        as (d' & Hd' & Hfields).
      exists d'. split; [exact Hd' |].
      intros field Hfield. rewrite Hfields by done.
      apply getField_setField_ne. congruence.
    + apply IH. by rewrite SpacesSpec.applyChange_other.
Qed.

Lemma addSpaceOps_on_subnets (st : State) (name providerId : string)
    (subnets : list string) (isPublic : bool) (id : string) :
  Forall (fun op => opKey op <> (subnetsC, id) \/
                    exists sid, op = stampSubnetOp st name sid)
         (addSpaceOps st name providerId subnets isPublic).
Proof.
  unfold addSpaceOps. cbv zeta. apply Forall_app. split.
  - destruct (negb (String.eqb providerId EmptyString)); cbn [app];
      repeat (apply Forall_cons_2;
              [left; unfold opKey, State_networkEntityGlobalKeyOp;
               cbn [txn.C txn.Id]; unfold spacesC, providerIDsC, subnetsC; congruence |]);
      apply Forall_nil_2.
  - apply Forall_forall. intros op Hop.
    apply list_elem_of_In, in_map_iff in Hop as (sid & <- & _). right. by exists sid.
Qed.

(** Under a tick that leaves a document alone, a call changes it only
    through the operations that name it. *)
Lemma leaves_next (k : string * string) (w : World) :
  leaves k w -> (forall db, others (next w).1 db !! k = db !! k) /\ leaves k (next w).2.
Proof.
  intros Hw. destruct w as [| t w]; simpl.
  - split; [done | constructor].
  - by inversion Hw.
Qed.

Lemma txnStep_other (t : Tick) (db : DB) (ops : list txn.Op) (k : string * string) :
  (forall db, others t db !! k = db !! k) ->
  k ∉ map opKey ops ->
  (txnStep t db ops).2 !! k = db !! k.
Proof.
  intros Ht Hk. unfold txnStep. destruct (fault t); cbn [snd]; [done |].
  unfold applyOps. destruct (forallb _ _); cbn [snd]; [| done].
  by rewrite SpacesSpec.foldl_applyChange_other, Ht by by apply not_in_keys.
Qed.

Lemma run_readOnly_other {A : Type} (p : Prog A) (w : World) (db : DB)
    (k : string * string) :
  readOnly p -> leaves k w -> store (run p w db) !! k = db !! k.
Proof.
  revert w db. induction p as [a | ops c IH | c id f IH]; intros w db Hp Hw; simpl in *.
  - done.
  - done.
  - destruct (leaves_next k w Hw) as [Hnext Hrest].
    rewrite IH, SpacesSpec.findStep_store by done. apply Hnext.
Qed.

(** [AddSpace] with a valid name is its transaction followed by reads. *)
Lemma AddSpace_store_after (IsValidSpace : string -> bool) (st : State)
    (name providerId : string) (subnets : list string) (isPublic : bool)
    (w : World) (db : DB) :
  IsValidSpace name = true ->
  exists p : Prog (result Space),
    readOnly p /\
    store (run (AddSpace IsValidSpace st name providerId subnets isPublic) w db)
    = store (run p (next w).2
               (txnStep (next w).1 db
                  (addSpaceOps st name providerId subnets isPublic)).2).
Proof.
  intros Hvalid. unfold AddSpace. rewrite Hvalid. cbn [negb]. cbv zeta.
  rewrite !SpacesSpec.run_bind, SpacesSpec.run_runTransaction,
    SpacesSpec.resolve_addSpaceOps.
  cbn [value store rest log andThen].
  destruct (txnStep _ _ _).1 as [err |].
  - destruct err;
      try (by exists (Ret (Err (New EmptyString)))).
    exists (classifyAbort st name providerId subnets (newSpaceOf st name providerId isPublic)).
    split; [apply SpacesSpec.readOnly_classifyAbort | done].
  - by exists (Ret (Err (New EmptyString))).
Qed.

(** X9. [AddSpace] changes no document but those its operations name (the
    space, the index entry of its provider id, the listed subnets), and of a
    listed subnet it changes no field but the space name: whatever other
    actors do meanwhile, a document that they leave alone is after the call
    as it was before, up to that field. *)
Theorem AddSpace_footprint (IsValidSpace : string -> bool) (st : State)
    (name providerId : string) (subnets : list string) (isPublic : bool)
    (w : World) (db : DB) :
  let o := run (AddSpace IsValidSpace st name providerId subnets isPublic) w db in
  (forall k, k ∉ map opKey (addSpaceOps st name providerId subnets isPublic) ->
     leaves k w -> store o !! k = db !! k) /\
  (forall subnetId d, subnetId ∈ subnets ->
     leaves (subnetsC, State_docID st subnetId) w ->
     db !! (subnetsC, State_docID st subnetId) = Some d ->
     exists d', store o !! (subnetsC, State_docID st subnetId) = Some d' /\
                forall field, field <> "space-name" ->
                  getField d' field = getField d field).
Proof.
  intros o. subst o.
  destruct (IsValidSpace name) eqn:Hvalid.
  - destruct (AddSpace_store_after IsValidSpace st name providerId subnets isPublic w db
                Hvalid) as (p & Hp & ->).
    split.
    + intros k Hk Hw. destruct (leaves_next k w Hw) as [Hnext Hrest].
      by rewrite run_readOnly_other, txnStep_other.
    + intros subnetId d _ Hw Hd. destruct (leaves_next _ w Hw) as [Hnext Hrest].
      rewrite run_readOnly_other by done.
      unfold txnStep. destruct (fault _); cbn [snd]; [exists d; by rewrite Hnext |].
      unfold applyOps. destruct (forallb _ _); cbn [snd]; [| exists d; by rewrite Hnext].
      apply (stamps_keep_fields st name); [apply addSpaceOps_on_subnets |].
      by rewrite Hnext.
  - unfold AddSpace. rewrite Hvalid. cbn [negb]. simpl.
    split; [done |]. intros subnetId d _ _ Hd. by exists d.
Qed.

Lemma AddSpace_footprint_witness :
  let o := run (AddSpace validSpaceName modelM "b" EmptyString ["10.0.0.0/24"] false)
               [quiet; marksSubnetDying] dbSubnetOfA in
  store o !! (spacesC, "m:a") = dbSubnetOfA !! (spacesC, "m:a").
Proof.
  destruct (AddSpace_footprint validSpaceName modelM "b" EmptyString ["10.0.0.0/24"]
              false [quiet; marksSubnetDying] dbSubnetOfA) as [Hother _].
  apply Hother.
  - vm_compute. intros Hin.
    repeat (apply elem_of_cons in Hin as [Hin | Hin]; [discriminate Hin |]).
    by apply elem_of_nil in Hin.
  - apply Forall_cons_2; [done |]. apply Forall_cons_2; [| apply Forall_nil_2].
    intros db. unfold marksSubnetDying. cbn [others].
    destruct (db !! (subnetsC, "m:10.0.0.0/24")); [| done].
    by rewrite lookup_insert_ne.
Defined.

(** ** A whole life: [AddSpace], [EnsureDead], [Remove] *)

Lemma AddSpace_applied (IsValidSpace : string -> bool) (st : State)
    (name providerId : string) (subnets : list string) (isPublic : bool)
    (db db1 : DB) :
  IsValidSpace name = true ->
  applyOps db (addSpaceOps st name providerId subnets isPublic) = Some db1 ->
  let o := run (AddSpace IsValidSpace st name providerId subnets isPublic) [] db in
  value o = Ok (newSpaceOf st name providerId isPublic) /\ store o = db1.
Proof.
  intros Hvalid Happly o. subst o.
  unfold AddSpace. rewrite Hvalid. cbn [negb]. cbv zeta.
  rewrite !SpacesSpec.run_bind, SpacesSpec.run_runTransaction,
    SpacesSpec.resolve_addSpaceOps.
  cbn [next fst snd value store rest log andThen].
  by rewrite (SpacesSpec.txnStep_applied quiet db db1 _ eq_refl Happly).
Qed.

Lemma getField_marshal_life (doc : spaceDoc) :
  getField (marshalSpace doc) "life" = Some (BLife (DocLife doc)).
Proof. reflexivity. Qed.

(** X10. A space created, marked Dead and removed, each call on its own:
    from a store where the name is free, the provider id unused and the
    listed subnets stored, the three calls succeed, and the store ends as it
    began on every document that is not a listed subnet (the space and the
    index entry of its provider id are gone again); with no subnet listed it
    is the very store it began as. [Remove] leaves the listed subnets
    stamped with the name of the space that is gone, and [Space] reports the
    name not found. *)
Theorem create_kill_remove (IsValidSpace : string -> bool) (st : State)
    (name providerId : string) (subnets : list string) (isPublic : bool) (db : DB) :
  let s := newSpaceOf st name providerId isPublic in
  let created := run (AddSpace IsValidSpace st name providerId subnets isPublic) [] db in
  let killed := run (EnsureDead s) [] (store created) in
  let gone := run (Remove (value killed).1) [] (store killed) in
  IsValidSpace name = true ->
  db !! (spacesC, State_docID st name) = None ->
  (providerId <> EmptyString ->
   db !! (providerIDsC, State_networkEntityGlobalKey st "space" providerId) = None) ->
  (forall sid, sid ∈ subnets -> is_Some (db !! (subnetsC, State_docID st sid))) ->
  (value created = Ok s /\ value killed = (setLife s Dead, None) /\ value gone = None) /\
  (forall k, (forall sid, sid ∈ subnets -> k <> (subnetsC, State_docID st sid)) ->
     store gone !! k = db !! k) /\
  (forall sid, sid ∈ subnets ->
     exists d, store gone !! (subnetsC, State_docID st sid) = Some d /\
               getField d "space-name" = Some (BString name)) /\
  (subnets = [] -> store gone = db) /\
  value (run (State_Space st name) [] (store gone)) = Err (NotFoundf "space %q" [name]).
Proof.
  intros s created killed gone Hvalid Hfree Hprov Hsubnets.
  destruct (SpacesSpec.applyOps_addSpace st name providerId subnets isPublic db
              Hfree Hprov Hsubnets) as (db1 & Happly & Hspace & _ & Hstamped).
  destruct (AddSpace_applied IsValidSpace st name providerId subnets isPublic db db1
              Hvalid Happly) as [Hcreated Hstore1].
  fold created in Hcreated, Hstore1.
  set (sk := (spacesC, State_docID st name)) in *.
  assert (Hsk : spaceKey s = sk).
  { unfold spaceKey, s, newSpaceOf, newSpaceDoc. cbn [Spaces.st Spaces.doc DocID].
    by rewrite SpacesSpec.docID_idem. }
  set (dead := setField (marshalSpace (newSpaceDoc st name providerId isPublic))
                 "life" (BLife Dead)).
  (* EnsureDead *)
  assert (Hkilled : killed = {| value := (setLife s Dead, None);
                                store := <[sk := dead]> db1; rest := [];
                                log := [TxnEvent (map (resolveOp st) [ensureDeadOp s])
                                          None] |}).
  { subst killed. rewrite Hstore1.
    rewrite SpacesSpec.run_EnsureDead_not_dead by done.
    cbv zeta. cbn [next fst snd]. unfold txnStep. cbn [fault quiet others].
    rewrite (SpacesSpec.applyOps_ensureDead s db1), Hsk, Hspace.
    rewrite getField_marshal_life. cbn [newSpaceDoc DocLife].
    rewrite bool_decide_eq_true_2 by done. reflexivity. }
  (* Remove *)
  assert (Hsk' : spaceKey (setLife s Dead) = sk) by exact Hsk.
  assert (Hgone : value gone = None /\ store gone = removed (setLife s Dead) (<[sk := dead]> db1)).
  { subst gone. rewrite Hkilled. cbn [value store fst].
    rewrite SpacesSpec.run_Remove_dead by done.
    cbv zeta. cbn [next fst snd value store]. unfold txnStep. cbn [fault quiet others].
    rewrite (SpacesSpec.applyOps_remove (setLife s Dead)), Hsk', lookup_insert_eq.
    unfold dead. rewrite SpacesSpec.getField_setField.
    rewrite bool_decide_eq_true_2 by done. done. }
  destruct Hgone as [Hvalue Hstore3].
  assert (Hpk : providerKey (setLife s Dead)
                = (providerIDsC, State_networkEntityGlobalKey st "space" providerId))
    by reflexivity.
  assert (Hpid : Space_ProviderId (setLife s Dead) = providerId) by reflexivity.
  (* the final store, key by key *)
  assert (Hlookup : forall k, k <> sk ->
            (providerId <> EmptyString ->
             k <> (providerIDsC, State_networkEntityGlobalKey st "space" providerId)) ->
            store gone !! k = db1 !! k).
  { intros k Hk Hkp. rewrite Hstore3. unfold removed. rewrite Hsk', Hpk, Hpid.
    destruct (String.eqb providerId EmptyString) eqn:Hp; cbn [negb].
    - by rewrite lookup_delete_ne, lookup_insert_ne.
    - apply String.eqb_neq in Hp.
      rewrite lookup_delete_ne by (apply not_eq_sym; by apply Hkp).
      by rewrite lookup_delete_ne, lookup_insert_ne. }
  assert (Hframe : forall k,
            (forall sid, sid ∈ subnets -> k <> (subnetsC, State_docID st sid)) ->
            store gone !! k = db !! k).
  { intros k Hk.
    destruct (decide (k = sk)) as [-> | Hne].
    { rewrite Hfree, Hstore3. unfold removed. rewrite Hsk', Hpk.
      destruct (negb _).
      - rewrite lookup_delete_ne by apply SpacesSpec.spaces_not_providerIDs.
        apply lookup_delete_eq.
      - apply lookup_delete_eq. }
    destruct (decide (providerId <> EmptyString /\
                      k = (providerIDsC,
                           State_networkEntityGlobalKey st "space" providerId)))
      as [[Hp ->] | Hnp].
    { rewrite (Hprov Hp), Hstore3. unfold removed. rewrite Hsk', Hpk, Hpid.
      rewrite (proj2 (String.eqb_neq _ _) Hp). cbn [negb]. apply lookup_delete_eq. }
    rewrite Hlookup; [| done | intros Hp ->; by apply Hnp].
    unfold applyOps in Happly. destruct (forallb _ _); [| done].
    injection Happly as <-.
    apply SpacesSpec.foldl_applyChange_other.
    unfold addSpaceOps. cbv zeta. apply Forall_app. split.
    - destruct (String.eqb providerId EmptyString) eqn:Hp; cbn [negb app].
      + apply Forall_cons_2; [| apply Forall_nil_2]. cbn [txn.C txn.Id].
        fold sk. congruence.
      + apply String.eqb_neq in Hp.
        apply Forall_cons_2; [cbn [txn.C txn.Id]; fold sk; congruence |].
        apply Forall_cons_2; [| apply Forall_nil_2].
        unfold State_networkEntityGlobalKeyOp. cbn [txn.C txn.Id].
        intros Heq. apply Hnp. by split.
    - apply Forall_forall. intros op Hop.
      apply list_elem_of_In, in_map_iff in Hop as (sid & <- & Hsid).
      unfold stampSubnetOp. cbn [txn.C txn.Id].
      apply not_eq_sym, Hk. by apply list_elem_of_In. }
  split; [split; [exact Hcreated | split; [by rewrite Hkilled | exact Hvalue]] |].
  split; [exact Hframe |]. split; [| split].
  - intros sid Hsid. destruct (Hstamped sid Hsid) as (d & Hd & Hname).
    exists d. split; [| exact Hname].
    rewrite Hlookup; [exact Hd | | intros _].
    + apply SpacesSpec.spaces_not_subnets.
    + apply not_eq_sym, SpacesSpec.subnets_not_providerIDs.
  - intros ->. apply map_eq. intros k. apply Hframe.
    intros sid Hsid. by apply elem_of_nil in Hsid.
  - rewrite SpacesSpec.run_State_Space. cbv zeta. cbn [next fst value].
    rewrite (SpacesSpec.findStep_missing quiet); [done | done |].
    cbn [others quiet]. fold sk. rewrite Hframe; [exact Hfree |].
    intros sid _. apply not_eq_sym, SpacesSpec.spaces_not_subnets.
Qed.

Lemma create_kill_remove_witness :
  let s := newSpaceOf modelM "a" "p" false in
  let created := run (AddSpace validSpaceName modelM "a" "p" ["10.0.0.0/24"] false)
                     [] dbSubnet in
  let killed := run (EnsureDead s) [] (store created) in
  let gone := run (Remove (value killed).1) [] (store killed) in
  (value created = Ok s /\ value killed = (setLife s Dead, None) /\ value gone = None) /\
  store gone !! (spacesC, "m:a") = None /\
  store gone !! (providerIDsC, "m:space:p") = None /\
  (exists d, store gone !! (subnetsC, State_docID modelM "10.0.0.0/24") = Some d /\
             getField d "space-name" = Some (BString "a")) /\
  value (run (State_Space modelM "a") [] (store gone)) = Err (NotFoundf "space %q" ["a"]).
Proof.
  intros s created killed gone.
  destruct (create_kill_remove validSpaceName modelM "a" "p" ["10.0.0.0/24"] false
              dbSubnet) as (Hcalls & Hframe & Hstamps & _ & Hspace).
  - reflexivity.
  - reflexivity.
  - intros _. reflexivity.
  - intros sid Hsid. apply list_elem_of_singleton in Hsid as ->. by eexists.
  - split; [exact Hcalls |]. split; [| split; [| split]].
    + apply (Hframe (spacesC, "m:a")).
      intros sid _. vm_compute. congruence.
    + apply (Hframe (providerIDsC, "m:space:p")).
      intros sid _. vm_compute. congruence.
    + apply Hstamps. by left.
    + exact Hspace.
Defined.

(** ** [Subnets], [AllSpaces] and [Refresh] *)

Lemma Subnets_quiet (s : Space) (db : DB) :
  Subnets s quiet db
  = (Ok (map (fun doc => {| subnet_st := st s; subnet_doc := doc |})
           (map snd (List.filter
                       (selects (st s) subnetsC [("space-name", BString (Space_Name s))])
                       (map_to_list db)))),
     db).
Proof. reflexivity. Qed.

Lemma Subnets_elem (s : Space) (db : DB) (sub : Subnet) :
  sub ∈ map (fun doc => {| subnet_st := st s; subnet_doc := doc |})
          (map snd (List.filter
                      (selects (st s) subnetsC [("space-name", BString (Space_Name s))])
                      (map_to_list db))) <->
  subnet_st sub = st s /\
  exists id, db !! (subnetsC, id) = Some (subnet_doc sub) /\
             State_docID (st s) id = id /\
             getField (subnet_doc sub) "space-name" = Some (BString (Space_Name s)).
Proof.
  rewrite list_elem_of_In, in_map_iff. split.
  - intros (d & <- & Hd). apply list_elem_of_In, selected_elem in Hd
      as (id & Hd & Hid & Hm).
    split; [done |]. exists id. cbn [subnet_doc]. by rewrite <- matches_one.
  - intros (Hst & id & Hd & Hid & Hname). exists (subnet_doc sub). split.
    + destruct sub as [st' d]. cbn in *. by rewrite Hst.
    + apply list_elem_of_In, selected_elem. exists id. by rewrite matches_one.
Qed.

(** X11. A listed subnet moves to the new space: after a successful
    [AddSpace] the stored subnet carries the new name, [Subnets] of the new
    space returns it, and [Subnets] of a space of any other name does not,
    whichever space the subnet belonged to before. *)
Theorem AddSpace_moves_subnet (IsValidSpace : string -> bool) (st : State)
    (name providerId : string) (subnets : list string) (isPublic : bool)
    (w : World) (db : DB) (s other : Space) (sid : string) :
  let o := run (AddSpace IsValidSpace st name providerId subnets isPublic) w db in
  value o = Ok s ->
  sid ∈ subnets ->
  Space_Name other <> name ->
  exists d,
    store o !! (subnetsC, State_docID st sid) = Some d /\
    getField d "space-name" = Some (BString name) /\
    (exists subs, (Subnets s quiet (store o)).1 = Ok subs /\
                  {| subnet_st := st; subnet_doc := d |} ∈ subs) /\
    (exists subs, (Subnets other quiet (store o)).1 = Ok subs /\
                  forall sub, sub ∈ subs -> subnet_doc sub <> d).
Proof.
  intros o Hok Hsid Hother.
  destruct (AddSpace_success_store _ _ _ _ _ _ _ _ _ Hok) as (Hs & _ & _ & Hstamped).
  fold o in Hstamped.
  destruct (Hstamped sid Hsid) as (d & Hd & Hname).
  exists d. split; [exact Hd |]. split; [exact Hname |]. split.
  - rewrite Subnets_quiet. cbn [fst]. eexists. split; [reflexivity |].
    apply Subnets_elem. rewrite Hs. cbn [newSpaceOf Spaces.st subnet_st subnet_doc].
    split; [done |]. exists (State_docID st sid).
    split; [exact Hd |]. split; [apply SpacesSpec.docID_idem | exact Hname].
  - rewrite Subnets_quiet. cbn [fst]. eexists. split; [reflexivity |].
    intros sub Hsub Heq. apply Subnets_elem in Hsub as (_ & id & _ & _ & Hstamp).
    rewrite Heq, Hname in Hstamp. congruence.
Qed.

Lemma AddSpace_moves_subnet_witness :
  let a := newSpaceOf modelM "a" EmptyString false in
  let b := newSpaceOf modelM "b" EmptyString false in
  let o := run (AddSpace validSpaceName modelM "b" EmptyString ["10.0.0.0/24"] false)
               [] dbSubnetOfA in
  (exists subs, (Subnets a quiet dbSubnetOfA).1 = Ok subs /\ length subs = 1%nat) /\
  exists d,
    store o !! (subnetsC, State_docID modelM "10.0.0.0/24") = Some d /\
    getField d "space-name" = Some (BString "b") /\
    (exists subs, (Subnets b quiet (store o)).1 = Ok subs /\
                  {| subnet_st := modelM; subnet_doc := d |} ∈ subs) /\
    (exists subs, (Subnets a quiet (store o)).1 = Ok subs /\
                  forall sub, sub ∈ subs -> subnet_doc sub <> d).
Proof.
  intros a b o. split; [by eexists |].
  apply (AddSpace_moves_subnet validSpaceName modelM "b" EmptyString ["10.0.0.0/24"]
           false [] dbSubnetOfA b a "10.0.0.0/24").
  - reflexivity.
  - by left.
  - done.
Defined.

(** X12. [Subnets] reads and never writes. When the driver fails it returns
    no subnet and the driver's error annotated "cannot fetch subnets";
    otherwise it returns exactly the subnets stored in the space's model
    whose space name is the name of the space, each with the state of the
    space. *)
Theorem Subnets_contract (s : Space) (t : Tick) (db : DB) :
  (Subnets s t db).2 = others t db /\
  (forall msg, fault t = Some msg ->
     (Subnets s t db).1 = Err (Annotatef (ErrStore msg) "cannot fetch subnets" [])) /\
  (fault t = None ->
   exists subs, (Subnets s t db).1 = Ok subs /\
     forall sub, sub ∈ subs <->
       subnet_st sub = st s /\
       exists id, others t db !! (subnetsC, id) = Some (subnet_doc sub) /\
                  State_docID (st s) id = id /\
                  getField (subnet_doc sub) "space-name"
                  = Some (BString (Space_Name s))).
Proof.
  unfold Subnets, findAllStep. cbv zeta.
  destruct (fault t) as [msg |] eqn:Hf; cbn [fst snd DeferredAnnotatefR].
  - split; [done |]. split; [by intros ? [= <-] | done].
  - split; [done |]. split; [done |]. intros _.
    eexists. split; [reflexivity |]. intros sub. apply Subnets_elem.
Qed.

Lemma Subnets_contract_witness :
  exists subs,
    (Subnets (newSpaceOf modelM "a" EmptyString false) quiet dbSubnetOfA).1 = Ok subs /\
    forall sub, sub ∈ subs <->
      subnet_st sub = modelM /\
      exists id, dbSubnetOfA !! (subnetsC, id) = Some (subnet_doc sub) /\
                 State_docID modelM id = id /\
                 getField (subnet_doc sub) "space-name" = Some (BString "a").
Proof.
  destruct (Subnets_contract (newSpaceOf modelM "a" EmptyString false) quiet dbSubnetOfA)
    as (_ & _ & Hok).
  apply Hok. reflexivity.
Defined.

(** X13. [AllSpaces] reads and never writes. When the driver fails it
    returns the driver's error annotated "cannot get all spaces"; otherwise
    it returns one space per space document stored in the model, whatever
    its life (Dying and Dead spaces are listed until they are removed), and
    no other. *)
Theorem AllSpaces_contract (st : State) (t : Tick) (db : DB) :
  (AllSpaces st t db).2 = others t db /\
  (forall msg, fault t = Some msg ->
     (AllSpaces st t db).1 = Err (Annotatef (ErrStore msg) "cannot get all spaces" [])) /\
  (fault t = None ->
   exists spaces, (AllSpaces st t db).1 = Ok spaces /\
     (forall sp, sp ∈ spaces <->
        exists id d, others t db !! (spacesC, id) = Some d /\
                     State_docID st id = id /\
                     sp = {| st := st; doc := unmarshalSpace d |}) /\
     (forall id d l, others t db !! (spacesC, id) = Some d ->
        State_docID st id = id ->
        getField d "life" = Some (BLife l) ->
        exists sp, sp ∈ spaces /\ Space_Life sp = l /\
                   Space_ID sp = DocID (unmarshalSpace d))).
Proof.
  unfold AllSpaces, findAllStep. cbv zeta.
  destruct (fault t) as [msg |] eqn:Hf; cbn [fst snd].
  - split; [done |]. split; [by intros ? [= <-] | done].
  - split; [done |]. split; [done |]. intros _.
    eexists. split; [reflexivity |].
    assert (Helem : forall sp,
              sp ∈ map (fun doc => {| st := st; doc := unmarshalSpace doc |})
                     (map snd (List.filter (selects st spacesC []) (map_to_list (others t db))))
              <-> exists id d, others t db !! (spacesC, id) = Some d /\
                               State_docID st id = id /\
                               sp = {| st := st; doc := unmarshalSpace d |}).
    { intros sp. rewrite list_elem_of_In, in_map_iff. split.
      - intros (d & <- & Hd).
        apply list_elem_of_In, selected_elem in Hd as (id & Hd & Hid & _).
        by exists id, d.
      - intros (id & d & Hd & Hid & ->). exists d. split; [done |].
        apply list_elem_of_In, selected_elem. by exists id. }
    split; [exact Helem |].
    intros id d l Hd Hid Hlife.
    exists {| st := st; doc := unmarshalSpace d |}. split.
    + apply Helem. by exists id, d.
    + split; [| done]. unfold Space_Life, unmarshalSpace, lifeField.
      cbn [Spaces.doc DocLife]. by rewrite Hlife.
Qed.

Lemma AllSpaces_contract_witness :
  exists spaces,
    (AllSpaces modelM quiet dbDeadA).1 = Ok spaces /\
    deadSpaceA ∈ spaces /\ Space_Life deadSpaceA = Dead.
Proof.
  destruct (AllSpaces_contract modelM quiet dbDeadA) as (_ & _ & Hok).
  destruct Hok as (spaces & Hspaces & Helem & _); [reflexivity |].
  exists spaces. split; [exact Hspaces |]. split; [| reflexivity].
  apply Helem. exists "m:a", (marshalSpace (doc deadSpaceA)).
  split; [reflexivity |]. split; reflexivity.
Defined.

(** X14. [Refresh] reads and never writes. It succeeds exactly when the
    document of the space is stored and the driver does not fail, and then
    the space holds that document; it fails with a not-found error exactly
    when the driver answers and the document is gone; and whenever it fails
    the space keeps what it held. *)
Theorem Refresh_contract (s : Space) (t : Tick) (w : World) (db : DB) :
  let o := run (Refresh s) (t :: w) db in
  store o = others t db /\
  (forall d, fault t = None -> others t db !! spaceKey s = Some d ->
     value o = ({| st := st s; doc := unmarshalSpace d |}, None)) /\
  ((value o).2 = None ->
   fault t = None /\ is_Some (others t db !! spaceKey s)) /\
  (forall err, (value o).2 = Some err ->
     (value o).1 = s /\
     (IsNotFound err = true <->
      fault t = None /\ others t db !! spaceKey s = None)).
Proof.
  intros o. subst o. rewrite SpacesSpec.run_Refresh. cbv zeta.
  cbn [next fst snd value store]. unfold findStep, spaceKey.
  destruct (fault t) as [msg |]; cbn [fst snd].
  - split; [done |]. split; [done |]. split; [done |].
    intros err [= <-]. split; [done |]. split; [done | by intros [? _]].
  - destruct (others t db !! (spacesC, State_docID (st s) (DocID (doc s))))
      as [d |]; cbn [fst snd].
    + split; [done |]. split; [by intros ? _ [= <-] |]. split; [by eauto |]. done.
    + split; [done |]. split; [done |]. split; [done |].
      intros err [= <-]. done.
Qed.

Lemma Refresh_contract_witness :
  value (run (Refresh (newSpaceOf modelM "a" "p" false)) [quiet] dbDeadA)
    = (deadSpaceA, None) /\
  exists err,
    value (run (Refresh deadSpaceA) [quiet] dbProviderTaken) = (deadSpaceA, Some err) /\
    IsNotFound err = true.
Proof.
  destruct (Refresh_contract (newSpaceOf modelM "a" "p" false) quiet [] dbDeadA)
    as (_ & Hok & _).
  destruct (Refresh_contract deadSpaceA quiet [] dbProviderTaken) as (_ & _ & _ & Herr).
  split.
  - apply (Hok (marshalSpace (doc deadSpaceA))); reflexivity.
  - exists (NotFoundf "space %q" ["a"]).
    destruct (Herr (NotFoundf "space %q" ["a"]) eq_refl) as [Hs Hiff].
    split; [reflexivity |]. apply Hiff. split; reflexivity.
Defined.

(** X15. A space that still says Alive or Dying while the stored document is
    Dead: [EnsureDead] through it runs its transaction and fails with the
    NotAlive error, changing nothing. After a [Refresh] the space says Dead,
    and [EnsureDead] succeeds without a call, whatever the world. *)
Theorem stale_EnsureDead_needs_Refresh (s : Space) (w : World) (db : DB) (d : bsonD) :
  let direct := run (EnsureDead s) [] db in
  let refreshed := run (Refresh s) [] db in
  let after := run (EnsureDead (value refreshed).1) w db in
  DocLife (doc s) <> Dead ->
  db !! spaceKey s = Some d ->
  getField d "life" = Some (BLife Dead) ->
  (exists err, value direct = (s, Some err) /\ Cause err = errNotAlive) /\
  store direct = db /\
  (exists res, log direct = [TxnEvent (map (resolveOp (st s)) [ensureDeadOp s]) res]) /\
  (value refreshed).2 = None /\
  Space_Life (value refreshed).1 = Dead /\
  value after = ((value refreshed).1, None) /\
  log after = [] /\
  store after = db.
Proof.
  intros direct refreshed after Hstale Hd Hlife.
  assert (Hdirect : direct
            = {| value := (s, Some (Annotatef (onAbort ErrAborted errNotAlive)
                                     "cannot set space %q to dead" [Space_String s]));
                 store := db; rest := [];
                 log := [TxnEvent (map (resolveOp (st s)) [ensureDeadOp s])
                           (Some ErrAborted)] |}).
  { subst direct. rewrite SpacesSpec.run_EnsureDead_not_dead by done.
    cbv zeta. cbn [next fst snd]. unfold txnStep. cbn [fault quiet others].
    rewrite SpacesSpec.applyOps_ensureDead, Hd, Hlife.
    by rewrite bool_decide_eq_false_2. }
  assert (Hrefreshed : value refreshed = ({| st := st s; doc := unmarshalSpace d |}, None)).
  { subst refreshed. rewrite SpacesSpec.run_Refresh. cbv zeta. cbn [next fst value].
    by rewrite (SpacesSpec.findStep_found quiet _ _ _ d eq_refl Hd). }
  assert (Hdead : DocLife (doc (value refreshed).1) = Dead).
  { rewrite Hrefreshed. cbn [fst Spaces.doc]. unfold unmarshalSpace, lifeField.
    cbn [DocLife]. by rewrite Hlife. }
  split; [rewrite Hdirect; by eexists |].
  split; [by rewrite Hdirect |].
  split; [rewrite Hdirect; by eexists |].
  split; [by rewrite Hrefreshed |].
  split; [exact Hdead |].
  subst after. by rewrite SpacesSpec.run_EnsureDead_dead.
Qed.

Lemma stale_EnsureDead_needs_Refresh_witness :
  let s := newSpaceOf modelM "a" "p" false in
  (exists err, value (run (EnsureDead s) [] dbDeadA) = (s, Some err) /\
               Cause err = errNotAlive) /\
  value (run (Refresh s) [] dbDeadA) = (deadSpaceA, None) /\
  value (run (EnsureDead deadSpaceA) [createsB] dbDeadA) = (deadSpaceA, None).
Proof.
  intros s.
  destruct (stale_EnsureDead_needs_Refresh s [createsB] dbDeadA
              (marshalSpace (doc deadSpaceA)))
    as (Herr & _ & _ & _ & _ & Hafter & _).
  - done.
  - reflexivity.
  - reflexivity.
  - split; [exact Herr |]. split; [reflexivity | exact Hafter].
Defined.

(** X16. [EnsureDead] and [Remove] stay within the space, whatever other
    actors do meanwhile: [EnsureDead] changes no other document, and of the
    space's own document no field but the life; [Remove] changes no
    document but the space's own and the index entry of its provider id, so
    the subnets keep whatever space name they carry. *)
Theorem EnsureDead_Remove_footprint (s : Space) (w : World) (db : DB) :
  (forall k, k <> spaceKey s -> leaves k w ->
     store (run (EnsureDead s) w db) !! k = db !! k) /\
  (forall d, leaves (spaceKey s) w -> db !! spaceKey s = Some d ->
     exists d', store (run (EnsureDead s) w db) !! spaceKey s = Some d' /\
                forall field, field <> "life" -> getField d' field = getField d field) /\
  (forall k, k <> spaceKey s -> k <> providerKey s -> leaves k w ->
     store (run (Remove s) w db) !! k = db !! k) /\
  (forall id, leaves (subnetsC, id) w ->
     store (run (Remove s) w db) !! (subnetsC, id) = db !! (subnetsC, id)).
Proof.
  assert (Hremove : forall k, k <> spaceKey s -> k <> providerKey s -> leaves k w ->
            store (run (Remove s) w db) !! k = db !! k).
  { intros k Hk Hkp Hw. destruct (leaves_next k w Hw) as [Hnext _].
    destruct (decide (DocLife (doc s) = Dead)) as [Hd | Hd].
    - rewrite SpacesSpec.run_Remove_dead by done. cbv zeta. cbn [store].
      unfold txnStep. destruct (fault _); cbn [snd]; [done |].
      rewrite SpacesSpec.applyOps_remove.
      destruct (others _ db !! spaceKey s) as [d |]; cbn [snd]; [| done].
      destruct (bool_decide _); cbn [snd]; [| done].
      unfold removed. destruct (negb _).
      + by rewrite !lookup_delete_ne.
      + by rewrite lookup_delete_ne.
    - by rewrite SpacesSpec.run_Remove_not_dead. }
  split; [| split; [| split]].
  - intros k Hk Hw. destruct (leaves_next k w Hw) as [Hnext _].
    destruct (decide (DocLife (doc s) = Dead)) as [Hd | Hd].
    + by rewrite SpacesSpec.run_EnsureDead_dead.
    + rewrite SpacesSpec.run_EnsureDead_not_dead by done. cbv zeta. cbn [store].
      unfold txnStep. destruct (fault _); cbn [snd]; [done |].
      rewrite SpacesSpec.applyOps_ensureDead.
      destruct (others _ db !! spaceKey s) as [d |]; cbn [snd]; [| done].
      destruct (bool_decide _); cbn [snd]; [| done].
      by rewrite lookup_insert_ne.
  - intros d Hw Hd. destruct (leaves_next _ w Hw) as [Hnext _].
    destruct (decide (DocLife (doc s) = Dead)) as [Hlife | Hlife].
    + rewrite SpacesSpec.run_EnsureDead_dead by done. by exists d.
    + rewrite SpacesSpec.run_EnsureDead_not_dead by done. cbv zeta. cbn [store].
      unfold txnStep. destruct (fault _); cbn [snd]; [exists d; by rewrite Hnext |].
      rewrite SpacesSpec.applyOps_ensureDead, Hnext, Hd.
      destruct (bool_decide _); cbn [snd]; [| exists d; by rewrite Hnext].
      eexists. split; [apply lookup_insert_eq |].
      intros field Hfield. apply getField_setField_ne. congruence.
  - exact Hremove.
  - intros id Hw. apply Hremove; [| | done].
    + apply SpacesSpec.spaces_not_subnets.
    + apply not_eq_sym, SpacesSpec.subnets_not_providerIDs.
Qed.

Lemma EnsureDead_Remove_footprint_witness :
  exists d', store (run (EnsureDead (newSpaceOf modelM "a" EmptyString false))
                      [marksSubnetDying] dbSubnetOfA)
               !! spaceKey (newSpaceOf modelM "a" EmptyString false) = Some d' /\
             forall field, field <> "life" ->
               getField d' field
               = getField (marshalSpace (newSpaceDoc modelM "a" EmptyString false)) field.
Proof.
  destruct (EnsureDead_Remove_footprint (newSpaceOf modelM "a" EmptyString false)
              [marksSubnetDying] dbSubnetOfA) as (_ & Hown & _).
  apply Hown; [| reflexivity].
  apply Forall_cons_2; [| apply Forall_nil_2].
  intros db. unfold marksSubnetDying. cbn [others].
  destruct (db !! (subnetsC, "m:10.0.0.0/24")); [| done].
  by rewrite lookup_insert_ne.
Defined.

(** ** The index of provider ids *)

Lemma prefix_cons (a b : ascii) (s t : string) :
  String.prefix (String a s) (String b t) = Ascii.eqb a b && String.prefix s t.
Proof.
  simpl. destruct (Ascii.ascii_dec a b) as [-> | Hne].
  - by rewrite Ascii.eqb_refl.
  - by rewrite (proj2 (Ascii.eqb_neq a b) Hne).
Qed.

Lemma append_cons (c : ascii) (s t : string) : String c s ++ t = String c (s ++ t).
Proof. reflexivity. Qed.

Ltac prefix_step H uuid c x :=
  destruct uuid as [| c uuid]; [done |];
  rewrite 2!append_cons, prefix_cons; rewrite prefix_cons in H;
  destruct (Ascii.eqb_spec c x) as [-> | _]; [| done];
  cbn [Ascii.eqb Bool.eqb andb] in *.

Lemma prefix_space (uuid p : string) :
  String.prefix "space" uuid = false ->
  String.prefix (uuid ++ ":") ("space:" ++ p) = false.
Proof.
  intros H.
  prefix_step H uuid c1 "s"%char. prefix_step H uuid c2 "p"%char.
  prefix_step H uuid c3 "a"%char. prefix_step H uuid c4 "c"%char.
  prefix_step H uuid c5 "e"%char.
  by destruct uuid.
Qed.

Lemma append_inj_r (a b c : string) : (a ++ b = a ++ c -> b = c)%string.
Proof. induction a as [| x a IH]; simpl; [done |]. intros [= H]. by apply IH. Qed.

(** Distinct provider ids have distinct index entries. *)
Lemma globalKey_inj (st : State) (p q : string) :
  String.prefix "space" (State_ModelUUID st) = false ->
  State_networkEntityGlobalKey st "space" p = State_networkEntityGlobalKey st "space" q ->
  p = q.
Proof.
  intros Hst. unfold State_networkEntityGlobalKey, State_docID, ensureModelUUID.
  cbv zeta.
  change ("space" ++ ":" ++ p) with ("space:" ++ p).
  change ("space" ++ ":" ++ q) with ("space:" ++ q).
  rewrite !prefix_space by done.
  intros H. apply append_inj_r in H. by apply (append_inj_r "space:") in H.
Qed.

Lemma providerOf_setField (d : bsonD) (v : bval) :
  providerOf (setField d "life" v) = providerOf d.
Proof.
  unfold providerOf, unmarshalSpace, stringField. cbn [ProviderId].
  by rewrite getField_setField_ne.
Qed.

Lemma providerOf_marshal (doc : spaceDoc) : providerOf (marshalSpace doc) = ProviderId doc.
Proof. unfold providerOf. by rewrite SpacesSpec.unmarshal_marshal. Qed.

Lemma Remove_removed (s : Space) (w : World) (db : DB) :
  isolated w ->
  store (run (Remove s) w db) = db \/
  exists d, db !! spaceKey s = Some d /\ store (run (Remove s) w db) = removed s db.
Proof.
  intros Hw. destruct (decide (DocLife (doc s) = Dead)) as [Hd | Hd].
  - rewrite SpacesSpec.run_Remove_dead by done. cbv zeta. cbn [store].
    destruct (SpacesSpec.isolated_next w Hw) as [Hnext _].
    destruct (SpacesSpec.txnStep_isolated (next w).1 db
                (map (resolveOp (st s)) (removeOps s)) Hnext)
      as [[Happlied _] | [Hsame _]]; [| by left].
    right. rewrite SpacesSpec.applyOps_remove in Happlied.
    destruct (db !! spaceKey s) as [d |]; [| done].
    exists d. split; [done |].
    destruct (bool_decide (getField d "life" = Some (BLife Dead))); congruence.
  - left. by rewrite SpacesSpec.run_Remove_not_dead.
Qed.

(** A store whose spaces all come, provider id unchanged, from the spaces of
    an indexed store without duplicates, and keep their index entries, is
    indexed and without duplicates. *)
Lemma index_transfer (st : State) (db db' : DB) :
  (forall id d', db' !! (spacesC, id) = Some d' -> inModel st id ->
     providerOf d' <> EmptyString ->
     exists d, db !! (spacesC, id) = Some d /\ providerOf d = providerOf d' /\
       (is_Some (db !! (providerIDsC, State_networkEntityGlobalKey st "space" (providerOf d')))
        -> is_Some (db' !! (providerIDsC,
                            State_networkEntityGlobalKey st "space" (providerOf d'))))) ->
  indexed st db -> providerIdsUnique st db ->
  indexed st db' /\ providerIdsUnique st db'.
Proof.
  intros Hfrom Hidx Huniq. split.
  - intros id d' Hd' Hin Hp.
    destruct (Hfrom id d' Hd' Hin Hp) as (d & Hd & Heq & Hkeep).
    apply Hkeep. rewrite <- Heq. apply (Hidx id d Hd Hin). by rewrite Heq.
  - intros id1 id2 d1 d2 H1 H2 Hin1 Hin2 Hp Heq.
    destruct (Hfrom id1 d1 H1 Hin1 Hp) as (e1 & He1 & Hq1 & _).
    destruct (Hfrom id2 d2 H2 Hin2 ltac:(by rewrite <- Heq)) as (e2 & He2 & Hq2 & _).
    apply (Huniq id1 id2 e1 e2 He1 He2 Hin1 Hin2); congruence.
Qed.

Lemma addSpaceOps_not_space (st : State) (name providerId : string)
    (subnets : list string) (isPublic : bool) (id : string) :
  id <> State_docID st name ->
  Forall (fun op => (txn.C op, txn.Id op) <> (spacesC, id))
    (addSpaceOps st name providerId subnets isPublic).
Proof.
  intros Hid. unfold addSpaceOps. cbv zeta. apply Forall_app. split.
  - destruct (negb (String.eqb providerId EmptyString)); cbn [app].
    + apply Forall_cons_2; [| apply Forall_cons_2; [| apply Forall_nil_2]];
        cbn [txn.C txn.Id].
      * intros [= Heq]. by apply Hid.
      * apply SpacesSpec.spaces_not_providerIDs.
    + apply Forall_cons_2; [| apply Forall_nil_2]. cbn [txn.C txn.Id].
      intros [= Heq]. by apply Hid.
  - apply SpacesSpec.stamps_other_collection. simpl. unfold spacesC, subnetsC. congruence.
Qed.

Lemma addSpaceOps_not_entry (st : State) (name providerId : string)
    (subnets : list string) (isPublic : bool) (key : string) :
  (providerId <> EmptyString ->
   key <> State_networkEntityGlobalKey st "space" providerId) ->
  Forall (fun op => (txn.C op, txn.Id op) <> (providerIDsC, key))
    (addSpaceOps st name providerId subnets isPublic).
Proof.
  intros Hkey. unfold addSpaceOps. cbv zeta. apply Forall_app. split.
  - destruct (String.eqb providerId EmptyString) eqn:Hp; cbn [negb app].
    + apply Forall_cons_2; [| apply Forall_nil_2]. cbn [txn.C txn.Id].
      apply not_eq_sym, SpacesSpec.spaces_not_providerIDs.
    + apply String.eqb_neq in Hp.
      apply Forall_cons_2; [| apply Forall_cons_2; [| apply Forall_nil_2]];
        cbn [txn.C txn.Id].
      * apply not_eq_sym, SpacesSpec.spaces_not_providerIDs.
      * unfold State_networkEntityGlobalKeyOp. cbn [txn.C txn.Id].
        intros [= Heq]. by apply (Hkey Hp).
  - apply SpacesSpec.stamps_other_collection. simpl. unfold providerIDsC, subnetsC.
    congruence.
Qed.

(** One operation keeps the index in step with the spaces. *)
Lemma modelStep_index (IsValidSpace : string -> bool) (st : State) (db db' : DB) :
  String.prefix "space" (State_ModelUUID st) = false ->
  modelStep IsValidSpace st db db' ->
  indexed st db -> providerIdsUnique st db ->
  indexed st db' /\ providerIdsUnique st db'.
Proof.
  intros Hst Hstep Hidx Huniq.
  destruct Hstep as [name providerId subnets isPublic w Hw | s w Hw Hs | s w Hw Hs Hcur].
  - (* AddSpace *)
    destruct (SpacesSpec.AddSpace_outcome IsValidSpace st name providerId subnets
                isPublic w db Hw) as [[Happlied _] | [-> _]]; [| done].
    set (db' := store _) in *.
    destruct (applyOps_addSpace_inv _ _ _ _ _ _ _ Happlied) as (Hfresh & Hprov & Hsub).
    destruct (SpacesSpec.applyOps_addSpace st name providerId subnets isPublic db
                Hfresh Hprov Hsub) as (db2 & Happly2 & Hspace & Hentry & _).
    rewrite Happlied in Happly2. injection Happly2 as <-.
    assert (Hfold : db' = foldl applyChange db
                            (addSpaceOps st name providerId subnets isPublic)).
    { unfold applyOps in Happlied. destruct (forallb _ _); [| done]. congruence. }
    assert (Hold : forall id, id <> State_docID st name ->
                     db' !! (spacesC, id) = db !! (spacesC, id)).
    { intros id Hid. rewrite Hfold.
      by apply SpacesSpec.foldl_applyChange_other, addSpaceOps_not_space. }
    assert (Hkept : forall key, is_Some (db !! (providerIDsC, key)) ->
                      is_Some (db' !! (providerIDsC, key))).
    { intros key Hkey.
      destruct (decide (providerId <> EmptyString /\
                        key = State_networkEntityGlobalKey st "space" providerId))
        as [[Hp ->] | Hne].
      - by apply Hentry.
      - rewrite Hfold, SpacesSpec.foldl_applyChange_other; [done |].
        apply addSpaceOps_not_entry. intros Hp Heq. apply Hne. by split. }
    split.
    + intros id d Hd Hin Hp.
      destruct (decide (id = State_docID st name)) as [-> | Hid].
      * rewrite Hspace in Hd. injection Hd as <-.
        rewrite providerOf_marshal in *. cbn [newSpaceDoc ProviderId] in *.
        by apply Hentry.
      * rewrite (Hold id Hid) in Hd. by apply Hkept, (Hidx id d).
    + intros id1 id2 d1 d2 H1 H2 Hin1 Hin2 Hp Heq.
      destruct (decide (id1 = State_docID st name)) as [-> | Hid1];
        destruct (decide (id2 = State_docID st name)) as [-> | Hid2]; [done | | |].
      * rewrite Hspace in H1. injection H1 as <-.
        rewrite (Hold id2 Hid2) in H2.
        rewrite providerOf_marshal in *. cbn [newSpaceDoc ProviderId] in *.
        destruct (Hidx id2 d2 H2 Hin2 ltac:(by rewrite <- Heq)) as [e He].
        rewrite <- Heq, (Hprov Hp) in He. done.
      * rewrite Hspace in H2. injection H2 as <-.
        rewrite (Hold id1 Hid1) in H1.
        rewrite providerOf_marshal in *. cbn [newSpaceDoc ProviderId] in *.
        destruct (Hidx id1 d1 H1 Hin1 Hp) as [e He].
        rewrite Heq, Hprov in He; [done | by rewrite <- Heq].
      * rewrite (Hold id1 Hid1) in H1. rewrite (Hold id2 Hid2) in H2.
        by apply (Huniq id1 id2 d1 d2).
  - (* EnsureDead *)
    destruct (SpacesSpec.EnsureDead_store s w db Hw) as [-> | (d & Hd & _ & ->)];
      [done |].
    apply (index_transfer st db); [| done | done].
    intros id d' Hd' Hin Hp.
    destruct (decide ((spacesC, id) = spaceKey s)) as [Hk | Hk].
    + rewrite Hk, lookup_insert_eq in Hd'. injection Hd' as <-.
      exists d. rewrite Hk. split; [done |]. split; [by rewrite providerOf_setField |].
      rewrite lookup_insert_ne; [done |].
      apply not_eq_sym, SpacesSpec.spaces_not_providerIDs.
    + rewrite lookup_insert_ne in Hd' by done.
      exists d'. split; [done |]. split; [done |].
      rewrite lookup_insert_ne; [done |].
      apply not_eq_sym, SpacesSpec.spaces_not_providerIDs.
  - (* Remove *)
    destruct (Remove_removed s w db Hw) as [-> | (d & Hd & ->)]; [done |].
    apply (index_transfer st db); [| done | done].
    intros id d' Hd' Hin Hp.
    pose proof (SpacesSpec.removed_lookup s db _ _ Hd') as Hd0.
    exists d'. split; [done |]. split; [done |].
    assert (Hk : (spacesC, id) <> spaceKey s).
    { intros Hk. rewrite Hk in Hd'. unfold removed in Hd'.
      destruct (negb _) in Hd'.
      - rewrite lookup_delete_ne in Hd'
          by (unfold providerKey, spaceKey; apply SpacesSpec.spaces_not_providerIDs).
        by rewrite lookup_delete_eq in Hd'.
      - by rewrite lookup_delete_eq in Hd'. }
    assert (Hother : providerOf d' <> Space_ProviderId s).
    { intros Heq. apply Hk. unfold spaceKey. f_equal.
      apply (Huniq id _ d' d Hd0 Hd Hin).
      - unfold inModel. rewrite Hs. apply SpacesSpec.docID_idem.
      - done.
      - by rewrite (Hcur d Hd). }
    intros Hsome. unfold removed.
    destruct (negb _).
    + rewrite lookup_delete_ne.
      * rewrite lookup_delete_ne; [done |].
        unfold spaceKey. apply not_eq_sym, SpacesSpec.spaces_not_providerIDs.
      * unfold providerKey. rewrite Hs. intros [= Heq].
        apply globalKey_inj in Heq; [| done]. by apply Hother.
    + rewrite lookup_delete_ne; [done |].
      unfold spaceKey. apply not_eq_sym, SpacesSpec.spaces_not_providerIDs.
Qed.

(** X17. The index of provider ids stays in step with the spaces of a
    model: from a store where every space of the model that holds a provider
    id has its index entry and no two of them hold the same provider id,
    every sequence of [AddSpace], [EnsureDead] and [Remove] on that model
    ([Remove] through a space value holding the stored provider id) leads to
    such a store again. So no two stored spaces of a model ever share a
    provider id. The model UUID is taken not to begin with the kind
    "space" of the index keys, as no UUID does. *)
Theorem provider_ids_stay_unique (IsValidSpace : string -> bool) (st : State)
    (db db' : DB) :
  String.prefix "space" (State_ModelUUID st) = false ->
  indexed st db -> providerIdsUnique st db ->
  rtc (modelStep IsValidSpace st) db db' ->
  indexed st db' /\ providerIdsUnique st db'.
Proof.
  intros Hst Hidx Huniq Hsteps.
  induction Hsteps as [db | db db1 db' Hstep _ IH]; [done |].
  destruct (modelStep_index IsValidSpace st db db1 Hst Hstep Hidx Huniq) as [Hidx1 Huniq1].
  by apply IH.
Qed.

Lemma provider_ids_stay_unique_witness :
  let db' := store (run (AddSpace validSpaceName modelM "a" "p" [] false) [] ∅) in
  indexed modelM db' /\ providerIdsUnique modelM db'.
Proof.
  apply (provider_ids_stay_unique validSpaceName modelM ∅).
  - reflexivity.
  - intros id d Hd. by rewrite lookup_empty in Hd.
  - intros id1 id2 d1 d2 Hd. by rewrite lookup_empty in Hd.
  - apply rtc_once. apply modelStep_AddSpace. constructor.
Defined.

(** X29. [Remove] trusts the space value for the provider id: through a
    Dead space value whose provider id is not the one of the stored (Dead)
    document, [Remove] succeeds, removes the document and the index entry of
    the provider id that the value holds, whichever space that entry belongs
    to, and leaves the entry of the stored provider id behind. *)
Theorem Remove_trusts_the_space_value (s : Space) (db : DB) (d : bsonD) :
  let entry providerId :=
    (providerIDsC, State_networkEntityGlobalKey (st s) "space" providerId) in
  let o := run (Remove s) [] db in
  DocLife (doc s) = Dead ->
  db !! spaceKey s = Some d ->
  getField d "life" = Some (BLife Dead) ->
  Space_ProviderId s <> EmptyString ->
  entry (providerOf d) <> entry (Space_ProviderId s) ->
  value o = None /\
  store o !! spaceKey s = None /\
  store o !! entry (Space_ProviderId s) = None /\
  store o !! entry (providerOf d) = db !! entry (providerOf d).
Proof.
  intros entry o Hlife Hd Hdead Hp Hother. subst o.
  rewrite SpacesSpec.run_Remove_dead by done. cbv zeta. cbn [value store next fst].
  unfold txnStep. cbn [quiet fault others].
  rewrite SpacesSpec.applyOps_remove, Hd, bool_decide_eq_true_2 by done.
  cbn [fst snd]. unfold removed.
  rewrite (proj2 (String.eqb_neq _ _) Hp). cbn [negb].
  fold (entry (Space_ProviderId s)) in *.
  change (providerKey s) with (entry (Space_ProviderId s)).
  split; [done |]. split; [| split].
  - rewrite lookup_delete_ne
      by (unfold spaceKey; apply SpacesSpec.spaces_not_providerIDs).
    apply lookup_delete_eq.
  - apply lookup_delete_eq.
  - rewrite lookup_delete_ne by done.
    apply lookup_delete_ne. unfold spaceKey.
    apply not_eq_sym, SpacesSpec.spaces_not_providerIDs.
Qed.

Lemma Remove_trusts_the_space_value_witness :
  let o := run (Remove deadSpaceA) [] dbTwoProviders in
  value o = None /\
  store o !! spaceKey deadSpaceA = None /\
  store o !! (providerIDsC, "m:space:p") = None /\
  store o !! (providerIDsC, "m:space:q") = dbTwoProviders !! (providerIDsC, "m:space:q").
Proof.
  apply (Remove_trusts_the_space_value deadSpaceA dbTwoProviders
           (marshalSpace (doc (setLife (newSpaceOf modelM "a" "q" false) Dead))));
    try reflexivity; discriminate.
Defined.

(** The space value must be current: [deadSpaceA] names the Dead space [a]
    but holds the provider id [p] of space [b]. [Remove] through it succeeds
    and takes the index entry of [p] away, so that a third space can be
    added with the provider id that [b] still holds. *)
Lemma stale_Remove_frees_provider_id :
  let removedA := run (Remove deadSpaceA) [] dbTwoProviders in
  let addedC := run (AddSpace validSpaceName modelM "c" "p" [] false) [] (store removedA) in
  indexed modelM dbTwoProviders /\ providerIdsUnique modelM dbTwoProviders /\
  ~ current deadSpaceA dbTwoProviders /\
  value removedA = None /\
  value addedC = Ok (newSpaceOf modelM "c" "p" false) /\
  providerOf <$> store addedC !! (spacesC, "m:b") = Some "p" /\
  providerOf <$> store addedC !! (spacesC, "m:c") = Some "p" /\
  ~ providerIdsUnique modelM (store addedC).
Proof.
  assert (Hb : providerOf <$> store (run (AddSpace validSpaceName modelM "c" "p" [] false) []
                 (store (run (Remove deadSpaceA) [] dbTwoProviders))) !! (spacesC, "m:b")
               = Some "p") by (vm_compute; reflexivity).
  assert (Hc : providerOf <$> store (run (AddSpace validSpaceName modelM "c" "p" [] false) []
                 (store (run (Remove deadSpaceA) [] dbTwoProviders))) !! (spacesC, "m:c")
               = Some "p") by (vm_compute; reflexivity).
  cbv zeta.
  assert (Hkeys : forall id d, dbTwoProviders !! (spacesC, id) = Some d ->
            (id = "m:a" /\ providerOf d = "q") \/ (id = "m:b" /\ providerOf d = "p")).
  { intros id d. unfold dbTwoProviders.
    destruct (decide (id = "m:a")) as [-> | Ha].
    - rewrite lookup_insert_eq. intros [= <-]. by left.
    - rewrite lookup_insert_ne by congruence.
      destruct (decide (id = "m:b")) as [-> | Hb'].
      + rewrite lookup_insert_eq. intros [= <-]. by right.
      + rewrite lookup_insert_ne by congruence.
        rewrite lookup_insert_ne by (unfold providerIDsC, spacesC; congruence).
        rewrite lookup_singleton_ne by (unfold providerIDsC, spacesC; congruence).
        done. }
  split; [| split; [| split; [| split; [| split; [| split; [| split]]]]]].
  - intros id d Hd _ _. destruct (Hkeys id d Hd) as [[-> ->] | [-> ->]]; by eexists.
  - intros id1 id2 d1 d2 H1 H2 _ _ _ Heq.
    destruct (Hkeys id1 d1 H1) as [[-> E1] | [-> E1]];
      destruct (Hkeys id2 d2 H2) as [[-> E2] | [-> E2]]; congruence.
  - intros Hcur. by specialize (Hcur _ eq_refl).
  - reflexivity.
  - reflexivity.
  - exact Hb.
  - exact Hc.
  - intros Huniq.
    destruct (store _ !! (spacesC, "m:b")) as [d1 |] eqn:H1; [| done].
    destruct (store _ !! (spacesC, "m:c")) as [d2 |] eqn:H2; [| done].
    injection Hb as Hb. injection Hc as Hc.
    by specialize (Huniq "m:b" "m:c" d1 d2 H1 H2 eq_refl eq_refl
                     ltac:(by rewrite Hb) ltac:(congruence)).
Qed.

(** ** Listing and looking up *)

Lemma unmarshal_setField_life (d : bsonD) (v : bval) :
  Name (unmarshalSpace (setField d "life" v)) = Name (unmarshalSpace d) /\
  DocID (unmarshalSpace (setField d "life" v)) = DocID (unmarshalSpace d).
Proof.
  unfold unmarshalSpace, stringField. cbn [Name DocID].
  by rewrite !getField_setField_ne.
Qed.

(** X28. The three operations keep the spaces of a model under the ids of
    their names: run by one actor on a store where every space document of
    the model is kept under the id of its name and holds that id, each of
    [AddSpace], [EnsureDead] and [Remove] leaves such a store. On such a
    store the lookups agree: every space that [AllSpaces] lists is the one
    that [Space] returns for its name, and [Refresh] leaves it as it is. *)
Theorem listed_spaces_are_found (IsValidSpace : string -> bool) (st : State)
    (name providerId : string) (subnets : list string) (isPublic : bool)
    (s : Space) (w : World) (db : DB) :
  wellKeyed st db ->
  (isolated w ->
   wellKeyed st (store (run (AddSpace IsValidSpace st name providerId subnets isPublic)
                          w db)) /\
   wellKeyed st (store (run (EnsureDead s) w db)) /\
   wellKeyed st (store (run (Remove s) w db))) /\
  (forall spaces listed,
     (AllSpaces st quiet db).1 = Ok spaces -> listed ∈ spaces ->
     value (run (State_Space st (Space_Name listed)) [] db) = Ok listed /\
     value (run (Refresh listed) [] db) = (listed, None)).
Proof.
  intros Hkeyed. split.
  - intros Hw. split; [| split].
    + destruct (SpacesSpec.AddSpace_outcome IsValidSpace st name providerId subnets
                  isPublic w db Hw) as [[Happlied _] | [-> _]]; [| done].
      set (db' := store _) in *.
      destruct (applyOps_addSpace_inv _ _ _ _ _ _ _ Happlied) as (Hfresh & Hprov & Hsub).
      destruct (SpacesSpec.applyOps_addSpace st name providerId subnets isPublic db
                  Hfresh Hprov Hsub) as (db2 & Happly2 & Hspace & _).
      rewrite Happlied in Happly2. injection Happly2 as <-.
      intros id d Hd Hin.
      destruct (decide (id = State_docID st name)) as [-> | Hid].
      * rewrite Hspace in Hd. injection Hd as <-.
        by rewrite SpacesSpec.unmarshal_marshal.
      * apply (Hkeyed id d); [| done]. rewrite <- Hd.
        unfold applyOps in Happlied. destruct (forallb _ _); [| done].
        injection Happlied as <-. symmetry.
        by apply SpacesSpec.foldl_applyChange_other, addSpaceOps_not_space.
    + destruct (SpacesSpec.EnsureDead_store s w db Hw) as [-> | (d & Hd & _ & ->)];
        [done |].
      intros id d' Hd' Hin.
      destruct (decide ((spacesC, id) = spaceKey s)) as [Hk | Hk].
      * rewrite Hk, lookup_insert_eq in Hd'. injection Hd' as <-.
        destruct (unmarshal_setField_life d (BLife Dead)) as [-> ->].
        apply Hkeyed; [| done]. by rewrite Hk.
      * rewrite lookup_insert_ne in Hd' by done. by apply Hkeyed.
    + destruct (SpacesSpec.Remove_store s w db Hw) as [-> | ->]; [done |].
      intros id d Hd Hin. apply Hkeyed; [| done].
      by apply (SpacesSpec.removed_lookup s).
  - intros spaces listed Hall Hlisted.
    unfold AllSpaces in Hall. rewrite findAllStep_quiet in Hall. cbn [fst] in Hall.
    injection Hall as <-.
    apply list_elem_of_In, in_map_iff in Hlisted as (d & <- & Hd).
    apply list_elem_of_In, selected_elem in Hd as (id & Hd & Hid & _).
    destruct (Hkeyed id d Hd Hid) as [Hname Hdoc].
    split.
    + rewrite SpacesSpec.run_State_Space. cbv zeta. cbn [value next fst].
      unfold Space_Name. cbn [doc]. rewrite <- Hname.
      by rewrite (SpacesSpec.findStep_found quiet db spacesC id d).
    + rewrite SpacesSpec.run_Refresh. cbv zeta. cbn [value next fst doc Spaces.st].
      rewrite Hdoc, Hid.
      by rewrite (SpacesSpec.findStep_found quiet db spacesC id d).
Qed.

Lemma listed_spaces_are_found_witness :
  let a := newSpaceOf modelM "a" EmptyString false in
  value (run (State_Space modelM (Space_Name a)) [] dbSpaceA) = Ok a /\
  value (run (Refresh a) [] dbSpaceA) = (a, None).
Proof.
  destruct (listed_spaces_are_found validSpaceName modelM "b" EmptyString [] false
              (newSpaceOf modelM "a" EmptyString false) [] dbSpaceA) as [_ Hfound].
  - intros id d Hd _. unfold dbSpaceA in Hd.
    apply lookup_singleton_Some in Hd as [[= <-] <-]. by vm_compute.
  - apply (Hfound [newSpaceOf modelM "a" EmptyString false]);
      [vm_compute; reflexivity | by apply list_elem_of_singleton].
Defined.

End SpacesExtra.

(* ===================================================================== *)
(** * The abort path of [AddSpace]                                       *)
(* ===================================================================== *)

Module SpacesAbort.
Import Spaces.

Local Open Scope string_scope.

Lemma faultless_next (w : World) :
  faultless w -> fault (next w).1 = None /\ faultless (next w).2.
Proof.
  intros Hw. destruct w as [| t w]; simpl.
  - split; [done | constructor].
  - by inversion Hw.
Qed.

(** [AddSpace] with a valid name whose transaction aborts is the abort path
    on the store that the transaction saw. *)
Lemma AddSpace_abort_path (IsValidSpace : string -> bool) (st : State)
    (name providerId : string) (subnets : list string) (isPublic : bool)
    (t : Tick) (w : World) (db : DB) :
  IsValidSpace name = true ->
  fault t = None ->
  applyOps (others t db) (addSpaceOps st name providerId subnets isPublic) = None ->
  let c := run (classifyAbort st name providerId subnets
                  (newSpaceOf st name providerId isPublic)) w (others t db) in
  run (AddSpace IsValidSpace st name providerId subnets isPublic) (t :: w) db
  = {| value := DeferredAnnotatefR (value c) "adding space %q" [name];
       store := store c;
       rest := rest c;
       log := TxnEvent (addSpaceOps st name providerId subnets isPublic) (Some ErrAborted)
              :: log c |}.
Proof.
  intros Hvalid Hfault Habort c. subst c.
  unfold AddSpace. rewrite Hvalid. cbn [negb]. cbv zeta.
  rewrite !SpacesSpec.run_bind, SpacesSpec.run_runTransaction,
    SpacesSpec.resolve_addSpaceOps.
  cbn [next fst snd value store rest log andThen].
  rewrite (SpacesSpec.txnStep_aborted t db _ Hfault Habort).
  unfold andThen. cbn [fst snd run value store rest log app].
  by rewrite app_nil_r.
Qed.

(** The loop over the listed subnets, when no lookup fails and no other
    actor changes a listed subnet: it stops at the first subnet that is not
    stored, after looking up those before it, in order. *)
Lemma run_missingSubnet_reports (st : State) (pre post : list string) (missing : string)
    (w : World) (db : DB) :
  faultless w ->
  (forall s, s ∈ (pre ++ [missing])%list -> leaves (subnetsC, State_docID st s) w) ->
  (forall s, s ∈ pre -> is_Some (db !! (subnetsC, State_docID st s))) ->
  db !! (subnetsC, State_docID st missing) = None ->
  let o := run (missingSubnet st (pre ++ missing :: post)) w db in
  value o = Some (NotFoundf "subnet %q" [missing]) /\
  log o = map (fun s => FindEvent subnetsC (State_docID st s)
                          (answer db subnetsC (State_docID st s)))
              (pre ++ [missing]).
Proof.
  revert w db. induction pre as [| a pre IH]; intros w db Hw Hleaves Hpre Hmissing;
    cbn [app missingSubnet map].
  - destruct (faultless_next w Hw) as [Hfault _].
    destruct (SpacesExtra.leaves_next _ w (Hleaves missing ltac:(by left))) as [Hkeep _].
    rewrite SpacesSpec.run_bind, SpacesExtra.run_State_Subnet. cbv zeta.
    rewrite (SpacesSpec.findStep_missing _ _ _ _ Hfault) by by rewrite Hkeep.
    cbn [fst snd value store rest log andThen run app].
    unfold answer. by rewrite Hmissing.
  - destruct (faultless_next w Hw) as [Hfault Hrest].
    destruct (Hpre a ltac:(by left)) as [d Hd].
    destruct (SpacesExtra.leaves_next _ w (Hleaves a ltac:(by left))) as [Hkeep _].
    rewrite SpacesSpec.run_bind, SpacesExtra.run_State_Subnet. cbv zeta.
    rewrite (SpacesSpec.findStep_found _ _ _ _ d Hfault) by by rewrite Hkeep.
    cbn [fst snd value store rest log andThen app].
    assert (Hsame : forall s, s ∈ (pre ++ [missing])%list ->
              others (next w).1 db !! (subnetsC, State_docID st s)
              = db !! (subnetsC, State_docID st s)).
    { intros s Hs.
      by destruct (SpacesExtra.leaves_next _ w (Hleaves s ltac:(by right))) as [-> _]. }
    destruct (IH (next w).2 (others (next w).1 db)) as [Hvalue Hlog].
    + exact Hrest.
    + intros s Hs.
      by destruct (SpacesExtra.leaves_next _ w (Hleaves s ltac:(by right))) as [_ ?].
    + intros s Hs. rewrite Hsame; [apply Hpre; by right |].
      apply elem_of_app. by left.
    + rewrite Hsame; [done |]. apply elem_of_app. right. by apply list_elem_of_singleton.
    + split; [exact Hvalue |]. rewrite Hlog. f_equal.
      * unfold answer. by rewrite Hd.
      * apply map_ext_in. intros s Hs. unfold answer.
        rewrite Hsame; [done | by apply list_elem_of_In].
Qed.

(** ** Which error an aborted [AddSpace] reports first *)

(** C1 (amended). When the transaction of [AddSpace] aborts, the re-fetch of
    the space is the next call, before any subnet is looked at. When the
    re-fetch returns the space (it is stored at that moment and the lookup
    does not fail), the error is AlreadyExists, whatever the listed subnets,
    and no subnet is looked up. When the re-fetch does not return the space
    (the space is gone again, or the lookup itself failed), the listed
    subnets are looked up in the order of the list, and the first one that
    is not stored is reported not found: here for lookups that do not fail,
    on subnets that no other actor changes meanwhile. *)
Theorem AddSpace_race_reports_AlreadyExists (IsValidSpace : string -> bool) (st : State)
    (name providerId : string) (subnets : list string) (isPublic : bool)
    (t1 t2 : Tick) (w : World) (db : DB) :
  let ops := addSpaceOps st name providerId subnets isPublic in
  let id := State_docID st name in
  let db2 := others t2 (others t1 db) in
  let o := run (AddSpace IsValidSpace st name providerId subnets isPublic)
               (t1 :: t2 :: w) db in
  IsValidSpace name = true ->
  fault t1 = None ->
  applyOps (others t1 db) ops = None ->
  (exists res later,
     log o = TxnEvent ops (Some ErrAborted) :: FindEvent spacesC id res :: later) /\
  (forall d,
     fault t2 = None -> db2 !! (spacesC, id) = Some d ->
     value o = Err (Annotatef (AlreadyExistsf "space %q" [name]) "adding space %q" [name]) /\
     log o = [TxnEvent ops (Some ErrAborted); FindEvent spacesC id (Ok d)] /\
     store o = db2 /\
     rest o = w) /\
  (forall pre missing post,
     fault t2 <> None \/ db2 !! (spacesC, id) = None ->
     subnets = (pre ++ missing :: post)%list ->
     faultless w ->
     (forall s, s ∈ (pre ++ [missing])%list -> leaves (subnetsC, State_docID st s) w) ->
     (forall s, s ∈ pre -> is_Some (db2 !! (subnetsC, State_docID st s))) ->
     db2 !! (subnetsC, State_docID st missing) = None ->
     value o = Err (Annotatef (NotFoundf "subnet %q" [missing]) "adding space %q" [name]) /\
     exists fetchErr,
       log o = TxnEvent ops (Some ErrAborted)
               :: FindEvent spacesC id (Err fetchErr)
               :: map (fun s => FindEvent subnetsC (State_docID st s)
                                  (answer db2 subnetsC (State_docID st s)))
                      (pre ++ [missing])).
Proof.
  intros ops id db2 o Hvalid Hfault Habort. subst o.
  rewrite (AddSpace_abort_path IsValidSpace st name providerId subnets isPublic t1
             (t2 :: w) db Hvalid Hfault Habort).
  cbv zeta. cbn [value store rest log].
  unfold classifyAbort. rewrite SpacesSpec.run_bind, SpacesSpec.run_State_Space.
  cbv zeta. cbn [next fst snd]. unfold andThen. cbn [value store rest log app].
  fold id. rewrite SpacesSpec.findStep_store. fold db2.
  split; [by eexists _, _ |]. split.
  - intros d Hfault2 Hd.
    rewrite (SpacesSpec.findStep_found t2 _ _ _ d Hfault2 Hd).
    cbn [fst snd run value store rest log]. done.
  - intros pre missing post Hnot -> Hw Hleaves Hpre Hmissing.
    assert (Hfetch : exists fetchErr,
              (findStep t2 (others t1 db) spacesC id).1 = Err fetchErr).
    { unfold findStep. fold db2. destruct (fault t2) as [msg |]; [by eexists |].
      destruct Hnot as [Hnot | Hnot]; [done |]. rewrite Hnot. by eexists. }
    destruct Hfetch as [fetchErr Hfetch]. rewrite Hfetch.
    destruct (run_missingSubnet_reports st pre post missing w db2 Hw Hleaves Hpre
                Hmissing) as [Hvalue Hlog].
    assert (Habortpath :
              forall err : error,
                match err with
                | ErrNotFound => Err (NotFoundf "space %q" [name])
                | _ => Err (Annotatef err "cannot get space %q" [name])
                end = (Err match err with
                           | ErrNotFound => NotFoundf "space %q" [name]
                           | _ => Annotatef err "cannot get space %q" [name]
                           end : result Space)) by (by intros []).
    rewrite Habortpath.
    rewrite SpacesSpec.run_bind. unfold andThen. cbn [value store rest log].
    rewrite Hvalue, Hlog. cbn [run value log DeferredAnnotatefR].
    split; [done |]. exists fetchErr. by rewrite app_nil_r.
Qed.

(** C1 (as stated, refuted). Space [a] has been created by another actor
    and the listed subnet is not stored, so the transaction aborts; the
    re-fetch of the space fails in the driver. The space is stored all
    along, and yet the error reported is the subnet's not-found error, not
    AlreadyExists. *)
Lemma AddSpace_race_refetch_fails :
  let o := run (AddSpace validSpaceName modelM "a" EmptyString ["10.0.0.0/24"] false)
               [quiet; failing "i/o timeout"] dbSpaceA in
  is_Some (dbSpaceA !! (spacesC, State_docID modelM "a")) /\
  dbSpaceA !! (subnetsC, State_docID modelM "10.0.0.0/24") = None /\
  log o = [ TxnEvent (addSpaceOps modelM "a" EmptyString ["10.0.0.0/24"] false)
              (Some ErrAborted);
            FindEvent spacesC "m:a" (Err (ErrStore "i/o timeout"));
            FindEvent subnetsC "m:10.0.0.0/24" (Err ErrNotFound) ] /\
  store o = dbSpaceA /\
  exists err,
    value o = Err err /\
    Cause err = NotFoundf "subnet %q" ["10.0.0.0/24"] /\
    IsAlreadyExists err = false /\ IsNotFound err = true.
Proof.
  split; [by eexists |]. split; [reflexivity |].
  split; [reflexivity |]. split; [reflexivity |].
  eexists. split; [reflexivity |]. by repeat split.
Qed.

(** C1 (amended), at a store that holds space [a] and no subnet: creating
    [a] again with a missing subnet listed reports AlreadyExists when the
    re-fetch answers, and the missing subnet when the re-fetch fails. *)
Lemma AddSpace_race_reports_AlreadyExists_witness :
  value (run (AddSpace validSpaceName modelM "a" EmptyString ["10.0.0.0/24"] false)
           [quiet; quiet] dbSpaceA)
  = Err (Annotatef (AlreadyExistsf "space %q" ["a"]) "adding space %q" ["a"]) /\
  value (run (AddSpace validSpaceName modelM "a" EmptyString ["10.0.0.0/24"] false)
           [quiet; failing "i/o timeout"] dbSpaceA)
  = Err (Annotatef (NotFoundf "subnet %q" ["10.0.0.0/24"]) "adding space %q" ["a"]).
Proof.
  split.
  - destruct (AddSpace_race_reports_AlreadyExists validSpaceName modelM "a" EmptyString
                ["10.0.0.0/24"] false quiet quiet [] dbSpaceA)
      as (_ & Hfound & _); [reflexivity | reflexivity | reflexivity |].
    apply (Hfound (marshalSpace (newSpaceDoc modelM "a" EmptyString false)));
      reflexivity.
  - destruct (AddSpace_race_reports_AlreadyExists validSpaceName modelM "a" EmptyString
                ["10.0.0.0/24"] false quiet (failing "i/o timeout") [] dbSpaceA)
      as (_ & _ & Hmissing); [reflexivity | reflexivity | reflexivity |].
    apply (Hmissing [] "10.0.0.0/24" []).
    + by left.
    + reflexivity.
    + constructor.
    + intros s _. constructor.
    + intros s Hs. by apply elem_of_nil in Hs.
    + reflexivity.
Defined.

(** ** What the last check of the abort path reports *)

(** The listed subnets are all stored, or there is a first one that is
    not. *)
Lemma first_missing (st : State) (db : DB) (subnets : list string) :
  (forall s, s ∈ subnets -> is_Some (db !! (subnetsC, State_docID st s))) \/
  exists pre missing post,
    subnets = (pre ++ missing :: post)%list /\
    (forall s, s ∈ pre -> is_Some (db !! (subnetsC, State_docID st s))) /\
    db !! (subnetsC, State_docID st missing) = None.
Proof.
  induction subnets as [| a subnets IH].
  - left. intros s Hs. by apply elem_of_nil in Hs.
  - destruct (db !! (subnetsC, State_docID st a)) as [d |] eqn:Ha.
    + destruct IH as [Hall | (pre & missing & post & -> & Hpre & Hmissing)].
      * left. intros s Hs. apply elem_of_cons in Hs as [-> | Hs]; [by eexists | by apply Hall].
      * right. exists (a :: pre), missing, post. split; [done |]. split; [| done].
        intros s Hs. apply elem_of_cons in Hs as [-> | Hs]; [by eexists | by apply Hpre].
    + right. exists [], a, subnets. split; [done |]. split; [| done].
      intros s Hs. by apply elem_of_nil in Hs.
Qed.

(** The abort path on its own, from what the store holds. *)
Lemma classifyAbort_alone (st : State) (name providerId : string)
    (subnets : list string) (isPublic : bool) (db : DB) :
  let c := run (classifyAbort st name providerId subnets
                  (newSpaceOf st name providerId isPublic)) [] db in
  (forall d, db !! (spacesC, State_docID st name) = Some d ->
     value c = Err (AlreadyExistsf "space %q" [name])) /\
  (forall pre missing post,
     db !! (spacesC, State_docID st name) = None ->
     subnets = (pre ++ missing :: post)%list ->
     (forall s, s ∈ pre -> is_Some (db !! (subnetsC, State_docID st s))) ->
     db !! (subnetsC, State_docID st missing) = None ->
     value c = Err (NotFoundf "subnet %q" [missing])) /\
  (db !! (spacesC, State_docID st name) = None ->
   (forall s, s ∈ subnets -> is_Some (db !! (subnetsC, State_docID st s))) ->
   value c = Err (Errorf "ProviderId %q not unique" [providerId])).
Proof.
  intros c. subst c. unfold classifyAbort.
  rewrite SpacesSpec.run_bind, SpacesSpec.run_State_Space.
  cbv zeta. cbn [next fst snd value store rest andThen].
  split; [| split].
  - intros d Hd. by rewrite (SpacesSpec.findStep_found quiet _ _ _ d eq_refl Hd).
  - intros pre missing post Hfree -> Hpre Hmissing.
    rewrite (SpacesSpec.findStep_missing quiet _ _ _ eq_refl Hfree). cbn [fst snd].
    rewrite SpacesSpec.run_bind. cbn [value store rest andThen].
    change (others quiet db) with db.
    by destruct (SpacesExtra.run_missingSubnet_first st pre post missing db Hpre Hmissing)
      as (-> & -> & ->).
  - intros Hfree Hall.
    rewrite (SpacesSpec.findStep_missing quiet _ _ _ eq_refl Hfree). cbn [fst snd].
    rewrite SpacesSpec.run_bind. cbn [value store rest andThen].
    change (others quiet db) with db.
    destruct (SpacesExtra.run_missingSubnet_none st subnets db Hall) as (-> & -> & ->).
    unfold refreshNew. rewrite SpacesSpec.run_bind, SpacesSpec.run_Refresh.
    cbv zeta. cbn [next fst snd value store rest andThen].
    unfold newSpaceOf, newSpaceDoc. cbn [Spaces.st Spaces.doc DocID].
    rewrite SpacesSpec.docID_idem.
    by rewrite (SpacesSpec.findStep_missing quiet _ _ _ eq_refl Hfree).
Qed.

(** C9 (amended). On the abort path of [AddSpace], once the re-fetch of the
    new space has not returned it and no listed subnet has been reported
    missing, [newSpace.Refresh()] is the next and last call. If the refresh
    reports the space missing, the error is "ProviderId ... not unique" for
    the provider id given; if it fails otherwise, that error is returned
    (traced); if it succeeds, the transaction's own error, [txn.ErrAborted],
    is returned (traced). When [AddSpace] runs on its own, with no other
    actor and no failing call, the not-unique error is returned exactly when
    the name is valid and free, every listed subnet is stored, and the
    provider id is not empty and already registered; the insertion into the
    index of provider ids is then among the transaction's operations, and
    its assertion is the only one that fails. With other actors the error
    is returned for other aborts too, even when no provider id is given. *)
Theorem AddSpace_abort_refresh (IsValidSpace : string -> bool) (st : State)
    (name : string) (isPublic : bool) :
  (forall (providerId : string) (subnets : list string) (w : World) (db : DB)
          (fetchErr : error),
     let ops := addSpaceOps st name providerId subnets isPublic in
     let newSpace := newSpaceOf st name providerId isPublic in
     let o0 := run (State_runTransaction st ops) w db in
     let o1 := run (State_Space st name) (rest o0) (store o0) in
     let o2 := run (missingSubnet st subnets) (rest o1) (store o1) in
     let o3 := run (Refresh newSpace) (rest o2) (store o2) in
     let o := run (AddSpace IsValidSpace st name providerId subnets isPublic) w db in
     IsValidSpace name = true ->
     value o0 = Some ErrAborted ->
     value o1 = Err fetchErr ->
     value o2 = None ->
     log o = (log o0 ++ log o1 ++ log o2 ++ log o3)%list /\
     store o = store o3 /\
     rest o = rest o3 /\
     value o =
       Err (Annotatef
              match (value o3).2 with
              | Some err =>
                  if IsNotFound err
                  then Errorf "ProviderId %q not unique" [providerId]
                  else Trace err
              | None => Trace ErrAborted
              end
              "adding space %q" [name])) /\
  (forall (providerId : string) (subnets : list string) (db : DB),
     let ops := addSpaceOps st name providerId subnets isPublic in
     let indexOp := State_networkEntityGlobalKeyOp st "space" providerId in
     let notUnique :=
       value (run (AddSpace IsValidSpace st name providerId subnets isPublic) [] db)
       = Err (Annotatef (Errorf "ProviderId %q not unique" [providerId])
                "adding space %q" [name]) in
     (notUnique <->
      IsValidSpace name = true /\
      db !! (spacesC, State_docID st name) = None /\
      (forall s, s ∈ subnets -> is_Some (db !! (subnetsC, State_docID st s))) /\
      providerId <> EmptyString /\
      is_Some (db !! (providerIDsC, State_networkEntityGlobalKey st "space" providerId))) /\
     (notUnique ->
      In indexOp ops /\
      forall op, In op ops -> (holds db op = false <-> op = indexOp))) /\
  (IsValidSpace name = true ->
   exists (w : World) (db : DB),
     value (run (AddSpace IsValidSpace st name EmptyString [] isPublic) w db)
     = Err (Annotatef (Errorf "ProviderId %q not unique" [EmptyString])
              "adding space %q" [name])).
Proof.
  split; [| split].
  - intros providerId subnets w db fetchErr ops newSpace o0 o1 o2 o3 o Hvalid H0 H1 H2.
    subst o. unfold AddSpace. rewrite Hvalid. cbn [negb]. cbv zeta.
    rewrite !SpacesSpec.run_bind. fold ops o0. rewrite H0.
    unfold classifyAbort. rewrite !SpacesSpec.run_bind. fold o1. rewrite H1.
    rewrite !SpacesSpec.run_bind. fold newSpace o2. rewrite H2.
    unfold refreshNew. rewrite !SpacesSpec.run_bind. fold o3.
    unfold andThen. cbn [value store rest log].
    destruct (value o3).2 as [err |].
    + destruct (IsNotFound err); cbn; rewrite ?app_nil_r, <- ?app_assoc; done.
    + cbn; rewrite ?app_nil_r, <- ?app_assoc; done.
  - intros providerId subnets db ops indexOp notUnique.
    destruct (classifyAbort_alone st name providerId subnets isPublic db)
      as (Hexists & Hmissing & Hrefresh).
    assert (Hiff : notUnique <->
              IsValidSpace name = true /\
              db !! (spacesC, State_docID st name) = None /\
              (forall s, s ∈ subnets -> is_Some (db !! (subnetsC, State_docID st s))) /\
              providerId <> EmptyString /\
              is_Some (db !! (providerIDsC,
                              State_networkEntityGlobalKey st "space" providerId))).
    2: { split; [exact Hiff |].
         intros Hvalue. apply Hiff in Hvalue as (_ & Hfree & Hall & Hp & [entry Htaken]).
         subst ops indexOp. unfold addSpaceOps. cbv zeta.
         rewrite (proj2 (String.eqb_neq _ _) Hp). cbn [negb app].
         split; [right; by left |].
         intros op [<- | [<- | Hop]].
         - unfold holds. cbn [txn.C txn.Id txn.Assert]. rewrite Hfree.
           split; [done |]. unfold State_networkEntityGlobalKeyOp. cbv zeta.
           intros Heq. apply (f_equal txn.C) in Heq. cbn [txn.C] in Heq. done.
         - split; [done |]. intros _.
           unfold holds, State_networkEntityGlobalKeyOp. cbn [txn.C txn.Id txn.Assert].
           by rewrite Htaken.
         - apply in_map_iff in Hop as (s & <- & Hs).
           apply list_elem_of_In in Hs. destruct (Hall s Hs) as [d Hd].
           unfold holds, stampSubnetOp. cbn [txn.C txn.Id txn.Assert]. rewrite Hd.
           split; [done |]. unfold State_networkEntityGlobalKeyOp. cbv zeta.
           intros Heq. apply (f_equal txn.Assert) in Heq. cbn [txn.Assert] in Heq.
           done. }
    subst notUnique. split.
    + intros Hvalue.
      destruct (IsValidSpace name) eqn:Hvalid.
      2: { unfold AddSpace in Hvalue. rewrite Hvalid in Hvalue. by simpl in Hvalue. }
      destruct (applyOps db (addSpaceOps st name providerId subnets isPublic))
        as [db1 |] eqn:Happly.
      { destruct (SpacesExtra.AddSpace_applied IsValidSpace st name providerId subnets
                    isPublic db db1 Hvalid Happly) as [Hok _].
        rewrite Hok in Hvalue. done. }
      destruct (SpacesExtra.AddSpace_aborted IsValidSpace st name providerId subnets
                  isPublic db Hvalid Happly) as [Hv _].
      rewrite Hv in Hvalue. clear Hv.
      destruct (db !! (spacesC, State_docID st name)) as [d |] eqn:Hfree.
      { rewrite (Hexists d eq_refl) in Hvalue. by simpl in Hvalue. }
      destruct (first_missing st db subnets)
        as [Hall | (pre & missing & post & Hsplit & Hpre & Hmiss)].
      2: { rewrite (Hmissing pre missing post eq_refl Hsplit Hpre Hmiss) in Hvalue.
           by simpl in Hvalue. }
      split; [done |]. split; [done |]. split; [done |].
      destruct (decide (providerId = EmptyString)) as [Hp | Hp].
      { destruct (SpacesSpec.applyOps_addSpace st name providerId subnets isPublic db
                    Hfree ltac:(done) Hall) as (db1 & Happly1 & _).
        rewrite Happly in Happly1. done. }
      split; [done |].
      destruct (db !! (providerIDsC, State_networkEntityGlobalKey st "space" providerId))
        as [entry |] eqn:Hentry; [by eexists |].
      destruct (SpacesSpec.applyOps_addSpace st name providerId subnets isPublic db
                  Hfree ltac:(done) Hall) as (db1 & Happly1 & _).
      rewrite Happly in Happly1. done.
    + intros (Hvalid & Hfree & Hall & Hp & [entry Htaken]).
      assert (Habort : applyOps db (addSpaceOps st name providerId subnets isPublic)
                       = None).
      { apply (SpacesExtra.applyOps_aborts _ _
                 (State_networkEntityGlobalKeyOp st "space" providerId)).
        - unfold addSpaceOps. cbv zeta. apply in_or_app. left.
          rewrite (proj2 (String.eqb_neq _ _) Hp). simpl. right. by left.
        - unfold holds, State_networkEntityGlobalKeyOp. cbn [txn.C txn.Id txn.Assert].
          by rewrite Htaken. }
      destruct (SpacesExtra.AddSpace_aborted IsValidSpace st name providerId subnets
                  isPublic db Hvalid Habort) as [-> _].
      by rewrite (Hrefresh Hfree Hall).
  - intros Hvalid.
    set (key := (spacesC, State_docID st name)).
    exists [quiet; removes key], {[ key := [] ]}.
    assert (Habort : applyOps (others quiet {[ key := [] ]})
                       (addSpaceOps st name EmptyString [] isPublic) = None).
    { apply (SpacesExtra.applyOps_aborts _ _
               {| txn.C := spacesC; txn.Id := State_docID st name;
                  txn.Assert := txn.DocMissing;
                  txn.Insert := Some (marshalSpace
                                        (newSpaceDoc st name EmptyString isPublic));
                  txn.Update := None; txn.Remove := false |}).
      - by left.
      - unfold holds. cbn [txn.C txn.Id txn.Assert quiet others]. fold key.
        by rewrite lookup_singleton_eq. }
    rewrite (AddSpace_abort_path IsValidSpace st name EmptyString [] isPublic quiet
               [removes key] {[ key := [] ]} Hvalid eq_refl Habort).
    cbv zeta. cbn [value quiet others].
    unfold classifyAbort. rewrite SpacesSpec.run_bind, SpacesSpec.run_State_Space.
    cbv zeta. cbn [next fst snd value store rest andThen]. fold key.
    assert (Hgone : others (removes key) {[ key := [] ]} !! key = None)
      by (unfold removes; cbn [others]; apply lookup_delete_eq).
    rewrite (SpacesSpec.findStep_missing (removes key) _ _ _ eq_refl Hgone).
    cbn [fst snd missingSubnet]. rewrite SpacesSpec.run_bind.
    cbn [run value store rest andThen].
    unfold refreshNew. rewrite SpacesSpec.run_bind, SpacesSpec.run_Refresh.
    cbv zeta. cbn [next fst snd value store rest andThen].
    unfold newSpaceOf, newSpaceDoc. cbn [Spaces.st Spaces.doc DocID].
    rewrite SpacesSpec.docID_idem. fold key.
    by rewrite (SpacesSpec.findStep_missing quiet _ _ _ eq_refl Hgone).
Qed.

(** C9 (as stated, refuted). With provider id [p] already registered,
    creating space [b] aborts; the re-fetch finds no space [b], no subnet is
    listed, and the refresh reports the space missing. The error returned is
    "ProviderId ... not unique", which is none of the life-transition
    errors. *)
Lemma AddSpace_abort_not_life_conflict :
  let o := run (AddSpace validSpaceName modelM "b" "p" [] false) [] dbProviderTaken in
  log o = [ TxnEvent (addSpaceOps modelM "b" "p" [] false) (Some ErrAborted);
            FindEvent spacesC "m:b" (Err ErrNotFound);
            FindEvent spacesC "m:b" (Err ErrNotFound) ] /\
  exists err, value o = Err err /\
              Cause err = Errorf "ProviderId %q not unique" ["p"] /\
              isLifeError err = false.
Proof.
  split; [reflexivity |].
  eexists. split; [reflexivity |]. split; reflexivity.
Qed.

(** C9 (amended), at a run where another actor creates space [b] after the
    re-fetch and before the refresh: the refresh succeeds and the abort is
    returned; and at the store where provider id [p] is registered. *)
Lemma AddSpace_abort_refresh_witness :
  let o := run (AddSpace validSpaceName modelM "b" "p" [] false)
               [quiet; quiet; createsB] dbProviderTaken in
  (value o = Err (Annotatef (Trace ErrAborted) "adding space %q" ["b"]) /\
   log o = [ TxnEvent (addSpaceOps modelM "b" "p" [] false) (Some ErrAborted);
             FindEvent spacesC "m:b" (Err ErrNotFound);
             FindEvent spacesC "m:b"
               (Ok (marshalSpace (newSpaceDoc modelM "b" EmptyString false))) ]) /\
  value (run (AddSpace validSpaceName modelM "b" "p" [] false) [] dbProviderTaken)
  = Err (Annotatef (Errorf "ProviderId %q not unique" ["p"]) "adding space %q" ["b"]).
Proof.
  destruct (AddSpace_abort_refresh validSpaceName modelM "b" false)
    as (Hpath & Halone & _).
  split.
  - destruct (Hpath "p" [] [quiet; quiet; createsB] dbProviderTaken
                (NotFoundf "space %q" ["b"]))
      as (Hlog & _ & _ & Hvalue); [reflexivity | reflexivity | reflexivity | reflexivity |].
    split; [exact Hvalue | exact Hlog].
  - apply (proj1 (Halone "p" [] dbProviderTaken)).
    split; [reflexivity |]. split; [reflexivity |].
    split; [intros s Hs; by apply elem_of_nil in Hs |].
    split; [discriminate | by eexists].
Defined.

End SpacesAbort.

(* ===================================================================== *)
(** * Properties of package resourceadapters                             *)
(* ===================================================================== *)

Module DeployExtra.
Import Spaces Deploy.

Local Open Scope Z_scope.

(** ** Parsing *)

Lemma digitValue_digit (d : ascii) :
  isDigit d = true -> exists v, digitValue d = Some v /\ 0 <= v <= 9.
Proof.
  unfold isDigit, digitValue. cbv zeta. intros H. rewrite H.
  apply andb_true_iff in H as [H1 H2]. eexists. split; [done |]. lia.
Qed.

Lemma digitValue_other (d : ascii) :
  isDigit d = false ->
  digitValue d = None \/ exists v, digitValue d = Some v /\ 10 <= v.
Proof.
  unfold isDigit, digitValue. cbv zeta.
  set (c := Z.of_nat (nat_of_ascii d)). intros ->.
  destruct ((97 <=? c) && (c <=? 122)) eqn:H1.
  - right. apply andb_true_iff in H1 as [? ?]. eexists. split; [done |]. lia.
  - destruct ((65 <=? c) && (c <=? 90)) eqn:H2; [| by left].
    right. apply andb_true_iff in H2 as [? ?]. eexists. split; [done |]. lia.
Qed.

(** A range error of the loop comes with the largest number. *)
Lemma parseUintLoop_range (maxVal n : Z) (s : string) :
  (parseUintLoop maxVal n s).2 = Some ErrRange ->
  (parseUintLoop maxVal n s).1 = maxUint64.
Proof.
  revert n. induction s as [| d s IH]; intros n; simpl; [done |].
  destruct (digitValue d) as [v |]; [| done].
  destruct (v >=? 10); [done |].
  destruct (n >=? _); [done |].
  destruct (_ || _); [done |]. apply IH.
Qed.

(** A byte that is no digit makes the loop fail. *)
Lemma parseUintLoop_other (maxVal n : Z) (s : string) :
  allDigits s = false -> is_Some (parseUintLoop maxVal n s).2.
Proof.
  revert n. induction s as [| d s IH]; intros n; simpl; [done |].
  intros H. destruct (isDigit d) eqn:Hd; simpl in H.
  - destruct (digitValue d) as [v |]; [| by eexists].
    destruct (v >=? 10); [by eexists |].
    destruct (n >=? _); [by eexists |].
    destruct (_ || _); [by eexists |]. by apply IH.
  - destruct (digitValue_other d Hd) as [-> | (v & -> & Hv)]; [by eexists |].
    rewrite (proj2 (Z.geb_le v 10) Hv). by eexists.
Qed.

(** Digits that stay below the bound are read to their end. *)
Lemma parseUintLoop_digits (maxVal n : Z) (s : string) :
  allDigits s = true -> 0 <= n -> maxVal <= maxUint64 ->
  (n + 1) * 10 ^ Z.of_nat (String.length s) <= maxVal + 1 ->
  exists r, parseUintLoop maxVal n s = (r, None) /\
            n * 10 ^ Z.of_nat (String.length s) <= r
              < (n + 1) * 10 ^ Z.of_nat (String.length s).
Proof.
  revert n. induction s as [| d s IH]; intros n Hs Hn Hmax Hfit.
  - exists n. simpl. split; [done |]. lia.
  - simpl in Hs. apply andb_true_iff in Hs as [Hd Hs].
    destruct (digitValue_digit d Hd) as (v & Hv & Hv9).
    cbn [String.length] in *. rewrite Nat2Z.inj_succ, Z.pow_succ_r in * by lia.
    set (p := 10 ^ Z.of_nat (String.length s)) in *.
    assert (Hp : 1 <= p) by (unfold p; lia).
    cbn [parseUintLoop]. rewrite Hv.
    destruct (Z.geb_spec v 10) as [? | _]; [lia |].
    assert (Hn10 : n * 10 + v <= maxVal) by nia.
    unfold maxUint64 in *.
    destruct (Z.geb_spec n ((2 ^ 64 - 1) / 10 + 1)) as [Hge | _].
    { change ((2 ^ 64 - 1) / 10 + 1) with 1844674407370955162 in Hge. lia. }
    cbv zeta. rewrite (Z.mod_small (n * 10 + v)) by lia.
    destruct (Z.ltb_spec (n * 10 + v) (n * 10)) as [? | _]; [lia |].
    destruct (Z.gtb_spec (n * 10 + v) maxVal) as [? | _]; [lia |].
    cbn [orb].
    destruct (IH (n * 10 + v) Hs ltac:(lia) Hmax ltac:(fold p; nia)) as (r & -> & Hr).
    exists r. split; [done |]. fold p in Hr. nia.
Qed.

Lemma allDigits_nonempty_length (s : string) :
  s <> EmptyString -> (Z.of_nat (String.length s) <? 1) = false.
Proof. destruct s; [done |]. intros _. cbn [String.length]. apply Z.ltb_ge. lia. Qed.

Lemma maxVal_IntSize (IntSize : Z) :
  IntSize = 32 \/ IntSize = 64 ->
  ((2 ^ IntSize) mod 2 ^ 64 - 1) mod 2 ^ 64 = 2 ^ IntSize - 1.
Proof. by intros [-> | ->]. Qed.

(** What [ParseUint] makes of digits, and of anything else. *)
Lemma ParseUint_digits (IntSize : Z) (s : string) :
  IntSize = 32 \/ IntSize = 64 ->
  s <> EmptyString -> allDigits s = true -> (String.length s <= 9)%nat ->
  exists r, ParseUint s IntSize = (r, None) /\ 0 <= r < 10 ^ 9.
Proof.
  intros Hsize Hne Hs Hlen. unfold ParseUint.
  rewrite allDigits_nonempty_length, maxVal_IntSize by done.
  assert (Hpow : 10 ^ Z.of_nat (String.length s) <= 10 ^ 9)
    by (apply Z.pow_le_mono_r; lia).
  destruct (parseUintLoop_digits (2 ^ IntSize - 1) 0 s Hs ltac:(lia)) as (r & -> & Hr).
  - unfold maxUint64. destruct Hsize as [-> | ->]; lia.
  - destruct Hsize as [-> | ->]; lia.
  - exists r. split; [done |]. lia.
Qed.

Lemma ParseUint_other (IntSize : Z) (s : string) :
  s = EmptyString \/ allDigits s = false ->
  exists e, (ParseUint s IntSize).2 = Some e /\
            (e = ErrRange -> (ParseUint s IntSize).1 = maxUint64).
Proof.
  intros [-> | Hs]; [by exists ErrSyntax |].
  unfold ParseUint. destruct (_ <? 1); [by exists ErrSyntax |].
  destruct (parseUintLoop_other (((2 ^ IntSize) mod 2 ^ 64 - 1) mod 2 ^ 64) 0 s Hs)
    as [e He].
  exists e. split; [done |]. intros ->. by apply parseUintLoop_range.
Qed.

Lemma ParseInt_unsigned (IntSize : Z) (neg : bool) (body : string) :
  IntSize = 32 \/ IntSize = 64 ->
  (body = EmptyString \/ allDigits body = false ->
   is_Some (let '(un, err) := ParseUint body IntSize in
            match err with
            | Some ErrSyntax => (0, Some ErrSyntax)
            | _ =>
                let cutoff := 2 ^ (IntSize - 1) in
                if negb neg && (un >=? cutoff) then (cutoff - 1, Some ErrRange)
                else if neg && (un >? cutoff) then (- cutoff, Some ErrRange)
                else
                  let n := toSigned 64 un in
                  (if neg then toSigned 64 (- n) else n, None)
            end).2) /\
  (body <> EmptyString -> allDigits body = true -> (String.length body <= 9)%nat ->
   (let '(un, err) := ParseUint body IntSize in
    match err with
    | Some ErrSyntax => (0, Some ErrSyntax)
    | _ =>
        let cutoff := 2 ^ (IntSize - 1) in
        if negb neg && (un >=? cutoff) then (cutoff - 1, Some ErrRange)
        else if neg && (un >? cutoff) then (- cutoff, Some ErrRange)
        else
          let n := toSigned 64 un in
          (if neg then toSigned 64 (- n) else n, None)
    end).2 = None).
Proof.
  intros Hsize. split.
  - intros Hbody.
    destruct (ParseUint_other IntSize body Hbody) as (e & He & Hrange).
    destruct (ParseUint body IntSize) as [un err]. simpl in He, Hrange. subst err.
    destruct e; [by eexists |].
    rewrite Hrange by done. cbv zeta. unfold maxUint64.
    destruct neg; destruct Hsize as [-> | ->]; by eexists.
  - intros Hne Hs Hlen.
    destruct (ParseUint_digits IntSize body Hsize Hne Hs Hlen) as (r & -> & Hr).
    cbv zeta.
    assert (Hcut : 10 ^ 9 <= 2 ^ (IntSize - 1)) by (destruct Hsize as [-> | ->]; lia).
    destruct (Z.geb_spec r (2 ^ (IntSize - 1))) as [? | _]; [lia |].
    destruct (Z.gtb_spec r (2 ^ (IntSize - 1))) as [? | _]; [lia |].
    by rewrite !andb_false_r.
Qed.

(** [Atoi] accepts decimal numerals only, and every numeral of at most nine
    bytes. *)
Lemma Atoi_numeral (IntSize : Z) (s : string) :
  IntSize = 32 \/ IntSize = 64 ->
  ((Atoi IntSize s).2 = None -> isNumeral s = true) /\
  (isNumeral s = true -> (String.length s <= 9)%nat -> (Atoi IntSize s).2 = None).
Proof.
  intros Hsize. unfold Atoi, ParseInt, isNumeral.
  destruct s as [| c rest]; [done |]. cbv zeta.
  destruct (Ascii.eqb c "+" || Ascii.eqb c "-") eqn:Hsign.
  - destruct (ParseInt_unsigned IntSize (Ascii.eqb c "-") rest Hsize) as [Hbad Hgood].
    destruct (let '(un, err) := ParseUint rest IntSize in _) as [i64 err] eqn:Hparse.
    cbn [snd] in *. split.
    + intros ->. apply not_false_is_true. intros Hn.
      destruct Hbad as [e He]; [| done].
      apply andb_false_iff in Hn as [Hn | Hn]; [left | by right].
      apply negb_false_iff, String.eqb_eq in Hn. done.
    + intros Hn Hlen. apply andb_true_iff in Hn as [Hne Hs].
      apply negb_true_iff, String.eqb_neq in Hne.
      apply Hgood; [done | done |]. cbn [String.length] in Hlen. lia.
  - destruct (ParseInt_unsigned IntSize (Ascii.eqb c "-") (String c rest) Hsize)
      as [Hbad Hgood].
    destruct (let '(un, err) := ParseUint (String c rest) IntSize in _)
      as [i64 err] eqn:Hparse.
    cbn [snd] in *. split.
    + intros ->. apply not_false_is_true. intros Hn.
      destruct Hbad as [e He]; [by right | done].
    + intros Hn Hlen. by apply Hgood.
Qed.

(** ** The loop over [filesAndRevisions] *)

Lemma splitStep_lookup (IntSize : Z) (f : gmap string string) (r : gmap string Z)
    (k v name : string) :
  (splitStep IntSize (f, r) (k, v)).1 !! name
  = (if decide (name = k)
     then match (Atoi IntSize v).2 with Some _ => Some v | None => f !! name end
     else f !! name) /\
  (splitStep IntSize (f, r) (k, v)).2 !! name
  = (if decide (name = k)
     then match (Atoi IntSize v).2 with
          | Some _ => r !! name
          | None => Some (Atoi IntSize v).1
          end
     else r !! name).
Proof.
  unfold splitStep. destruct (Atoi IntSize v) as [rev [e |]]; cbn [fst snd];
    destruct (decide (name = k)) as [-> | Hne];
    by rewrite ?lookup_insert_eq, ?lookup_insert_ne.
Qed.

Lemma foldl_splitStep (IntSize : Z) (l : list (string * string))
    (f : gmap string string) (r : gmap string Z) (name : string) :
  NoDup l.*1 ->
  let res := foldl (splitStep IntSize) (f, r) l in
  (name ∉ l.*1 -> res.1 !! name = f !! name /\ res.2 !! name = r !! name) /\
  (forall v, (name, v) ∈ l ->
     res.1 !! name = match (Atoi IntSize v).2 with Some _ => Some v | None => f !! name end /\
     res.2 !! name = match (Atoi IntSize v).2 with
                     | Some _ => r !! name
                     | None => Some (Atoi IntSize v).1
                     end).
Proof.
  revert f r. induction l as [| [k v] l IH]; intros f r Hnd; cbn [foldl].
  - split; [done |]. intros v Hv. by apply elem_of_nil in Hv.
  - cbn [fmap list_fmap fst] in Hnd. apply NoDup_cons in Hnd as [Hk Hnd].
    destruct (splitStep IntSize (f, r) (k, v)) as [f1 r1] eqn:Hstep.
    destruct (splitStep_lookup IntSize f r k v name) as [Hf1 Hr1].
    rewrite Hstep in Hf1, Hr1. cbn [fst snd] in Hf1, Hr1.
    destruct (IH f1 r1 Hnd) as [IHout IHin]. split.
    + intros Hname. cbn [fmap list_fmap fst] in Hname.
      apply not_elem_of_cons in Hname as [Hne Hname].
      destruct (IHout Hname) as [-> ->]. rewrite Hf1, Hr1.
      by destruct (decide (name = k)).
    + intros v' Hv'. apply elem_of_cons in Hv' as [[= -> ->] | Hv'].
      * destruct (IHout Hk) as [-> ->]. rewrite Hf1, Hr1.
        by destruct (decide (k = k)).
      * destruct (IHin v' Hv') as [-> ->]. rewrite Hf1, Hr1.
        assert (name <> k).
        { intros ->. apply Hk. apply list_elem_of_fmap. by exists (k, v'). }
        destruct (decide (name = k)); [done |].
        by destruct (Atoi IntSize v').2.
Qed.

(** Whatever the order in which the entries are visited, the loop leaves
    the file names in one map and the revisions in the other. *)
Lemma split_maps (IntSize : Z) (m : gmap string string) (order : list (string * string)) :
  order ≡ₚ map_to_list m ->
  foldl (splitStep IntSize) (∅, ∅) order = (fileNamesOf IntSize m, revisionsOf IntSize m).
Proof.
  intros Hperm.
  assert (Hnd : NoDup order.*1).
  { rewrite Hperm. apply NoDup_fst_map_to_list. }
  assert (Hin : forall name v, (name, v) ∈ order <-> m !! name = Some v).
  { intros name v. rewrite Hperm. apply elem_of_map_to_list. }
  destruct (foldl (splitStep IntSize) (∅, ∅) order) as [f r] eqn:Hres.
  f_equal; apply map_eq; intros name;
    destruct (foldl_splitStep IntSize order ∅ ∅ name Hnd) as [Hout Hmem];
    rewrite Hres in Hout, Hmem; cbn [fst snd] in Hout, Hmem.
  - unfold fileNamesOf. destruct (m !! name) as [v |] eqn:Hm.
    + destruct (Hmem v (proj2 (Hin name v) Hm)) as [-> _].
      destruct (Atoi IntSize v).2 as [e |] eqn:He.
      * symmetry. apply map_lookup_filter_Some. split; [done |]. cbn [snd].
        rewrite He. by eexists.
      * rewrite lookup_empty. symmetry. apply map_lookup_filter_None. right.
        intros v' Hv' [e He']. cbn [snd] in He'. congruence.
    + destruct Hout as [-> _].
      * intros Hname. apply list_elem_of_fmap in Hname as ([k v] & -> & Hkv).
        apply Hin in Hkv. cbn [fst] in Hm. congruence.
      * rewrite lookup_empty. symmetry. apply map_lookup_filter_None. by left.
  - unfold revisionsOf. rewrite lookup_omap. destruct (m !! name) as [v |] eqn:Hm.
    + destruct (Hmem v (proj2 (Hin name v) Hm)) as [_ ->]. cbn [option_bind mbind].
      by destruct (Atoi IntSize v).2.
    + destruct Hout as [_ ->]; [| done].
      intros Hname. apply list_elem_of_fmap in Hname as ([k v] & -> & Hkv).
      apply Hin in Hkv. cbn [fst] in Hm. congruence.
Qed.

(** ** Properties *)

Section WithPackages.

Context {CharmURL Channel Macaroon Meta Connection Client : Type}.
Variable newAPIClient : Connection -> result Client.
Variable cmd_DeployResources :
  DeployResourcesArgs CharmURL Channel Macaroon Meta Client -> result (gmap string string).

(** X18. [DeployResources] sorts the values of [filesAndRevisions] in two:
    whatever the order in which the map is visited, [cmd.DeployResources]
    is handed, under [Filenames], exactly the entries whose value [Atoi]
    rejects, value unchanged, and under [Revisions] exactly the others, with
    the number read; every name ends in one of the two maps and none in
    both. The call is made only when [newAPIClient] succeeds, and an error
    of either function comes back traced. *)
Theorem DeployResources_split (IntSize : Z) (serviceID : string) (cURL : CharmURL)
    (channel : Channel) (csMac : Macaroon) (filesAndRevisions : gmap string string)
    (order : list (string * string)) (resources : gmap string Meta) (conn : Connection) :
  order ≡ₚ map_to_list filesAndRevisions ->
  let filenames := fileNamesOf IntSize filesAndRevisions in
  let revisions := revisionsOf IntSize filesAndRevisions in
  DeployResources IntSize newAPIClient cmd_DeployResources serviceID cURL channel csMac
    order resources conn
  = match newAPIClient conn with
    | Err err => Err (Trace err)
    | Ok client =>
        match cmd_DeployResources
                {| ServiceID := serviceID; ArgCharmURL := cURL; ArgChannel := channel;
                   CharmStoreMacaroon := csMac; Filenames := filenames;
                   Revisions := revisions; ResourcesMeta := resources;
                   ArgClient := {| deployClient_Client := client |} |} with
        | Err err => Err (Trace err)
        | Ok ids => Ok ids
        end
    end /\
  (forall name, filesAndRevisions !! name = None ->
     filenames !! name = None /\ revisions !! name = None) /\
  (forall name val, filesAndRevisions !! name = Some val ->
     match (Atoi IntSize val).2 with
     | Some _ => filenames !! name = Some val /\ revisions !! name = None
     | None => filenames !! name = None /\ revisions !! name = Some (Atoi IntSize val).1
     end).
Proof.
  intros Hperm filenames revisions. split; [| split].
  - unfold DeployResources. destruct (newAPIClient conn) as [client | err]; [| done].
    by rewrite (split_maps IntSize filesAndRevisions order Hperm).
  - intros name Hm. subst filenames revisions. unfold fileNamesOf, revisionsOf.
    rewrite lookup_omap, Hm. split; [| done].
    apply map_lookup_filter_None. by left.
  - intros name val Hm. subst filenames revisions. unfold fileNamesOf, revisionsOf.
    rewrite lookup_omap, Hm. cbn [option_bind mbind].
    destruct (Atoi IntSize val).2 as [e |] eqn:He.
    + split; [| done]. apply map_lookup_filter_Some. split; [done |].
      cbn [snd]. rewrite He. by eexists.
    + split; [| done]. apply map_lookup_filter_None. right.
      intros v' Hv' [e He']. cbn [snd] in He'. congruence.
Qed.

End WithPackages.

Lemma DeployResources_split_witness :
  DeployResources 64 (fun _ : unit => Ok tt)
    (fun args : DeployResourcesArgs unit unit unit unit unit => Ok (Filenames args))
    "svc" tt tt tt (map_to_list sampleResources) ∅ tt
  = Ok (fileNamesOf 64 sampleResources) /\
  fileNamesOf 64 sampleResources !! "data" = Some "./data.tgz" /\
  revisionsOf 64 sampleResources !! "site" = Some 7 /\
  revisionsOf 64 sampleResources !! "cert" = Some (-1).
Proof.
  destruct (DeployResources_split (fun _ : unit => Ok tt)
              (fun args : DeployResourcesArgs unit unit unit unit unit =>
                 Ok (Filenames args))
              64 "svc" tt tt tt sampleResources (map_to_list sampleResources) ∅ tt)
    as (Hrun & _ & Hsome); [reflexivity |].
  split; [exact Hrun |].
  split; [exact (proj1 (Hsome "data" "./data.tgz" eq_refl)) |].
  split; [exact (proj2 (Hsome "site" "7" eq_refl)) |].
  exact (proj2 (Hsome "cert" "-1" eq_refl)).
Defined.

(** X19. What [DeployResources] takes for a revision: only a value that is
    a decimal numeral (digits, at least one, after an optional sign) becomes
    a revision, every other value is passed on as a file name; and every
    numeral of at most nine bytes becomes a revision, so a file whose name
    is such a numeral cannot be given by that name. *)
Theorem revisions_are_numerals (IntSize : Z) (filesAndRevisions : gmap string string)
    (order : list (string * string)) :
  IntSize = 32 \/ IntSize = 64 ->
  order ≡ₚ map_to_list filesAndRevisions ->
  let split := foldl (splitStep IntSize) (∅, ∅) order in
  forall name val, filesAndRevisions !! name = Some val ->
    (is_Some (split.2 !! name) -> isNumeral val = true) /\
    (isNumeral val = false -> split.1 !! name = Some val) /\
    (isNumeral val = true -> (String.length val <= 9)%nat ->
     is_Some (split.2 !! name) /\ split.1 !! name = None).
Proof.
  intros Hsize Hperm split name val Hm. subst split.
  rewrite (split_maps IntSize filesAndRevisions order Hperm). cbn [fst snd].
  unfold fileNamesOf, revisionsOf. rewrite lookup_omap, Hm. cbn [option_bind mbind].
  destruct (Atoi_numeral IntSize val Hsize) as [Honly Hshort].
  destruct (Atoi IntSize val).2 as [e |] eqn:He.
  - split; [by intros [? ?] |]. split.
    + intros _. apply map_lookup_filter_Some. split; [done |].
      cbn [snd]. rewrite He. by eexists.
    + intros Hn Hlen. by specialize (Hshort Hn Hlen).
  - split; [by intros _; apply Honly |]. split.
    + intros Hn. rewrite Honly in Hn; done.
    + intros _ _. split; [by eexists |].
      apply map_lookup_filter_None. right.
      intros v' Hv' [e He']. cbn [snd] in He'. congruence.
Qed.

Lemma revisions_are_numerals_witness :
  let split := foldl (splitStep 64) (∅, ∅) (map_to_list sampleResources) in
  is_Some (split.2 !! "site") /\ split.1 !! "site" = None.
Proof.
  destruct (revisions_are_numerals 64 sampleResources (map_to_list sampleResources)
              (or_intror eq_refl) (reflexivity _) "site" "7" eq_refl) as (_ & _ & Hshort).
  apply Hshort; [reflexivity |]. simpl. lia.
Defined.

End DeployExtra.

(* ===================================================================== *)
(** * Properties of the offer command                                    *)
(* ===================================================================== *)

Module OfferExtra.
Import Offer.

Local Open Scope string_scope.

(** ** Splitting *)

Lemma SplitN_nonempty (s : string) (sep : ascii) : SplitN s sep <> [].
Proof.
  destruct s as [| c s]; simpl; [done |].
  destruct (Ascii.eqb c sep); [done |]. by destruct (SplitN s sep).
Qed.

Lemma SplitN_nosep (s : string) (sep : ascii) :
  contains sep s = false -> SplitN s sep = [s].
Proof.
  induction s as [| c s IH]; simpl; [done |].
  intros H. apply orb_false_iff in H as [-> H]. by rewrite (IH H).
Qed.

Lemma SplitN_single (s b : string) (sep : ascii) :
  SplitN s sep = [b] -> s = b /\ contains sep s = false.
Proof.
  revert b. induction s as [| c s IH]; intros b; simpl.
  - by intros [= <-].
  - destruct (Ascii.eqb c sep) eqn:Hc.
    + intros [= _ H]. by apply SplitN_nonempty in H.
    + destruct (SplitN s sep) as [| part parts] eqn:Hs; [by apply SplitN_nonempty in Hs |].
      intros [= <- ->]. destruct (IH part eq_refl) as [-> ->]. done.
Qed.

Lemma SplitN_app (a b : string) (sep : ascii) :
  contains sep a = false ->
  SplitN (a ++ String sep b) sep = a :: SplitN b sep.
Proof.
  induction a as [| c a IH]; simpl.
  - intros _. change (EmptyString ++ String sep b) with (String sep b). simpl.
    by rewrite Ascii.eqb_refl.
  - intros H. apply orb_false_iff in H as [Hc H].
    change (String c a ++ String sep b) with (String c (a ++ String sep b)). simpl.
    by rewrite Hc, (IH H).
Qed.

Lemma SplitN_two (s a b : string) (sep : ascii) :
  SplitN s sep = [a; b] ->
  s = a ++ String sep b /\ contains sep a = false /\ contains sep b = false.
Proof.
  revert a. induction s as [| c s IH]; intros a; simpl; [done |].
  destruct (Ascii.eqb_spec c sep) as [-> | Hc].
  - intros [= <- H]. by destruct (SplitN_single s b sep H) as [-> ->].
  - destruct (SplitN s sep) as [| part parts] eqn:Hs; [done |].
    intros [= <- ->]. destruct (IH part eq_refl) as (-> & Ha & Hb).
    split; [done |]. simpl. rewrite Ha, Hb.
    by rewrite (proj2 (Ascii.eqb_neq c sep) Hc).
Qed.

Lemma SplitN_head (s : string) (sep : ascii) :
  String.eqb (nth 0 (SplitN s sep) EmptyString) EmptyString = negb (beginsOtherThan sep s).
Proof.
  destruct s as [| c s]; simpl; [done |].
  destruct (Ascii.eqb c sep); [done |]. by destruct (SplitN s sep).
Qed.

Lemma length_two {A : Type} (l : list A) :
  (length l =? 2)%nat = true -> exists a b, l = [a; b].
Proof.
  destruct l as [| a [| b [| c l]]]; try done. by exists a, b.
Qed.

Lemma append_nil_r (s : string) : s ++ EmptyString = s.
Proof.
  induction s as [| c s IH]; [done |].
  change (String c s ++ EmptyString) with (String c (s ++ EmptyString)). by rewrite IH.
Qed.

Lemma Sprintf_local (user env service : string) :
  Spaces.Sprintf "local:/u/%s/%s/%s" [user; env; service]
  = "local:/u/" ++ user ++ "/" ++ env ++ "/" ++ service.
Proof.
  cbn [Spaces.Sprintf Ascii.eqb Bool.eqb]. cbn [andb]. by rewrite append_nil_r.
Qed.

(** ** Properties *)

Section WithPackages.

Variable IsValidService : string -> bool.
Variable IsValidUser : string -> bool.
Variable UserTagString : string -> string.
Variable ParseServiceURL : string -> option error.
Variable ConnectionCredentials : error + string.
Variable EnvName : string.
Variable newAPIFunc : option error.
Variable api_Offer :
  string -> list string -> string -> list string -> string -> error + list ErrorResult.
Variable Combine : list ErrorResult -> option error.

Abbreviation parseEndpoints :=
  (Offer.parseEndpoints IsValidService ConnectionCredentials EnvName).
Abbreviation Init :=
  (Offer.Init IsValidService ParseServiceURL ConnectionCredentials EnvName).
Abbreviation Run := (Offer.Run IsValidUser UserTagString newAPIFunc api_Offer Combine).
Abbreviation userTags := (Offer.userTags IsValidUser UserTagString).

(** What [parseEndpoints] makes of an argument of the right shape. *)
Lemma parseEndpoints_shape (c : offerCommand) (service eps : string) :
  contains ":" service = false -> contains ":" eps = false ->
  parseEndpoints c (service ++ ":" ++ eps)
  = if negb (IsValidService service) then
      (c, Some (errors_NotValidf "service name %q" [service]))
    else if negb (beginsOtherThan "," eps) then
      ({| Service := service; Endpoints := Endpoints c; URL := URL c; Users := Users c |},
       Some (errors_Errorf ("specify endpoints for %v" ++ dquote ++ " ") [service]))
    else if String.eqb (URL c) EmptyString then
      match ConnectionCredentials with
      | inl err =>
          ({| Service := service; Endpoints := SplitN eps ","; URL := URL c;
              Users := Users c |}, Some err)
      | inr user =>
          ({| Service := service; Endpoints := SplitN eps ",";
              URL := "local:/u/" ++ user ++ "/" ++ EnvName ++ "/" ++ service;
              Users := Users c |}, None)
      end
    else
      ({| Service := service; Endpoints := SplitN eps ","; URL := URL c;
          Users := Users c |}, None).
Proof.
  intros Hs He. unfold Offer.parseEndpoints. cbv zeta.
  change (service ++ ":" ++ eps) with (service ++ String ":" eps).
  rewrite (SplitN_app service eps ":" Hs), (SplitN_nosep eps ":" He).
  cbn [length Nat.eqb negb nth].
  destruct (IsValidService service); cbn [negb]; [| done].
  rewrite SplitN_head.
  assert (Hlen : (length (SplitN eps ",") <? 1)%nat = false).
  { pose proof (SplitN_nonempty eps ",") as Hne.
    destruct (SplitN eps ","); [done |]. done. }
  rewrite Hlen. cbn [orb Service Endpoints URL Users].
  destruct (beginsOtherThan "," eps); cbn [negb]; [| done].
  destruct (String.eqb (URL c) EmptyString); [| done].
  destruct ConnectionCredentials as [err | user]; [done |].
  by rewrite Sprintf_local.
Qed.

(** X20. [parseEndpoints] accepts exactly the arguments of the form
    [service:endpoints] with one colon, a valid service name before it and,
    after it, a text that is not empty and does not begin with a comma;
    when the command has no URL yet, the credentials must be readable as
    well. The command then holds the service name, the endpoints split at
    the commas, and, unless it had a URL, the local URL built from the
    user, the model name and the service name. *)
Theorem parseEndpoints_accepts (c c' : offerCommand) (arg : string) :
  parseEndpoints c arg = (c', None) <->
  exists service eps url,
    arg = service ++ ":" ++ eps /\
    contains ":" service = false /\ contains ":" eps = false /\
    IsValidService service = true /\
    beginsOtherThan "," eps = true /\
    ((URL c <> EmptyString /\ url = URL c) \/
     (URL c = EmptyString /\
      exists user, ConnectionCredentials = inr user /\
                   url = "local:/u/" ++ user ++ "/" ++ EnvName ++ "/" ++ service)) /\
    c' = {| Service := service; Endpoints := SplitN eps ","; URL := url;
            Users := Users c |}.
Proof.
  split.
  - intros Hparse.
    destruct (length (SplitN arg ":") =? 2)%nat eqn:Hlen.
    + destruct (length_two _ Hlen) as (service & eps & Hparts).
      destruct (SplitN_two arg service eps ":" Hparts) as (-> & Hs & He).
      change (service ++ String ":" eps) with (service ++ ":" ++ eps) in Hparse.
      rewrite (parseEndpoints_shape c service eps Hs He) in Hparse.
      destruct (IsValidService service) eqn:Hvalid; cbn [negb] in Hparse; [| done].
      destruct (beginsOtherThan "," eps) eqn:Hbegin; cbn [negb] in Hparse; [| done].
      destruct (String.eqb_spec (URL c) EmptyString) as [Hurl | Hurl].
      * destruct ConnectionCredentials as [err | user]; [done |].
        injection Hparse as <-.
        exists service, eps, ("local:/u/" ++ user ++ "/" ++ EnvName ++ "/" ++ service).
        split; [reflexivity |]. do 4 (split; [done |]). split; [| done].
        right. split; [done |]. by exists user.
      * injection Hparse as <-. exists service, eps, (URL c).
        split; [reflexivity |]. do 4 (split; [done |]). split; [| done]. by left.
    + unfold Offer.parseEndpoints in Hparse. cbv zeta in Hparse.
      by rewrite Hlen in Hparse.
  - intros (service & eps & url & -> & Hs & He & Hvalid & Hbegin & Hurl & ->).
    rewrite (parseEndpoints_shape c service eps Hs He), Hvalid, Hbegin. cbn [negb].
    destruct Hurl as [[Hurl ->] | [Hurl (user & -> & ->)]].
    + by rewrite (proj2 (String.eqb_neq _ _) Hurl).
    + by rewrite Hurl.
Qed.

(** X21. Only the first endpoint is looked at: an argument whose first
    endpoint is not empty is accepted whatever follows the first comma, and
    an empty text between, after or before later commas becomes an empty
    endpoint of the command. *)
Theorem parseEndpoints_later_endpoints (c : offerCommand) (service first others : string) :
  contains ":" service = false -> IsValidService service = true ->
  contains ":" first = false -> contains "," first = false ->
  first <> EmptyString ->
  contains ":" others = false ->
  URL c <> EmptyString ->
  (parseEndpoints c (service ++ ":" ++ first ++ "," ++ others)).2 = None /\
  Endpoints (parseEndpoints c (service ++ ":" ++ first ++ "," ++ others)).1
    = first :: SplitN others "," /\
  (beginsOtherThan "," others = false ->
   EmptyString ∈ Endpoints (parseEndpoints c (service ++ ":" ++ first ++ "," ++ others)).1).
Proof.
  intros Hs Hvalid Hf Hfc Hne Ho Hurl.
  assert (Heps : contains ":" (first ++ "," ++ others) = false).
  { clear Hne Hfc. induction first as [| x first IH]; simpl in *; [done |].
    apply orb_false_iff in Hf as [-> Hf].
    change (String x first ++ String "," others)
      with (String x (first ++ String "," others)). simpl. by apply IH. }
  assert (Hbegin : beginsOtherThan "," (first ++ "," ++ others) = true).
  { destruct first as [| x first]; [done |]. simpl in Hfc.
    apply orb_false_iff in Hfc as [Hx _].
    change (String x first ++ "," ++ others) with (String x (first ++ "," ++ others)).
    simpl. by rewrite Hx. }
  rewrite (parseEndpoints_shape c service _ Hs Heps), Hvalid, Hbegin. cbn [negb].
  rewrite (proj2 (String.eqb_neq _ _) Hurl). cbn [fst snd Endpoints].
  change (first ++ "," ++ others) with (first ++ String "," others).
  rewrite (SplitN_app first others "," Hfc).
  split; [done |]. split; [done |].
  intros Hother. apply elem_of_cons. right.
  pose proof (SplitN_head others ",") as Hhead. rewrite Hother in Hhead.
  apply String.eqb_eq in Hhead.
  pose proof (SplitN_nonempty others ",") as Hparts.
  destruct (SplitN others ",") as [| part parts]; [done |].
  simpl in Hhead. subst part. apply elem_of_cons. by left.
Qed.

(** X22. [Init] with a hosted URL: when it succeeds the command holds that
    URL, which [ParseServiceURL] accepted, with the service and endpoints of
    the first argument. Yet the URL of the local form is built first, so
    for a command without URL whose credentials cannot be read, [Init]
    fails with the error of the credentials although the hosted URL was
    given. *)
Theorem Init_hosted_url (c : offerCommand) (arg hostedURL : string) :
  ((Init c [arg; hostedURL]).2 = None ->
   ParseServiceURL hostedURL = None /\
   (parseEndpoints c arg).2 = None /\
   (Init c [arg; hostedURL]).1
     = {| Service := Service (parseEndpoints c arg).1; Endpoints := Endpoints (parseEndpoints c arg).1;
          URL := hostedURL; Users := Users c |}) /\
  (forall service eps err,
     arg = service ++ ":" ++ eps ->
     contains ":" service = false -> contains ":" eps = false ->
     IsValidService service = true -> beginsOtherThan "," eps = true ->
     URL c = EmptyString -> ConnectionCredentials = inl err ->
     (Init c [arg; hostedURL]).2 = Some err).
Proof.
  split.
  - unfold Offer.Init. cbn [length Nat.ltb Nat.leb Nat.eqb nth].
    destruct (parseEndpoints c arg) as [c1 [err |]] eqn:Hparse; [done |].
    destruct (ParseServiceURL hostedURL); [done |]. intros _.
    apply parseEndpoints_accepts in Hparse
      as (service & eps & url & _ & _ & _ & _ & _ & _ & ->).
    done.
  - intros service eps err -> Hs He Hvalid Hbegin Hurl Hcred.
    unfold Offer.Init. cbn [length Nat.ltb Nat.leb Nat.eqb nth].
    rewrite (parseEndpoints_shape c service eps Hs He), Hvalid, Hbegin, Hurl, Hcred.
    done.
Qed.

Lemma userTags_valid (users : list string) :
  Forall (fun user => IsValidUser user = true) users ->
  userTags users = inr (map UserTagString users).
Proof.
  induction 1 as [| user users Huser _ IH]; simpl; [done |].
  by rewrite Huser, IH.
Qed.

Lemma userTags_invalid (pre post : list string) (bad : string) :
  Forall (fun user => IsValidUser user = true) pre ->
  IsValidUser bad = false ->
  userTags (pre ++ bad :: post)
  = inl (errors_NotValidf "user name %q" [bad]).
Proof.
  intros Hpre Hbad. induction Hpre as [| user pre Huser _ IH]; simpl.
  - by rewrite Hbad.
  - by rewrite Huser, IH.
Qed.

(** X23. [Run] on an API that could be opened: when every user name is
    valid it offers once, with the tags of the users in their order and an
    empty description, and then closes the API; when some user name is not
    valid it offers nothing, reports the first such name as not valid and
    still closes the API. *)
Theorem Run_calls (c : offerCommand) :
  newAPIFunc = None ->
  (Forall (fun user => IsValidUser user = true) (Users c) ->
   let tags := map UserTagString (Users c) in
   Run c
   = ([CallOffer (Service c) (Endpoints c) (URL c) tags EmptyString; CallClose],
      match api_Offer (Service c) (Endpoints c) (URL c) tags EmptyString with
      | inl err => Some err
      | inr results => Combine results
      end)) /\
  (forall pre bad post,
     Users c = (pre ++ bad :: post)%list ->
     Forall (fun user => IsValidUser user = true) pre ->
     IsValidUser bad = false ->
     Run c = ([CallClose], Some (errors_NotValidf "user name %q" [bad]))).
Proof.
  intros Hapi. unfold Offer.Run. rewrite Hapi. split.
  - intros Hvalid. cbv zeta. rewrite (userTags_valid _ Hvalid).
    by destruct (api_Offer _ _ _ _ _).
  - intros pre bad post -> Hpre Hbad. by rewrite (userTags_invalid pre post bad Hpre Hbad).
Qed.

End WithPackages.

Lemma parseEndpoints_accepts_witness :
  parseEndpoints sampleValid (inr "admin") "prod" emptyCommand "db2:db,log"
  = ({| Service := "db2"; Endpoints := ["db"; "log"];
        URL := "local:/u/admin/prod/db2"; Users := [] |}, None).
Proof.
  apply (proj2 (parseEndpoints_accepts sampleValid (inr "admin") "prod" emptyCommand
                  {| Service := "db2"; Endpoints := ["db"; "log"];
                     URL := "local:/u/admin/prod/db2"; Users := [] |} "db2:db,log")).
  exists "db2", "db,log", "local:/u/admin/prod/db2".
  do 5 (split; [reflexivity |]). split; [| reflexivity].
  right. split; [reflexivity |]. exists "admin". split; reflexivity.
Defined.

Lemma parseEndpoints_later_endpoints_witness :
  Endpoints (parseEndpoints sampleValid (inr "admin") "prod"
               {| Service := EmptyString; Endpoints := []; URL := "local:/u/admin/prod/x";
                  Users := [] |} "db2:db,,log").1
  = ["db"; EmptyString; "log"].
Proof.
  destruct (parseEndpoints_later_endpoints sampleValid (inr "admin") "prod"
              {| Service := EmptyString; Endpoints := []; URL := "local:/u/admin/prod/x";
                 Users := [] |} "db2" "db" ",log")
    as (_ & Hendpoints & _);
    [reflexivity | reflexivity | reflexivity | reflexivity | discriminate
    | reflexivity | discriminate |].
  exact Hendpoints.
Defined.

Lemma Init_hosted_url_witness :
  (Init sampleValid (fun _ => None) (inl (Other "no credentials")) "prod" emptyCommand
     ["db2:db"; "vendor:/u/ibm/db2"]).2
  = Some (Other "no credentials").
Proof.
  destruct (Init_hosted_url sampleValid (fun _ => None) (inl (Other "no credentials"))
              "prod" emptyCommand "db2:db" "vendor:/u/ibm/db2") as [_ Hcred].
  apply (Hcred "db2" "db"); reflexivity.
Defined.

Lemma Run_calls_witness :
  Run sampleValid (fun user => "user-" ++ user) None
    (fun _ _ _ _ _ => inr []) (fun _ => None)
    {| Service := "db2"; Endpoints := ["db"]; URL := "local:/u/admin/prod/db2";
       Users := ["alice"; "Bob!"; "carol"] |}
  = ([CallClose], Some (errors_NotValidf "user name %q" ["Bob!"])).
Proof.
  destruct (Run_calls sampleValid (fun user => "user-" ++ user) None
              (fun _ _ _ _ _ => inr []) (fun _ => None)
              {| Service := "db2"; Endpoints := ["db"]; URL := "local:/u/admin/prod/db2";
                 Users := ["alice"; "Bob!"; "carol"] |} eq_refl) as [_ Hbad].
  apply (Hbad ["alice"] "Bob!" ["carol"]); [reflexivity | | reflexivity].
  apply Forall_cons_2; [reflexivity | apply Forall_nil_2].
Defined.

End OfferExtra.

(* ===================================================================== *)
(** * Properties of the filesystem listing                               *)
(* ===================================================================== *)

Module FilesystemExtra.
Import Spaces Filesystem.

Local Open Scope string_scope.

Section WithPackages.

Context {StatusValue TimePointer StorageDetails UnitStorageAttachment : Type}.
Context {FilesystemTag StorageTag paramsError : Type}.
Variable paramsError_text : paramsError -> string.
Variable ParseFilesystemTag : string -> error + FilesystemTag.
Variable FilesystemTag_Id : FilesystemTag -> string.
Variable StorageTag_Id : StorageTag -> string.
Variable FormatTime : TimePointer -> string.
Variable idFromTag : string -> error + string.
Variable createStorageInfo :
  StorageDetails -> error + StorageTag * @StorageInfo UnitStorageAttachment.
Variable visit :
  gmap string FilesystemAttachmentInfo -> list (string * FilesystemAttachmentInfo).

Abbreviation Details := (@FilesystemDetails StatusValue TimePointer StorageDetails).
Abbreviation createFilesystemInfo :=
  (Filesystem.createFilesystemInfo ParseFilesystemTag StorageTag_Id FormatTime idFromTag
     createStorageInfo visit).
Abbreviation convertToFilesystemInfo :=
  (Filesystem.convertToFilesystemInfo ParseFilesystemTag FilesystemTag_Id StorageTag_Id
     FormatTime idFromTag createStorageInfo visit).
Abbreviation generateListFilesystemsOutput :=
  (Filesystem.generateListFilesystemsOutput paramsError_text ParseFilesystemTag
     FilesystemTag_Id StorageTag_Id FormatTime idFromTag createStorageInfo visit).
Abbreviation converts :=
  (Filesystem.converts ParseFilesystemTag StorageTag_Id FormatTime idFromTag
     createStorageInfo visit).

Lemma machineLoop_inr (entries : list (string * FilesystemAttachmentInfo))
    (acc m : gmap string MachineFilesystemAttachment) :
  machineLoop idFromTag entries acc = inr m ->
  (forall machineTag attachment, (machineTag, attachment) ∈ entries ->
     exists machineId, idFromTag machineTag = inr machineId /\ is_Some (m !! machineId)) /\
  (forall machineId, is_Some (acc !! machineId) -> is_Some (m !! machineId)) /\
  (forall machineId machine, m !! machineId = Some machine ->
     acc !! machineId = Some machine \/
     exists machineTag attachment,
       (machineTag, attachment) ∈ entries /\ idFromTag machineTag = inr machineId /\
       machine = {| MountPoint := AttachmentMountPoint attachment;
                    ReadOnly := AttachmentReadOnly attachment |}).
Proof.
  revert acc. induction entries as [| [machineTag attachment] entries IH]; intros acc.
  - simpl. intros [= <-]. split; [| split].
    + intros ? ? Hin. by apply elem_of_nil in Hin.
    + done.
    + intros. by left.
  - simpl. destruct (idFromTag machineTag) as [err | machineId] eqn:Hid; [done |].
    intros Hloop. destruct (IH _ Hloop) as (Hall & Hkeep & Hfrom).
    split; [| split].
    + intros tag att Hin. apply elem_of_cons in Hin as [[= -> ->] | Hin].
      * exists machineId. split; [done |]. apply Hkeep. rewrite lookup_insert_eq.
        by eexists.
      * by apply (Hall tag att).
    + intros id Hsome. apply Hkeep.
      destruct (decide (machineId = id)) as [-> | Hne].
      * rewrite lookup_insert_eq. by eexists.
      * by rewrite lookup_insert_ne.
    + intros id machine Hm. destruct (Hfrom id machine Hm) as [Hacc | Hentry].
      * destruct (decide (machineId = id)) as [-> | Hne].
        -- rewrite lookup_insert_eq in Hacc. injection Hacc as <-.
           right. exists machineTag, attachment. split; [apply elem_of_cons; by left |].
           done.
        -- rewrite lookup_insert_ne in Hacc by done. by left.
      * destruct Hentry as (tag & att & Hin & Htag & ->).
        right. exists tag, att. split; [apply elem_of_cons; by right | done].
Qed.

Lemma convertLoop_converts (all : list Details)
    (acc : gmap string (@FilesystemInfo StatusValue UnitStorageAttachment)) :
  Forall converts all ->
  exists m,
    Filesystem.convertLoop ParseFilesystemTag FilesystemTag_Id StorageTag_Id FormatTime idFromTag
      createStorageInfo visit all acc = Returns (inr m) /\
    (forall id, is_Some (acc !! id) -> is_Some (m !! id)) /\
    (forall one filesystemTag info,
       one ∈ all -> createFilesystemInfo one = Returns (inr (filesystemTag, info)) ->
       is_Some (m !! FilesystemTag_Id filesystemTag)) /\
    (forall id info, m !! id = Some info ->
       acc !! id = Some info \/
       exists one filesystemTag,
         one ∈ all /\ createFilesystemInfo one = Returns (inr (filesystemTag, info)) /\
         FilesystemTag_Id filesystemTag = id).
Proof.
  intros Hall. revert acc.
  induction Hall as [| one all (filesystemTag & info & Hone) _ IH]; intros acc.
  - exists acc. split; [done |]. split; [done |]. split.
    + intros ? ? ? Hin. by apply elem_of_nil in Hin.
    + intros. by left.
  - cbn [convertLoop]. rewrite Hone.
    destruct (IH (<[FilesystemTag_Id filesystemTag := info]> acc))
      as (m & -> & Hkeep & Hall' & Hfrom).
    exists m. split; [done |]. split; [| split].
    + intros id Hsome. apply Hkeep.
      destruct (decide (FilesystemTag_Id filesystemTag = id)) as [-> | Hne].
      * rewrite lookup_insert_eq. by eexists.
      * by rewrite lookup_insert_ne.
    + intros one' tag' info' Hin Hone'.
      apply elem_of_cons in Hin as [-> | Hin].
      * rewrite Hone in Hone'. injection Hone' as <- <-.
        apply Hkeep. rewrite lookup_insert_eq. by eexists.
      * by apply (Hall' one' tag' info').
    + intros id info' Hm. destruct (Hfrom id info' Hm) as [Hacc | Hentry].
      * destruct (decide (FilesystemTag_Id filesystemTag = id)) as [<- | Hne].
        -- rewrite lookup_insert_eq in Hacc. injection Hacc as <-.
           right. exists one, filesystemTag. split; [apply elem_of_cons; by left | done].
        -- rewrite lookup_insert_ne in Hacc by done. by left.
      * destruct Hentry as (one' & tag' & Hin & Hone' & <-).
        right. exists one', tag'. split; [apply elem_of_cons; by right | done].
Qed.

Lemma convertLoop_stops (pre post : list Details) (bad : Details)
    (acc : gmap string (@FilesystemInfo StatusValue UnitStorageAttachment)) :
  Forall converts pre ->
  Filesystem.convertLoop ParseFilesystemTag FilesystemTag_Id StorageTag_Id FormatTime idFromTag
    createStorageInfo visit (pre ++ bad :: post) acc
  = match createFilesystemInfo bad with
    | Panics => Panics
    | Returns (inl err) => Returns (inl (Trace err))
    | Returns (inr (filesystemTag, info)) =>
        Filesystem.convertLoop ParseFilesystemTag FilesystemTag_Id StorageTag_Id FormatTime idFromTag
          createStorageInfo visit (bad :: post)
          (foldl (fun acc one =>
                    match createFilesystemInfo one with
                    | Returns (inr (tag, info)) => <[FilesystemTag_Id tag := info]> acc
                    | _ => acc
                    end) acc pre)
    end.
Proof.
  intros Hpre. revert acc.
  induction Hpre as [| one pre (filesystemTag & info & Hone) _ IH]; intros acc.
  - cbn [app foldl convertLoop]. by destruct (createFilesystemInfo bad) as [[err | [tag info]] |].
  - cbn [app foldl convertLoop]. rewrite Hone. by rewrite IH.
Qed.

(** X24. [createFilesystemInfo] panics exactly on a filesystem that has no
    machine attachment but a storage instance with attachments, once its
    tags have been read and [createStorageInfo] has succeeded: the units are
    assigned through the pointer [info.Attachments], which is only set when
    there is a machine attachment. *)
Theorem createFilesystemInfo_panics (details : Details) :
  createFilesystemInfo details = Panics <->
  (exists filesystemTag,
     ParseFilesystemTag (DetailsFilesystemTag details) = inr filesystemTag) /\
  (VolumeTag details = EmptyString \/
   exists volumeId, idFromTag (VolumeTag details) = inr volumeId) /\
  MachineAttachments details = ∅ /\
  exists storageDetails storageTag storageInfo units,
    DetailsStorage details = Some storageDetails /\
    createStorageInfo storageDetails = inr (storageTag, storageInfo) /\
    StorageUnits storageInfo = Some units.
Proof.
  unfold Filesystem.createFilesystemInfo. split.
  - intros H. repeat case_match; try done; simplify_eq.
    all: match goal with
         | Hsize : (0 <? size _)%nat = false |- _ =>
             apply Nat.ltb_ge, Nat.le_0_r, map_size_empty_iff in Hsize
         end.
    all: split; [by eexists |]; split; [| split; [done | by eauto 10]].
    + right. by eexists.
    + left.
      match goal with
      | Hvolume : negb _ = false |- _ =>
          by apply negb_false_iff, String.eqb_eq in Hvolume
      end.
  - intros ((filesystemTag & ->) & Hvolume & Hmachines & storageDetails & storageTag
            & storageInfo & units & -> & Hstorage & Hunits).
    rewrite Hmachines, map_size_empty, Hstorage, Hunits. cbn [Nat.ltb Nat.leb].
    destruct Hvolume as [-> | [volumeId Hvolume]]; [done |].
    destruct (negb _); by rewrite ?Hvolume.
Qed.

(** X25. The attachments of a filesystem that [createFilesystemInfo]
    returns: none at all when the filesystem has no machine attachment;
    otherwise the machines listed are the ids of the attached machine tags,
    each with the mount point and the read-only flag of an attachment with
    that id, and the units are those of the storage instance, if it has
    attachments. *)
Theorem createFilesystemInfo_attachments (details : Details)
    (filesystemTag : FilesystemTag)
    (info : @FilesystemInfo StatusValue UnitStorageAttachment) :
  (forall m, visit m ≡ₚ map_to_list m) ->
  createFilesystemInfo details = Returns (inr (filesystemTag, info)) ->
  (MachineAttachments details = ∅ -> Attachments info = None) /\
  (MachineAttachments details <> ∅ ->
   exists attachments,
     Attachments info = Some attachments /\
     (forall machineTag attachment,
        MachineAttachments details !! machineTag = Some attachment ->
        exists machineId,
          idFromTag machineTag = inr machineId /\
          is_Some (Machines attachments !! machineId)) /\
     (forall machineId machine,
        Machines attachments !! machineId = Some machine ->
        exists machineTag attachment,
          MachineAttachments details !! machineTag = Some attachment /\
          idFromTag machineTag = inr machineId /\
          machine = {| MountPoint := AttachmentMountPoint attachment;
                       ReadOnly := AttachmentReadOnly attachment |}) /\
     Units attachments
     = match DetailsStorage details with
       | Some storageDetails =>
           match createStorageInfo storageDetails with
           | inr (_, storageInfo) => default ∅ (StorageUnits storageInfo)
           | inl _ => ∅
           end
       | None => ∅
       end).
Proof.
  intros Hvisit. unfold Filesystem.createFilesystemInfo.
  destruct (ParseFilesystemTag _) as [err | tag]; [done |].
  destruct (if negb _ then _ else _) as [err | volume]; [done |].
  destruct (0 <? size (MachineAttachments details))%nat eqn:Hsize.
  - apply Nat.ltb_lt in Hsize.
    destruct (machineLoop idFromTag (visit (MachineAttachments details)) ∅)
      as [err | machines] eqn:Hloop; [done |].
    destruct (machineLoop_inr _ _ _ Hloop) as (Hall & _ & Hfrom).
    assert (Hin : forall machineTag attachment,
              (machineTag, attachment) ∈ visit (MachineAttachments details)
              <-> MachineAttachments details !! machineTag = Some attachment).
    { intros machineTag attachment. rewrite Hvisit. apply elem_of_map_to_list. }
    intros Hcreate. split.
    { intros Hempty. rewrite Hempty, map_size_empty in Hsize. lia. }
    intros _.
    assert (Hresult : exists attachments,
              Attachments info = Some attachments /\
              Machines attachments = machines /\
              Units attachments
              = match DetailsStorage details with
                | Some storageDetails =>
                    match createStorageInfo storageDetails with
                    | inr (_, storageInfo) => default ∅ (StorageUnits storageInfo)
                    | inl _ => ∅
                    end
                | None => ∅
                end).
    { destruct (DetailsStorage details) as [storageDetails |].
      - destruct (createStorageInfo storageDetails) as [err | [storageTag storageInfo]];
          [done |].
        destruct (StorageUnits storageInfo) as [units |];
          injection Hcreate as _ <-; by eexists.
      - injection Hcreate as _ <-. by eexists. }
    destruct Hresult as (attachments & Ha & Hm & Hu).
    exists attachments. split; [done |]. rewrite Hm. split; [| split; [| done]].
    + intros machineTag attachment Hlookup.
      apply (Hall machineTag attachment), Hin, Hlookup.
    + intros machineId machine Hlookup.
      destruct (Hfrom machineId machine Hlookup) as [Hempty | Hentry];
        [by rewrite lookup_empty in Hempty |].
      destruct Hentry as (machineTag & attachment & Hentry & Hid & ->).
      exists machineTag, attachment. by split; [apply Hin |].
  - apply Nat.ltb_ge, Nat.le_0_r, map_size_empty_iff in Hsize.
    intros Hcreate. split; [| done]. intros _.
    destruct (DetailsStorage details) as [storageDetails |].
    + destruct (createStorageInfo storageDetails) as [err | [storageTag storageInfo]];
        [done |].
      destruct (StorageUnits storageInfo) as [units |]; [done |].
      by injection Hcreate as _ <-.
    + by injection Hcreate as _ <-.
Qed.

(** X26. [convertToFilesystemInfo] is all or nothing: it stops at the first
    filesystem that [createFilesystemInfo] rejects and returns that error,
    traced, and no map, whatever the filesystems before and after it; a
    panic of that call is a panic of the whole. When every filesystem
    converts, the map holds under the id of each tag an info of a
    filesystem with that id, and nothing else. *)
Theorem convertToFilesystemInfo_all_or_nothing (pre post : list Details) (bad : Details) :
  Forall converts pre ->
  (forall err, createFilesystemInfo bad = Returns (inl err) ->
     convertToFilesystemInfo (pre ++ bad :: post) = Returns (inl (Trace err))) /\
  (createFilesystemInfo bad = Panics -> convertToFilesystemInfo (pre ++ bad :: post) = Panics) /\
  exists m,
    convertToFilesystemInfo pre = Returns (inr m) /\
    (forall one filesystemTag info,
       one ∈ pre -> createFilesystemInfo one = Returns (inr (filesystemTag, info)) ->
       is_Some (m !! FilesystemTag_Id filesystemTag)) /\
    (forall id info, m !! id = Some info ->
       exists one filesystemTag,
         one ∈ pre /\ createFilesystemInfo one = Returns (inr (filesystemTag, info)) /\
         FilesystemTag_Id filesystemTag = id).
Proof.
  intros Hpre. unfold Filesystem.convertToFilesystemInfo. split; [| split].
  - intros err Hbad. by rewrite (convertLoop_stops pre post bad ∅ Hpre), Hbad.
  - intros Hbad. by rewrite (convertLoop_stops pre post bad ∅ Hpre), Hbad.
  - destruct (convertLoop_converts pre ∅ Hpre) as (m & Hm & _ & Hall & Hfrom).
    exists m. split; [done |]. split; [done |].
    intros id info Hlookup.
    destruct (Hfrom id info Hlookup) as [Hempty | Hentry];
      [by rewrite lookup_empty in Hempty | done].
Qed.

(** X27. [generateListFilesystemsOutput] tolerates the errors of single
    results: each is written to the error stream, in order, and the
    filesystems of the other results are listed. When no result is left
    the output is nil without an error. Otherwise the valid filesystems are
    converted, all or nothing, and a map that converts is returned as it is,
    or under the key "filesystems" for the yaml and json formatters. *)
Theorem generateListFilesystemsOutput_results
    (results : list (@FilesystemDetailsListResult StatusValue TimePointer StorageDetails
                       paramsError))
    (outName : string) :
  let valid := validDetails results in
  (generateListFilesystemsOutput (inr results) outName).1 = errorLines paramsError_text results /\
  (valid = [] -> (generateListFilesystemsOutput (inr results) outName).2 = Returns (OutputNil, None)) /\
  (forall pre bad post err,
     valid = (pre ++ bad :: post)%list -> Forall converts pre ->
     createFilesystemInfo bad = Returns (inl err) ->
     (generateListFilesystemsOutput (inr results) outName).2 = Returns (OutputNil, Some (Trace err))) /\
  (valid <> [] -> Forall converts valid ->
   exists info,
     convertToFilesystemInfo valid = Returns (inr info) /\
     (generateListFilesystemsOutput (inr results) outName).2
     = Returns (if String.eqb outName "yaml" || String.eqb outName "json"
                then OutputKeyed "filesystems" info
                else OutputInfo info, None)).
Proof.
  intros valid. unfold Filesystem.generateListFilesystemsOutput. cbn [fst snd]. fold valid.
  split; [done |]. split; [| split].
  - by intros ->.
  - intros pre bad post err Hvalid Hpre Hbad. rewrite Hvalid.
    destruct (convertToFilesystemInfo_all_or_nothing pre post bad Hpre) as [Hstop _].
    rewrite (Hstop err Hbad).
    by destruct pre.
  - intros Hne Hall.
    destruct (convertLoop_converts valid ∅ Hall) as (info & Hinfo & _).
    exists info. split; [done |]. unfold Filesystem.convertToFilesystemInfo. rewrite Hinfo.
    destruct valid; [done |]. cbn [length Nat.eqb].
    by destruct (_ || _).
Qed.

End WithPackages.

Lemma createFilesystemInfo_panics_witness :
  createFilesystemInfo (sampleId "filesystem") id (fun _ : unit => EmptyString)
    sampleIdFromTag sampleStorageInfo map_to_list detailsDetached
  = Panics.
Proof.
  apply (proj2 (createFilesystemInfo_panics (sampleId "filesystem") id
                  (fun _ : unit => EmptyString) sampleIdFromTag sampleStorageInfo
                  map_to_list detailsDetached)).
  split; [exists "0"; vm_compute; reflexivity |].
  split; [left; reflexivity |]. split; [reflexivity |].
  exists "data/0", "data/0", {| StorageUnits := Some ∅ |}, ∅.
  split; [reflexivity |]. split; reflexivity.
Defined.

Lemma createFilesystemInfo_attachments_witness :
  exists attachments,
    Attachments
      {| ProviderFilesystemId := "fs-0"; Volume := EmptyString; Storage := EmptyString;
         Attachments :=
           Some {| Machines := {[ "0" := {| MountPoint := "/mnt"; ReadOnly := false |} ]};
                   Units := (∅ : gmap string unit) |};
         Size := 1024;
         Status := {| EntityStatus1 := "attached"; EntityStatus2 := EmptyString;
                      EntityStatus3 := EmptyString |} |}
    = Some attachments /\
    exists machineId,
      sampleIdFromTag "machine-0" = inr machineId /\
      is_Some (Machines attachments !! machineId).
Proof.
  destruct (createFilesystemInfo_attachments (sampleId "filesystem") id
              (fun _ : unit => EmptyString) sampleIdFromTag sampleStorageInfo
              map_to_list detailsAttached "0"
              {| ProviderFilesystemId := "fs-0"; Volume := EmptyString;
                 Storage := EmptyString;
                 Attachments :=
                   Some {| Machines :=
                             {[ "0" := {| MountPoint := "/mnt"; ReadOnly := false |} ]};
                           Units := (∅ : gmap string unit) |};
                 Size := 1024;
                 Status := {| EntityStatus1 := "attached"; EntityStatus2 := EmptyString;
                              EntityStatus3 := EmptyString |} |})
    as [_ Hsome].
  - intros m. reflexivity.
  - vm_compute. reflexivity.
  - destruct Hsome as (attachments & Ha & Hall & _); [apply insert_non_empty |].
    exists attachments. split; [exact Ha |].
    apply (Hall "machine-0"
             {| AttachmentMountPoint := "/mnt"; AttachmentReadOnly := false |}).
    vm_compute. reflexivity.
Defined.

Lemma convertToFilesystemInfo_all_or_nothing_witness :
  convertToFilesystemInfo (sampleId "filesystem") id id (fun _ : unit => EmptyString)
    sampleIdFromTag sampleStorageInfo map_to_list
    [detailsAttached; detailsMistagged; detailsAttached]
  = Returns (inl (Trace (Trace (Errorf "%q is not a valid %s tag"
                                  ["volume-1"; "filesystem"])))).
Proof.
  destruct (convertToFilesystemInfo_all_or_nothing (sampleId "filesystem") id id
              (fun _ : unit => EmptyString) sampleIdFromTag sampleStorageInfo map_to_list
              [detailsAttached] [detailsAttached] detailsMistagged) as [Hstop _].
  - apply Forall_cons_2; [| apply Forall_nil_2].
    exists "0",
      {| ProviderFilesystemId := "fs-0"; Volume := EmptyString; Storage := EmptyString;
         Attachments :=
           Some {| Machines := {[ "0" := {| MountPoint := "/mnt"; ReadOnly := false |} ]};
                   Units := (∅ : gmap string unit) |};
         Size := 1024;
         Status := {| EntityStatus1 := "attached"; EntityStatus2 := EmptyString;
                      EntityStatus3 := EmptyString |} |}.
    vm_compute. reflexivity.
  - apply Hstop. vm_compute. reflexivity.
Defined.

Lemma generateListFilesystemsOutput_results_witness :
  (generateListFilesystemsOutput (fun text : string => text) (sampleId "filesystem") id id
     (fun _ : unit => EmptyString) sampleIdFromTag sampleStorageInfo map_to_list
     (inr [ {| Result := [detailsAttached]; ResultError := Some "permission denied" |} ])
     "yaml").2
  = Returns (OutputNil, None).
Proof.
  destruct (generateListFilesystemsOutput_results (fun text : string => text)
              (sampleId "filesystem") id id (fun _ : unit => EmptyString)
              sampleIdFromTag sampleStorageInfo map_to_list
              [ {| Result := [detailsAttached]; ResultError := Some "permission denied" |} ]
              "yaml") as (_ & Hnil & _).
  apply Hnil. reflexivity.
Defined.

End FilesystemExtra.
